(** * Election-results dump loader: a shallow embedding of [data.py]

    The development follows the layout of the Python module:

    - [Py]      the Python built-ins the module relies on ([str.strip],
                [str.upper], [int], [str], [sorted], ordered [dict]s);
    - [Csv]     the [csv.reader] state machine with the dialect the module
                selects (delimiter [,], quotechar ['], [skipinitialspace]);
    - [Re]      matchers for the three regular expressions of the module;
    - [Frame]   the fragment of pandas the module uses, over Python scalars;
    - the functions of [data.py] themselves, under their own names.

    Modelling conventions.  Text is a [string] whose characters stand for the
    code points 0..255; case conversion acts on the ASCII letters (no other
    code point of that range maps to an ASCII letter).  Python integers are
    [Z].  A Python [float] obtained from a decimal literal is kept as the
    exact decimal it denotes ([decimal]); binary rounding and the resource
    limits of the interpreter (field-size limit of [csv], digit limit of
    [int]) are outside the model.  pandas' [NaN] and Python's [None] are the
    single value [VNull]; integer columns are unbounded. *)

From Stdlib Require Import ZArith String Ascii List Lia Bool.
From Stdlib Require Import DecimalString DecimalZ DecimalPos Sorted.
From stdpp Require Import base option list strings gmap.

Local Open Scope Z_scope.

(** ** Scalars *)

(** The decimal [dmant / 10 ^ dscale]. *)
Record decimal := Dec { dmant : Z; dscale : nat }.

(** A cell of a row: the four kinds of scalar that value coercion yields. *)
Inductive Value :=
| VNull
| VInt (n : Z)
| VFloat (d : decimal)
| VStr (s : string).

#[global] Instance decimal_eq_dec : EqDecision decimal.
Proof. solve_decision. Defined.
#[global] Instance Value_eq_dec : EqDecision Value.
Proof. solve_decision. Defined.

(** Exceptions the module can raise.  [ValueError] carries its message:
    the two mandatory-table failures of the assembler are told apart from
    conversion failures by it. *)
Inductive error :=
| ValueError (msg : string)
| KeyError (key : string)
| TypeError (msg : string)
| CsvError (msg : string)
| StopIteration.

#[global] Instance error_eq_dec : EqDecision error.
Proof. solve_decision. Defined.

(** Computations that may raise. *)
Inductive result (A : Type) :=
| Ok (a : A)
| Err (e : error).
Arguments Ok {A} a.
Arguments Err {A} e.

Definition rbind {A B} (m : result A) (f : A -> result B) : result B :=
  match m with Ok a => f a | Err e => Err e end.

Notation "'let*' x := m 'in' k" := (rbind m (fun x => k))
  (at level 10, x pattern, m at level 100, k at level 200).

Fixpoint rmap {A B} (f : A -> result B) (l : list A) : result (list B) :=
  match l with
  | [] => Ok []
  | a :: l' => let* b := f a in let* bs := rmap f l' in Ok (b :: bs)
  end.


(** ** Python built-ins *)
Module Py.

Definition code (c : ascii) : N := N_of_ascii c.

(** [str.isspace] on one character, also the class [\s] of [re]. *)
Definition isspace (c : ascii) : bool :=
  let n := code c in
  ((9 <=? n) && (n <=? 13) || (28 <=? n) && (n <=? 32)
   || (n =? 133) || (n =? 160))%N.

(** The class [\d]. *)
Definition isdigit (c : ascii) : bool :=
  let n := code c in ((48 <=? n) && (n <=? 57))%N.

Definition upper_char (c : ascii) : ascii :=
  let n := code c in
  if ((97 <=? n) && (n <=? 122))%N then ascii_of_N (n - 32) else c.

Definition lower_char (c : ascii) : ascii :=
  let n := code c in
  if ((65 <=? n) && (n <=? 90))%N then ascii_of_N (n + 32) else c.

Fixpoint smap (f : ascii -> ascii) (s : string) : string :=
  match s with
  | EmptyString => EmptyString
  | String c r => String (f c) (smap f r)
  end.

Definition upper : string -> string := smap upper_char.
Definition lower : string -> string := smap lower_char.

Fixpoint lstrip (s : string) : string :=
  match s with
  | String c r => if isspace c then lstrip r else s
  | EmptyString => EmptyString
  end.

(** [rstrip]: a character is kept when something after it is kept or it
    is not white space. *)
Fixpoint rstrip (s : string) : string :=
  match s with
  | EmptyString => EmptyString
  | String c r =>
      match rstrip r with
      | EmptyString => if isspace c then EmptyString else String c EmptyString
      | r' => String c r'
      end
  end.

Definition strip (s : string) : string := rstrip (lstrip s).

(** [s.strip(ch)] for a one-character set. *)
Fixpoint lstrip_char (ch : ascii) (s : string) : string :=
  match s with
  | String c r => if Ascii.eqb c ch then lstrip_char ch r else s
  | EmptyString => EmptyString
  end.

Fixpoint rstrip_char (ch : ascii) (s : string) : string :=
  match s with
  | EmptyString => EmptyString
  | String c r =>
      match rstrip_char ch r with
      | EmptyString =>
          if Ascii.eqb c ch then EmptyString else String c EmptyString
      | r' => String c r'
      end
  end.

Definition strip_char (ch : ascii) (s : string) : string :=
  rstrip_char ch (lstrip_char ch s).

(** [s.split(sep)] for a one-character separator: never empty. *)
Fixpoint split (sep : ascii) (s : string) : list string :=
  match s with
  | EmptyString => [EmptyString]
  | String c r =>
      if Ascii.eqb c sep then EmptyString :: split sep r
      else match split sep r with
           | w :: ws => String c w :: ws
           | [] => [String c EmptyString]
           end
  end.



Fixpoint startswith (p s : string) : bool :=
  match p, s with
  | EmptyString, _ => true
  | String a p', String b s' => Ascii.eqb a b && startswith p' s'
  | String _ _, EmptyString => false
  end.

(** [p in s] on strings. *)
Fixpoint contains (p s : string) : bool :=
  startswith p s ||
  match s with
  | EmptyString => false
  | String _ r => contains p r
  end.

Fixpoint all_digits (s : string) : bool :=
  match s with
  | EmptyString => true
  | String c r => isdigit c && all_digits r
  end.

(** [str(n)] for an integer. *)
Definition str_of_int (n : Z) : string := NilZero.string_of_int (Z.to_int n).

(** Value of a string of decimal digits, most significant first. *)
Fixpoint digits_value (acc : Z) (s : string) : Z :=
  match s with
  | EmptyString => acc
  | String c r => digits_value (10 * acc + (Z.of_N (code c) - 48)) r
  end.

(** Digits of an integer literal given to [int]: single underscores are
    allowed between digits. *)
Fixpoint int_digits (prev_digit : bool) (acc : Z) (s : string) : option Z :=
  match s with
  | EmptyString => if prev_digit then Some acc else None
  | String c r =>
      if isdigit c then int_digits true (10 * acc + (Z.of_N (code c) - 48)) r
      else if Ascii.eqb c "_" && prev_digit then
        match r with
        | String d _ => if isdigit d then int_digits false acc r else None
        | EmptyString => None
        end
      else None
  end.

(** [int(s)] on a string: surrounding white space, an optional sign,
    then digits. *)
Definition int_of_string (s : string) : option Z :=
  match strip s with
  | String "-" r => Z.opp <$> int_digits false 0 r
  | String "+" r => int_digits false 0 r
  | r => int_digits false 0 r
  end.

(** [int(x)] on a float: truncation towards zero. *)
Definition trunc (d : decimal) : Z := Z.quot (dmant d) (10 ^ Z.of_nat (dscale d)).

(** Canonical form of a decimal: no trailing zero in the fraction. *)
Fixpoint normalize (m : Z) (k : nat) : decimal :=
  match k with
  | O => Dec m O
  | S k' => if (m mod 10 =? 0) then normalize (m / 10) k' else Dec m k
  end.

Definition dadd (a b : decimal) : decimal :=
  let k := Nat.max (dscale a) (dscale b) in
  normalize (dmant a * 10 ^ Z.of_nat (k - dscale a)
             + dmant b * 10 ^ Z.of_nat (k - dscale b)) k.

Definition dec_of_int (n : Z) : decimal := Dec n O.

(** Order of two decimals. *)
Definition dcompare (a b : decimal) : comparison :=
  let k := Nat.max (dscale a) (dscale b) in
  Z.compare (dmant a * 10 ^ Z.of_nat (k - dscale a))
            (dmant b * 10 ^ Z.of_nat (k - dscale b)).

End Py.

(** A Python [dict] with string keys, in insertion order: assigning to an
    existing key keeps its position. *)
Definition dict (V : Type) := list (string * V).

Fixpoint dict_get {V} (k : string) (d : dict V) : option V :=
  match d with
  | [] => None
  | (k', v) :: d' => if String.eqb k k' then Some v else dict_get k d'
  end.

Fixpoint dict_set {V} (k : string) (v : V) (d : dict V) : dict V :=
  match d with
  | [] => [(k, v)]
  | (k', v') :: d' =>
      if String.eqb k k' then (k', v) :: d' else (k', v') :: dict_set k v d'
  end.

Definition dict_keys {V} (d : dict V) : list string := map fst d.

(** [dict(pairs)]. *)
Definition dict_of_pairs {V} (l : list (string * V)) : dict V :=
  fold_left (fun d kv => dict_set (fst kv) (snd kv) d) l [].

(** A Row of a table: column name to scalar. *)
Definition Row := dict Value.

(** ** [csv.reader] with [delimiter=','], [quotechar="'"],
       [skipinitialspace=True] and the defaults [doublequote=True],
       [escapechar=None], [strict=False], [QUOTE_MINIMAL] *)
Module Csv.

Inductive state :=
| START_RECORD
| START_FIELD
| IN_FIELD
| IN_QUOTED_FIELD
| QUOTE_IN_QUOTED_FIELD
| EAT_CRNL.

#[global] Instance state_eq_dec : EqDecision state.
Proof. solve_decision. Defined.

Record reader := Reader {
  st : state;
  field : string;          (* characters of the field being read *)
  fields : list string     (* fields saved so far *)
}.

Definition delimiter : ascii := ",".
Definition quotechar : ascii := "'".

Definition is_newline (c : ascii) : bool :=
  Ascii.eqb c "010" || Ascii.eqb c "013".

Definition parse_save_field (r : reader) : reader :=
  Reader (st r) EmptyString (fields r ++ [field r]).

Definition parse_add_char (c : ascii) (r : reader) : reader :=
  Reader (st r) (field r +:+ String c EmptyString) (fields r).

Definition set_state (s : state) (r : reader) : reader :=
  Reader s (field r) (fields r).

Definition start_field (r : reader) (c : option ascii) : reader :=
  match c with
  | None => set_state START_RECORD (parse_save_field r)
  | Some c =>
      if is_newline c then set_state EAT_CRNL (parse_save_field r)
      else if Ascii.eqb c quotechar then set_state IN_QUOTED_FIELD r
      else if Ascii.eqb c " " then set_state START_FIELD r
      else if Ascii.eqb c delimiter then
        set_state START_FIELD (parse_save_field r)
      else set_state IN_FIELD (parse_add_char c r)
  end.

(** One step of the reader; [None] is the end-of-line mark that the reader
    feeds after the characters of a line. *)
Definition parse_process_char (r : reader) (c : option ascii)
  : result reader :=
  match st r with
  | START_RECORD =>
      match c with
      | None => Ok r
      | Some ch =>
          if is_newline ch then Ok (set_state EAT_CRNL r)
          else Ok (start_field r c)
      end
  | START_FIELD => Ok (start_field r c)
  | IN_FIELD =>
      match c with
      | None => Ok (set_state START_RECORD (parse_save_field r))
      | Some ch =>
          if is_newline ch then Ok (set_state EAT_CRNL (parse_save_field r))
          else if Ascii.eqb ch delimiter then
            Ok (set_state START_FIELD (parse_save_field r))
          else Ok (parse_add_char ch r)
      end
  | IN_QUOTED_FIELD =>
      match c with
      | None => Ok r
      | Some ch =>
          if Ascii.eqb ch quotechar then Ok (set_state QUOTE_IN_QUOTED_FIELD r)
          else Ok (parse_add_char ch r)
      end
  | QUOTE_IN_QUOTED_FIELD =>
      match c with
      | None => Ok (set_state START_RECORD (parse_save_field r))
      | Some ch =>
          if Ascii.eqb ch quotechar then
            Ok (set_state IN_QUOTED_FIELD (parse_add_char ch r))
          else if Ascii.eqb ch delimiter then
            Ok (set_state START_FIELD (parse_save_field r))
          else if is_newline ch then
            Ok (set_state EAT_CRNL (parse_save_field r))
          else Ok (set_state IN_FIELD (parse_add_char ch r))
      end
  | EAT_CRNL =>
      match c with
      | None => Ok (set_state START_RECORD r)
      | Some ch =>
          if is_newline ch then Ok r
          else Err (CsvError "new-line character seen in unquoted field")
      end
  end.

Fixpoint feed (r : reader) (s : string) : result reader :=
  match s with
  | EmptyString => Ok r
  | String c s' =>
      let* r' := parse_process_char r (Some c) in feed r' s'
  end.

(** [next(csv.reader([line], ...))]: the line, the end-of-line mark, and,
    when the line ends inside a quoted field, the exhausted input. *)
Definition next_record (line : string) : result (list string) :=
  let* r := feed (Reader START_RECORD EmptyString []) line in
  let* r := parse_process_char r None in
  match st r with
  | START_RECORD => Ok (fields r)
  | s =>
      if negb (String.eqb (field r) EmptyString)
         || bool_decide (s = IN_QUOTED_FIELD)
      then Ok (fields (parse_save_field r))
      else Err StopIteration
  end.

End Csv.

(** ** The regular expressions of the module *)
Module Re.

(** [\d+] as a full match. *)
Definition digits1 (s : string) : bool :=
  match s with
  | EmptyString => false
  | _ => Py.all_digits s
  end.

Definition drop_minus (s : string) : string :=
  match s with
  | String "-" r => r
  | _ => s
  end.

(** [re.fullmatch(r"-?\d+", s)]. *)
Definition fullmatch_int (s : string) : bool := digits1 (drop_minus s).

(** Longest prefix of digits, and what follows it. *)
Fixpoint span_digits (s : string) : string * string :=
  match s with
  | String c r =>
      if Py.isdigit c then
        let '(d, rest) := span_digits r in (String c d, rest)
      else (EmptyString, s)
  | EmptyString => (EmptyString, EmptyString)
  end.

(** [re.fullmatch(r"-?\d+\.\d+", s)]. *)
Definition fullmatch_float (s : string) : bool :=
  let '(ip, rest) := span_digits (drop_minus s) in
  match rest with
  | String "." fp => digits1 ip && digits1 fp
  | _ => false
  end.

Definition eqb_nocase (a b : ascii) : bool :=
  Ascii.eqb (Py.lower_char a) (Py.lower_char b).

(** A literal under [re.IGNORECASE]: what follows it, when it matches at
    the start of [s]. *)
Fixpoint literal (p s : string) : option string :=
  match p, s with
  | EmptyString, _ => Some s
  | String a p', String b s' =>
      if eqb_nocase a b then literal p' s' else None
  | String _ _, EmptyString => None
  end.

(** [[^ch]*] followed by [ch]: the text before the first [ch] and the
    text after it. *)
Fixpoint until (ch : ascii) (s : string) : option (string * string) :=
  match s with
  | EmptyString => None
  | String c r =>
      if Ascii.eqb c ch then Some (EmptyString, r)
      else match until ch r with
           | Some (a, b) => Some (String c a, b)
           | None => None
           end
  end.

(** The statement pattern (IGNORECASE, DOTALL) at the start of [s]: the
    literal [INSERT INTO `table`], white space, a parenthesised non-empty
    run of characters other than a closing parenthesis (group 1), white
    space, [VALUES], white space, and the shortest text up to a semicolon
    (group 2).  The result is the two groups and the text after the
    match. *)
Definition insert_at (table s : string)
  : option ((string * string) * string) :=
  s1 ← literal ("INSERT INTO `" +:+ table +:+ "`") s;
  match Py.lstrip s1 with
  | String "(" s2 =>
      '(cols_raw, s3) ← until ")" s2;
      match cols_raw with
      | EmptyString => None
      | _ =>
          s4 ← literal "VALUES" (Py.lstrip s3);
          '(values_raw, s5) ← until ";" (Py.lstrip s4);
          Some ((cols_raw, values_raw), s5)
      end
  | _ => None
  end.

(** The tuple pattern (DOTALL) at the start of [s]: an opening
    parenthesis, a run of characters other than a closing parenthesis
    (the group), a closing parenthesis. *)
Definition tuple_at (s : string) : option (string * string) :=
  match s with
  | String "(" r => until ")" r
  | _ => None
  end.

(** Successive non-overlapping matches, leftmost first, of a pattern given
    by its matcher at a position ([finditer], and [findall] for a pattern
    with one group).  [skip] counts the characters of the last match that
    are still to be passed over. *)
Fixpoint scan {G} (at_ : string -> option (G * string))
    (skip : nat) (s : string) : list G :=
  match s with
  | EmptyString => []
  | String _ r =>
      match skip with
      | S k => scan at_ k r
      | O =>
          match at_ s with
          | Some (g, rest) =>
              g :: scan at_ (String.length s - String.length rest - 1) r
          | None => scan at_ 0 r
          end
      end
  end.

Definition finditer_insert (table text : string) : list (string * string) :=
  scan (insert_at table) 0 text.

Definition findall_tuples (values_raw : string) : list string :=
  scan tuple_at 0 values_raw.

End Re.

(** ** Value coercion and the statement extractor *)

(** [float(token)] for a token of the shape [-?\d+\.\d+]. *)
Definition float_of_token (token : string) : decimal :=
  let '(ip, rest) := Re.span_digits (Re.drop_minus token) in
  let fp := match rest with String _ fp => fp | EmptyString => EmptyString end in
  let m := Py.digits_value 0 (ip +:+ fp) in
  Py.normalize (if Py.startswith "-" token then - m else m)
               (String.length fp).

(** [int(token)] for a token of the shape [-?\d+]. *)
Definition int_of_token (token : string) : Z :=
  let m := Py.digits_value 0 (Re.drop_minus token) in
  if Py.startswith "-" token then - m else m.

Definition _convert_sql_value (token : string) : Value :=
  let token := Py.strip token in
  if String.eqb (Py.upper token) "NULL" || String.eqb token "" then VNull
  else if Re.fullmatch_int token then VInt (int_of_token token)
  else if Re.fullmatch_float token then VFloat (float_of_token token)
  else VStr token.

(** Lines 24-30: pad with [None] or truncate to the number of columns. *)
Definition fit_columns (cols : list string) (parsed : list Value)
  : list Value :=
  if bool_decide (length parsed ≠ length cols) then
    if bool_decide (length parsed < length cols)%nat then
      parsed ++ replicate (length cols - length parsed) VNull
    else take (length cols) parsed
  else parsed.

(** The body of the loop over the tuples of one statement block. *)
Definition row_of_tuple (cols : list string) (tup : string) : result Row :=
  let* parsed := Csv.next_record tup in
  let parsed := map _convert_sql_value parsed in
  let parsed := fit_columns cols parsed in
  Ok (dict_of_pairs (combine cols parsed)).

Definition columns_of (cols_raw : string) : list string :=
  map (fun c => Py.strip_char "`" (Py.strip c)) (Py.split "," cols_raw).

Definition rows_of_block (block : string * string) : result (list Row) :=
  let '(cols_raw, values_raw) := block in
  let cols := columns_of cols_raw in
  rmap (row_of_tuple cols) (Re.findall_tuples values_raw).

Definition _parse_insert_blocks (sql_text table : string)
  : result (list Row) :=
  let* rows := rmap rows_of_block (Re.finditer_insert table sql_text) in
  Ok (concat rows).

(** ** Python scalars: equality, order, [int], [sorted] *)

Definition num_of (v : Value) : option decimal :=
  match v with
  | VInt n => Some (Dec n O)
  | VFloat d => Some d
  | _ => None
  end.

Definition is_null (v : Value) : bool :=
  match v with VNull => true | _ => false end.

Definition is_num (v : Value) : bool :=
  match v with VInt _ | VFloat _ => true | _ => false end.

Definition is_str (v : Value) : bool :=
  match v with VStr _ => true | _ => false end.

(** Equality of two keys: numbers by value, text by content, null with
    null (as pandas pairs missing keys when grouping and joining). *)
Definition eqb_scalar (a b : Value) : bool :=
  match a, b with
  | VNull, VNull => true
  | VStr s, VStr t => String.eqb s t
  | _, _ =>
      match num_of a, num_of b with
      | Some x, Some y =>
          match Py.dcompare x y with Eq => true | _ => false end
      | _, _ => false
      end
  end.

(** Element-wise [==]: a missing value equals nothing. *)
Definition eqb_elem (a b : Value) : bool :=
  negb (is_null a) && eqb_scalar a b.

(** [a <= b] for two numbers or two texts. *)
Definition leb_scalar (a b : Value) : bool :=
  match a, b with
  | VStr s, VStr t => String.leb s t
  | _, _ =>
      match num_of a, num_of b with
      | Some x, Some y =>
          match Py.dcompare x y with Gt => false | _ => true end
      | _, _ => true
      end
  end.

Fixpoint insert_sorted {A} (le : A -> A -> bool) (x : A) (l : list A)
  : list A :=
  match l with
  | [] => [x]
  | y :: l' => if le x y then x :: l else y :: insert_sorted le x l'
  end.

(** A stable sort. *)
Definition sort_by {A} (le : A -> A -> bool) (l : list A) : list A :=
  fold_right (insert_sorted le) [] l.

(** Values that Python can order among themselves. *)
Definition comparable (l : list Value) : bool :=
  forallb is_num l || forallb is_str l.

(** [sorted(l)]: text and numbers do not compare. *)
Definition sorted (l : list Value) : result (list Value) :=
  match l with
  | [] | [_] => Ok l
  | _ =>
      if comparable l then Ok (sort_by leb_scalar l)
      else Err (TypeError "'<' not supported between instances")
  end.

(** [int(v)]. *)
Definition int_of (v : Value) : result Z :=
  match v with
  | VInt n => Ok n
  | VFloat d => Ok (Py.trunc d)
  | VStr s =>
      match Py.int_of_string s with
      | Some n => Ok n
      | None => Err (ValueError "invalid literal for int() with base 10")
      end
  | VNull => Err (ValueError "cannot convert float NaN to integer")
  end.

(** First occurrence of each key, in order ([unique], [drop_duplicates]). *)
Fixpoint dedup_from {A} (eqb : A -> A -> bool) (seen l : list A) : list A :=
  match l with
  | [] => []
  | x :: l' =>
      if existsb (eqb x) seen then dedup_from eqb seen l'
      else x :: dedup_from eqb (x :: seen) l'
  end.

Definition dedup {A} (eqb : A -> A -> bool) (l : list A) : list A :=
  dedup_from eqb [] l.

(** ** The pandas fragment *)
Module Frame.

(** Column labels are scalars: the columns of a pivot are labelled by
    the values of the pivoted column. *)
Definition Label := Value.

(** A frame: its labels, and its rows, each aligned with the labels. *)
Record t := Df { columns : list Label; rows : list (list Value) }.

(** [pd.DataFrame()]. *)
Definition empty_frame : t := Df [] [].

(** [df.empty]. *)
Definition empty (df : t) : bool :=
  match rows df, columns df with
  | [], _ | _, [] => true
  | _, _ => false
  end.

Fixpoint index_of (c : Label) (cols : list Label) : option nat :=
  match cols with
  | [] => None
  | c' :: cols' =>
      if eqb_scalar c c' then Some O else S <$> index_of c cols'
  end.

(** [c in df.columns]. *)
Definition has (c : Label) (df : t) : bool :=
  bool_decide (is_Some (index_of c (columns df))).

Definition cell (i : nat) (r : list Value) : Value := nth i r VNull.

Definition label_text (c : Label) : string :=
  match c with
  | VStr s => s
  | VInt n => Py.str_of_int n
  | _ => EmptyString
  end.

(** [pd.DataFrame(rows)] for a list of dicts: the labels are the keys in
    order of first appearance, a key missing from a row gives a missing
    value. *)
Definition union_keys (rs : list Row) : list string :=
  dedup String.eqb (concat (map dict_keys rs)).

Definition of_records (rs : list Row) : t :=
  let keys := union_keys rs in
  Df (map VStr keys)
     (map (fun r => map (fun k => default VNull (dict_get k r)) keys) rs).

(** [df[c]]: the cells of a column. *)
Definition col (c : Label) (df : t) : result (list Value) :=
  match index_of c (columns df) with
  | Some i => Ok (map (cell i) (rows df))
  | None => Err (KeyError (label_text c))
  end.

(** [df[[c1, ..., cn]]]. *)
Definition select (cs : list Label) (df : t) : result t :=
  let* idx := rmap (fun c =>
                match index_of c (columns df) with
                | Some i => Ok i
                | None => Err (KeyError (label_text c))
                end) cs in
  Ok (Df cs (map (fun r => map (fun i => cell i r) idx) (rows df))).

(** [df[c] = values]: in place for an existing label, else a new last
    column. *)
Definition set_col (c : Label) (vals : list Value) (df : t) : t :=
  match index_of c (columns df) with
  | Some i =>
      Df (columns df)
         (map (fun rv => <[i := snd rv]> (fst rv))
              (combine (rows df) vals))
  | None =>
      Df (columns df ++ [c])
         (map (fun rv => fst rv ++ [snd rv]) (combine (rows df) vals))
  end.

(** [df.rename(columns={old: new})]. *)
Definition rename (old new : Label) (df : t) : t :=
  Df (map (fun c => if eqb_scalar c old then new else c) (columns df))
     (rows df).

(** Sum of a group of scores: missing values are skipped, an empty sum is
    0, text cannot be summed with numbers. *)
Fixpoint sum_values (acc : Value) (l : list Value) : result Value :=
  match l with
  | [] => Ok acc
  | v :: l' =>
      match v, acc with
      | VNull, _ => sum_values acc l'
      | VInt n, VInt a => sum_values (VInt (a + n)) l'
      | VInt n, VFloat a => sum_values (VFloat (Py.dadd a (Py.dec_of_int n))) l'
      | VFloat d, VInt a => sum_values (VFloat (Py.dadd (Py.dec_of_int a) d)) l'
      | VFloat d, VFloat a => sum_values (VFloat (Py.dadd a d)) l'
      | _, _ => Err (TypeError "unsupported operand type(s) for +")
      end
  end.

(** Order in which pandas lists group keys: numbers, then text. *)
Definition group_sort (l : list Value) : list Value :=
  sort_by leb_scalar (List.filter is_num l)
  ++ sort_by leb_scalar (List.filter is_str l).

(** The scores of the rows of one (index, column) group. *)
Definition group (i c : Value) (triples : list (Value * Value * Value))
  : list Value :=
  map snd
    (List.filter (fun t => eqb_scalar (fst (fst t)) i
                           && eqb_scalar (snd (fst t)) c) triples).

(** One cell of the pivot: the sum of its group, [fill_value] for a pair
    that never occurs. *)
Definition pivot_cell (fill_value i c : Value)
    (triples : list (Value * Value * Value)) : result Value :=
  match group i c triples with
  | [] => Ok fill_value
  | g => sum_values (VInt 0) g
  end.

(** The (index, column, value) triples that take part in a pivot: rows
    whose index or column key is missing are left out. *)
Definition triples_of (idx cls vls : list Value)
  : list (Value * Value * Value) :=
  List.filter (fun t => negb (is_null (fst (fst t)))
                        && negb (is_null (snd (fst t))))
              (combine (combine idx cls) vls).

(** The distinct index keys and the distinct column keys of a pivot, in
    the order of its rows and columns. *)
Definition pivot_rows (triples : list (Value * Value * Value))
  : list Value :=
  group_sort (dedup eqb_scalar (map (fun t => fst (fst t)) triples)).

Definition pivot_cols (triples : list (Value * Value * Value))
  : list Value :=
  group_sort (dedup eqb_scalar (map (fun t => snd (fst t)) triples)).

(** [df.pivot_table(index=, columns=, values=, aggfunc='sum',
    fill_value=).reset_index()]. *)
Definition pivot_table_sum (index columns_ values : string)
    (fill_value : Value) (df : t) : result t :=
  let* idx := col (VStr index) df in
  let* cls := col (VStr columns_) df in
  let* vls := col (VStr values) df in
  let triples := triples_of idx cls vls in
  if existsb (eqb_scalar (VStr index)) (pivot_cols triples) then
    Err (ValueError ("cannot insert " +:+ index +:+ ", already exists"))
  else
    let* body :=
      rmap (fun i =>
              let* cells := rmap (fun c => pivot_cell fill_value i c triples)
                                 (pivot_cols triples) in
              Ok (i :: cells)) (pivot_rows triples) in
    Ok (Df (VStr index :: pivot_cols triples) body).

Definition add_suffix (sfx : string) (c : Label) : Label :=
  match c with
  | VStr s => VStr (s +:+ sfx)
  | _ => c
  end.

Fixpoint remove_nth {A} (i : nat) (l : list A) : list A :=
  match i, l with
  | _, [] => []
  | O, _ :: l' => l'
  | S i', x :: l' => x :: remove_nth i' l'
  end.

(** [left.merge(right, on=key, how='left')]: every left row, in order,
    paired with each right row of the same key, or with missing values
    when there is none; a label carried by both sides (the key apart)
    gets the suffixes [_x] and [_y]. *)
Definition merge_left (left right : t) (key : string) : result t :=
  match index_of (VStr key) (columns left),
        index_of (VStr key) (columns right) with
  | Some i, Some j =>
      let rcols := remove_nth j (columns right) in
      let shared c :=
        existsb (eqb_scalar c) (columns left)
        && existsb (eqb_scalar c) rcols in
      let lcols' :=
        map (fun c => if shared c then add_suffix "_x" c else c)
            (columns left) in
      let rcols' :=
        map (fun c => if shared c then add_suffix "_y" c else c) rcols in
      let body :=
        flat_map
          (fun lr =>
             match List.filter
                     (fun rr => eqb_scalar (cell i lr) (cell j rr))
                     (rows right) with
             | [] => [lr ++ replicate (length rcols) VNull]
             | ms => map (fun rr => lr ++ remove_nth j rr) ms
             end) (rows left) in
      Ok (Df (lcols' ++ rcols') body)
  | _, _ => Err (KeyError key)
  end.

(** [df[c] = f(df[c])] on every column labelled [c]. *)
Definition map_col (f : Value -> result Value) (c : Label) (df : t)
  : result t :=
  let* body :=
    rmap (fun r =>
            rmap (fun lv => if eqb_scalar (fst lv) c then f (snd lv)
                            else Ok (snd lv))
                 (combine (columns df) r)) (rows df) in
  Ok (Df (columns df) body).

(** [x.fillna(0).astype(int)] on one cell. *)
Definition fillna0_astype_int (v : Value) : result Value :=
  match v with
  | VNull => Ok (VInt 0)
  | _ => let* n := int_of v in Ok (VInt n)
  end.

(** [x.astype(int)] on one cell. *)
Definition astype_int (v : Value) : result Value :=
  let* n := int_of v in Ok (VInt n).

(** [df[mask]] for a mask computed row by row. *)
Definition filter_rows (p : list Value -> bool) (df : t) : t :=
  Df (columns df) (List.filter p (rows df)).

(** [df.drop_duplicates()]. *)
Definition row_eqb (r1 r2 : list Value) : bool :=
  bool_decide (length r1 = length r2)
  && forallb (fun ab => eqb_scalar (fst ab) (snd ab)) (combine r1 r2).

Definition drop_duplicates (df : t) : t :=
  Df (columns df) (dedup row_eqb (rows df)).

(** [df.sort_values(c)]: ascending, rows whose key is missing last; the
    keys must be comparable.  (The order among equal keys is the input
    order here; pandas leaves it unspecified.) *)
Definition sort_values (c : Label) (df : t) : result t :=
  match index_of c (columns df) with
  | None => Err (KeyError (label_text c))
  | Some i =>
      let present := List.filter (fun r => negb (is_null (cell i r))) (rows df) in
      let missing := List.filter (fun r => is_null (cell i r)) (rows df) in
      if comparable (map (cell i) present)
         || bool_decide (length present <= 1)%nat then
        Ok (Df (columns df)
               (sort_by (fun r1 r2 => leb_scalar (cell i r1) (cell i r2))
                        present ++ missing))
      else Err (TypeError "'<' not supported between instances")
  end.

End Frame.

(** ** The table loader *)

(** The dump is passed as its text: [load_tables_from_sql] reads the file
    at [sql_path] and does nothing else with the path. *)
Definition load_table (sql_text table : string) : result Frame.t :=
  let* rows := _parse_insert_blocks sql_text table in
  match rows with
  | [] => Ok Frame.empty_frame
  | _ => Ok (Frame.of_records rows)
  end.

Definition load_tables_from_sql (sql_text : string) (tables : list string)
  : result (dict Frame.t) :=
  fold_left
    (fun acc table =>
       let* result := acc in
       let* df := load_table sql_text table in
       Ok (dict_set table df result))
    tables (Ok []).

(** [tables.get(name, pd.DataFrame())]. *)
Definition tables_get (name : string) (tables : dict Frame.t) : Frame.t :=
  default Frame.empty_frame (dict_get name tables).

(** ** The hierarchy resolver *)

(** [{int(k): v for k, v in items}]. *)
Definition int_keyed (items : list (Value * Value)) : result (gmap Z Value) :=
  fold_left
    (fun acc kv =>
       let* m := acc in
       let* k := int_of (fst kv) in
       Ok (<[k := snd kv]> m))
    items (Ok ∅).

(** The last label that contains [word], ignoring case. *)
Definition find_col (word : string) (cols : list Frame.Label)
  : option Frame.Label :=
  fold_left
    (fun found c =>
       if Py.contains word (Py.lower (Frame.label_text c)) then Some c
       else found)
    cols None.

(** The pairs (cell of [id_col], cell of [name_col]) of the rows of a
    frame, as [iterrows] yields them. *)
Definition id_name_items (id_col name_col : Frame.Label) (df : Frame.t)
  : result (list (Value * Value)) :=
  let* ids := Frame.col id_col df in
  let* names := Frame.col name_col df in
  Ok (combine ids names).

(** Lines 89-116: the [state] table of the dump, else the ids of the [lga]
    table with the override for id 25. *)
Definition state_mapping_from_sql (sql_text : string)
  : result (gmap Z Value) :=
  (* Try to parse a state table from SQL *)
  let* tables := load_tables_from_sql sql_text ["state"] in
  let state_table := tables_get "state" tables in
  let found :=
    if Frame.empty state_table then None
    else
      match find_col "id" (Frame.columns state_table),
            find_col "name" (Frame.columns state_table) with
      | Some id_col, Some name_col => Some (id_col, name_col)
      | _, _ => None
      end in
  match found with
  | Some (id_col, name_col) =>
      let* items := id_name_items id_col name_col state_table in
      int_keyed items
  | None =>
      (* Fallback: derive unique ids from lga table *)
      let* tables := load_tables_from_sql sql_text ["lga"] in
      let lga := tables_get "lga" tables in
      let* mapping :=
        if negb (Frame.empty lga) && Frame.has (VStr "state_id") lga then
          let* sids := Frame.col (VStr "state_id") lga in
          let* sids :=
            sorted (dedup eqb_scalar
                      (List.filter (fun v => negb (is_null v)) sids)) in
          fold_left
            (fun acc sid =>
               let* m := acc in
               let* n := int_of sid in
               Ok (<[n := VStr ("State " +:+ Py.str_of_int n)]> m))
            sids (Ok ∅)
        else Ok ∅ in
      (* Overrides for known state name fixes *)
      Ok (<[25 := VStr "Delta State"]> mapping)
  end.

(** [mapping_csv] stands for the frame that [pd.read_csv] returns for the
    side file, when a path is given; [mapping_dict] for the items of the
    dict, when one is given. *)
Definition _load_state_mapping (sql_text : string)
    (mapping_csv : option Frame.t)
    (mapping_dict : option (list (Value * Value)))
  : result (gmap Z Value) :=
  match mapping_dict with
  | Some ((_ :: _) as items) => int_keyed items
  | _ =>
      match mapping_csv with
      | Some df =>
          if Frame.has (VStr "state_id") df
             && Frame.has (VStr "state_name") df
          then
            let* items :=
              id_name_items (VStr "state_id") (VStr "state_name") df in
            int_keyed items
          else state_mapping_from_sql sql_text
      | None => state_mapping_from_sql sql_text
      end
  end.

(** ** The result assembler *)

Definition known : list string :=
  ["polling_unit_uniqueid"; "polling_unit_name"; "polling_unit_number";
   "ward_id"; "lga_id"; "ward_name"; "lga_name"; "state_id"; "state_name"].

Definition is_known (c : Frame.Label) : bool :=
  existsb (fun k => eqb_scalar c (VStr k)) known.

Definition pu_missing : string :=
  "polling_unit table not found or empty in SQL file".
Definition announced_missing : string :=
  "announced_pu_results table not found or empty in SQL file".

(** [series.map(state_mapping)]: a key that the dict lacks gives a missing
    value. *)
Definition map_state (state_mapping : gmap Z Value) (v : Value) : Value :=
  match v with
  | VInt n => default VNull (state_mapping !! n)
  | VFloat d =>
      if bool_decide (Py.dcompare d (Py.dec_of_int (Py.trunc d)) = Eq)
      then default VNull (state_mapping !! Py.trunc d)
      else VNull
  | _ => VNull
  end.

(** [lambda v: int(v) if v is not None else None]. *)
Definition int_or_none (v : Value) : result Value :=
  match v with
  | VNull => Ok VNull
  | _ => let* n := int_of v in Ok (VInt n)
  end.

(** [for c in cs: df[c] = df[c].fillna(0).astype(int)]. *)
Definition coerce_party_columns (cs : list Frame.Label) (df : Frame.t)
  : result Frame.t :=
  fold_left
    (fun acc c =>
       let* df := acc in Frame.map_col Frame.fillna0_astype_int c df)
    cs (Ok df).

(** The assembler after the four tables are loaded.  [state_mapping_of]
    stands for the call [_load_state_mapping(sql_path)], made only when no
    mapping is passed. *)
Definition assemble (pu ward lga announced : Frame.t)
    (state_mapping : option (gmap Z Value))
    (state_mapping_of : result (gmap Z Value)) : result Frame.t :=
  if Frame.empty pu then Err (ValueError pu_missing)
  else if Frame.empty announced then Err (ValueError announced_missing)
  else
    let* ids := Frame.col (VStr "polling_unit_uniqueid") announced in
    let* ids := rmap int_or_none ids in
    let announced := Frame.set_col (VStr "polling_unit_uniqueid") ids announced in
    let* party_pivot :=
      Frame.pivot_table_sum "polling_unit_uniqueid" "party_abbreviation"
                            "party_score" (VInt 0) announced in
    let pu := Frame.rename (VStr "uniqueid") (VStr "polling_unit_uniqueid") pu in
    let* merged := Frame.merge_left pu party_pivot "polling_unit_uniqueid" in
    (* merge ward and lga *)
    let* merged :=
      if negb (Frame.empty ward) && Frame.has (VStr "ward_id") ward
         && Frame.has (VStr "ward_name") ward then
        let* w := Frame.select [VStr "ward_id"; VStr "ward_name"] ward in
        Frame.merge_left merged w "ward_id"
      else Ok merged in
    let* merged :=
      if negb (Frame.empty lga) && Frame.has (VStr "lga_id") lga
         && Frame.has (VStr "lga_name") lga then
        let* l := Frame.select [VStr "lga_id"; VStr "lga_name"; VStr "state_id"] lga in
        Frame.merge_left merged l "lga_id"
      else Ok merged in
    (* State mapping *)
    let* state_mapping :=
      match state_mapping with
      | Some m => Ok m
      | None => state_mapping_of
      end in
    let* state_name :=
      if Frame.has (VStr "state_id") merged then
        let* sids := Frame.col (VStr "state_id") merged in
        Ok (map (map_state state_mapping) sids)
      else Ok (replicate (length (Frame.rows merged)) VNull) in
    let merged := Frame.set_col (VStr "state_name") state_name merged in
    (* Reorder columns and ensure party columns are ints *)
    let party_columns :=
      List.filter
        (fun c => negb (eqb_scalar c (VStr "polling_unit_uniqueid")))
        (Frame.columns party_pivot) in
    let party_columns :=
      List.filter (fun c => Frame.has c merged) party_columns in
    let* sorted_party := sorted party_columns in
    let final_cols :=
      List.filter (fun c => Frame.has c merged) (map VStr known)
      ++ sorted_party in
    let* final_df := Frame.select final_cols merged in
    coerce_party_columns party_columns final_df.

Definition build_polling_unit_results_df (sql_text : string)
    (state_mapping : option (gmap Z Value)) : result Frame.t :=
  let* tables :=
    load_tables_from_sql sql_text
      ["polling_unit"; "ward"; "lga"; "announced_pu_results"] in
  assemble (tables_get "polling_unit" tables) (tables_get "ward" tables)
           (tables_get "lga" tables) (tables_get "announced_pu_results" tables)
           state_mapping (_load_state_mapping sql_text None None).

(** ** The mutation path *)




Definition newline : string := String "010" EmptyString.



(** [col in pu_row] and [pu_row[col]] for a label: the keys are text. *)
Definition row_lookup (c : Frame.Label) (pu_row : gmap string Value)
  : option Value :=
  match c with
  | VStr s => pu_row !! s
  | _ => None
  end.

Definition new_cell (pu_row : gmap string Value) (c : Frame.Label) : Value :=
  match row_lookup c pu_row with
  | Some v => v
  | None => if is_known c then VNull else VInt 0   (* party column *)
  end.

Definition add_polling_unit_to_df (df : Frame.t) (pu_row : gmap string Value)
  : result Frame.t :=
  let new := map (new_cell pu_row) (Frame.columns df) in
  let new_df := Frame.Df (Frame.columns df) (Frame.rows df ++ [new]) in
  (* Ensure party columns are ints *)
  let party_cols :=
    List.filter (fun c => negb (is_known c)) (Frame.columns new_df) in
  coerce_party_columns party_cols new_df.

(** ** The query layer *)

(** [[(int(r[0]), r[1]) for r in df.values.tolist()]] on a frame of two
    columns. *)
Definition id_name_pairs (df : Frame.t) : result (list (Z * Value)) :=
  rmap (fun r => let* n := int_of (Frame.cell 0 r) in Ok (n, Frame.cell 1 r))
       (Frame.rows df).

(** [df.dropna(subset=[c])]. *)
Definition dropna (c : Frame.Label) (df : Frame.t) : result Frame.t :=
  match Frame.index_of c (Frame.columns df) with
  | Some i =>
      Ok (Frame.filter_rows (fun r => negb (is_null (Frame.cell i r))) df)
  | None => Err (KeyError (Frame.label_text c))
  end.

(** [names.fillna(ids.astype(str))] on one row of (id, name), the id
    already an integer. *)
Definition fill_name (r : list Value) : list Value :=
  match r with
  | [VInt n; VNull] => [VInt n; VStr (Py.str_of_int n)]
  | _ => r
  end.

Definition get_states (df : Frame.t) : result (list (Z * Value)) :=
  if negb (Frame.has (VStr "state_id") df)
     && negb (Frame.has (VStr "state_name") df) then Ok []
  else
    let* df_states := Frame.select [VStr "state_id"; VStr "state_name"] df in
    let df_states := Frame.drop_duplicates df_states in
    let* df_states := dropna (VStr "state_id") df_states in
    let* df_states := Frame.map_col Frame.astype_int (VStr "state_id") df_states in
    let df_states :=
      Frame.Df (Frame.columns df_states) (map fill_name (Frame.rows df_states)) in
    let* rows := Frame.sort_values (VStr "state_name") df_states in
    id_name_pairs rows.

(** The common body of the two child listings: optional scoping by the
    parent column, then the (id, name) pairs. *)
Definition list_children (parent_col id_col name_col : string)
    (parent_id : option Z) (df : Frame.t) : result (list (Z * Value)) :=
  let* scoped :=
    match parent_id with
    | None => Ok df
    | Some p =>
        let* parents := Frame.col (VStr parent_col) df in
        Ok (Frame.Df (Frame.columns df)
              (map fst
                 (List.filter (fun rp => eqb_elem (snd rp) (VInt p))
                              (combine (Frame.rows df) parents))))
    end in
  let* sub := Frame.select [VStr id_col; VStr name_col] scoped in
  let sub := Frame.drop_duplicates sub in
  let* sub := dropna (VStr id_col) sub in
  let* sub := Frame.map_col Frame.astype_int (VStr id_col) sub in
  let* rows := Frame.sort_values (VStr name_col) sub in
  id_name_pairs rows.

Definition get_lgas_by_state (df : Frame.t) (state_id : option Z)
  : result (list (Z * Value)) :=
  list_children "state_id" "lga_id" "lga_name" state_id df.

Definition get_wards_by_lga (df : Frame.t) (lga_id : option Z)
  : result (list (Z * Value)) :=
  list_children "lga_id" "ward_id" "ward_name" lga_id df.

(** [out[out[c] == n]]: the rows whose cell under [c] equals [n] (a
    missing cell equals nothing). *)
Definition rows_equal (c : string) (n : Z) (out : Frame.t) : result Frame.t :=
  let* keys := Frame.col (VStr c) out in
  Ok (Frame.Df (Frame.columns out)
        (map fst
           (List.filter (fun rk => eqb_elem (snd rk) (VInt n))
                        (combine (Frame.rows out) keys)))).

(** One of the four steps of [filter_results]:
    [if v is not None and c in out.columns: out = out[out[c] == int(v)]]. *)
Definition narrow (c : string) (v : option Z) (out : Frame.t)
  : result Frame.t :=
  match v with
  | Some n => if Frame.has (VStr c) out then rows_equal c n out else Ok out
  | None => Ok out
  end.

Definition filter_results (df : Frame.t)
    (state_id lga_id ward_id polling_unit_id : option Z) : result Frame.t :=
  let out := df in
  let* out := narrow "state_id" state_id out in
  let* out := narrow "lga_id" lga_id out in
  let* out := narrow "ward_id" ward_id out in
  narrow "polling_unit_uniqueid" polling_unit_id out.

(** ** The token classes of the value-coercion contract, in the words of
       the specification *)

(** The token equals [NULL] up to case, or is empty. *)
Definition null_token (t : string) : Prop :=
  Py.upper t = "NULL" \/ t = "".

(** An optional minus sign followed by one or more digits. *)
Definition int_token (t : string) : Prop :=
  exists ds, ds <> "" /\ Py.all_digits ds = true /\
             (t = ds \/ t = String "-" ds).

(** An optional minus sign, digits, a dot, digits. *)
Definition float_token (t : string) : Prop :=
  exists ip fp, ip <> "" /\ fp <> "" /\
                Py.all_digits ip = true /\ Py.all_digits fp = true /\
                (t = ip +:+ String "." fp \/ t = String "-" (ip +:+ String "." fp)).

(** ** Vocabulary of the round-trip property *)

Fixpoint forall_chars (p : ascii -> bool) (s : string) : bool :=
  match s with
  | EmptyString => true
  | String c r => p c && forall_chars p r
  end.




(** ** Vocabulary of the properties *)



Definition not_quote (c : ascii) : bool := negb (Ascii.eqb c Csv.quotechar).

Definition fresh (s : Csv.state) : Prop :=
  s = Csv.START_RECORD \/ s = Csv.START_FIELD.





Definition is_int (v : Value) : bool :=
  match v with VInt _ => true | _ => false end.

(** The cell [v] under the label [c] is an integer when [c] is (equal to)
    one of the labels [cs]. *)
Definition int_under (cs : list Frame.Label) (c : Frame.Label) (v : Value)
  : Prop :=
  existsb (eqb_scalar c) cs = true -> is_int v = true.

(** Every row is aligned with the labels and holds integers under the
    labels [cs]. *)
Definition ints_under (cs : list Frame.Label) (df : Frame.t) : Prop :=
  Forall (Forall2 (int_under cs) (Frame.columns df)) (Frame.rows df).

(** Every row has one cell per label. *)
Definition aligned (df : Frame.t) : Prop :=
  Forall (fun r => length r = length (Frame.columns df)) (Frame.rows df).

(** The invariant of the Assembled Table that the code maintains: every row
    is aligned with the labels, and every cell of a party column (a column
    that is not one of the nine fixed ones) is an integer, hence not
    null. *)
Definition party_cells_int (df : Frame.t) : Prop :=
  Forall (Forall2 (fun c v => is_known c = false -> is_int v = true)
                  (Frame.columns df)) (Frame.rows df).




(** [s.endswith(sfx)]. *)
Fixpoint ends_with (sfx s : string) : bool :=
  String.eqb s sfx ||
  match s with
  | String _ r => ends_with sfx r
  | EmptyString => false
  end.






(** The scenario of the specification: polling unit 7 with two APC rows. *)
Definition scenario_dump : string :=
"INSERT INTO `polling_unit` (`uniqueid`, `polling_unit_number`, `polling_unit_name`) VALUES (7, 'DT1701001', 'Sapele Ward 8 PU'), (8, 'DT1901001', 'Aghara primary school');
INSERT INTO `announced_pu_results` (`result_id`, `polling_unit_uniqueid`, `party_abbreviation`, `party_score`) VALUES (1, '7', 'APC', 120), (2, '7', 'PDP', 802), (3, '7', 'APC', 30);
".

(** A dump in which one polling unit points to an LGA that the [lga] table
    lacks, one to a ward that the [ward] table lacks, and one ward has no
    name. *)
Definition unmatched_dump : string :=
"INSERT INTO `polling_unit` (`uniqueid`, `ward_id`, `lga_id`, `polling_unit_name`) VALUES (7, 1, 17, 'Sapele Ward 8 PU'), (8, 2, 99, 'Aghara primary school'), (9, 3, 19, 'Ishere primary school');
INSERT INTO `lga` (`lga_id`, `lga_name`, `state_id`) VALUES (17, 'Ethiope East', 25), (19, 'Ika South', 10);
INSERT INTO `ward` (`ward_id`, `ward_name`) VALUES (1, 'Aghara'), (3, NULL);
INSERT INTO `announced_pu_results` (`polling_unit_uniqueid`, `party_abbreviation`, `party_score`) VALUES (7, 'APC', 5);
".


(** A dump with a [state] table. *)
Definition state_dump : string :=
  "INSERT INTO `state` (`state_id`, `state_name`) VALUES (25, 'Delta');".



(** The cell of a row under a label. *)
Definition cell_under (df : Frame.t) (r : list Value) (c : Frame.Label)
  : option Value :=
  (fun i => Frame.cell i r) <$> Frame.index_of c (Frame.columns df).


(** A party abbreviation that names no other column: it is not a column of
    the polling_unit table nor one of the fixed columns, and does not end
    with a suffix that a join hands out. *)
Definition free_label (s : string) (pu : Frame.t) : Prop :=
  ends_with "_x" s = false /\ ends_with "_y" s = false /\
  ~ In s known /\ ~ In (VStr s) (Frame.columns pu).

(** [x.fillna(0)] on an integer or missing cell. *)
Definition filled (x : Value) : Value :=
  match x with VNull => VInt 0 | _ => x end.


(** What the coercion loop over the labels [cs] makes of a row: a cell
    that is an integer or missing is filled when its label is among [cs],
    and every cell whose label is not among them is kept. *)
Definition coerced_row (cols cs : list Frame.Label) (r r' : list Value)
  : Prop :=
  length r' = length r /\
  forall k c, cols !! k = Some c ->
    (existsb (eqb_scalar c) cs = false ->
     Frame.cell k r' = Frame.cell k r) /\
    (existsb (eqb_scalar c) cs = true ->
     is_int (Frame.cell k r) = true \/ Frame.cell k r = VNull ->
     Frame.cell k r' = filled (Frame.cell k r)).

(** The row [r] of [df] passes the filter on the column [c]: no value is
    asked for, or [df] has no such column, or the cell equals the value. *)
Definition passes (c : string) (v : option Z) (df : Frame.t)
    (r : list Value) : bool :=
  match v, Frame.index_of (VStr c) (Frame.columns df) with
  | Some n, Some i => eqb_elem (Frame.cell i r) (VInt n)
  | _, _ => true
  end.

(** The row passes the four filters. *)
Definition passes_all (s l w p : option Z) (df : Frame.t) (r : list Value)
  : bool :=
  passes "state_id" s df r && passes "lga_id" l df r
  && passes "ward_id" w df r && passes "polling_unit_uniqueid" p df r.

(** The name that [get_states] shows for the state [n] whose name cell is
    [x]: the identifier as text when the name is missing. *)
Definition shown_name (n : Z) (x : Value) : Value :=
  match x with
  | VNull => VStr (Py.str_of_int n)
  | _ => x
  end.

(** [a] comes before [b] or ties with it: two texts in the order of their
    characters, or two numbers in their order. *)
Definition name_le (a b : Value) : Prop :=
  match a, b with
  | VStr s, VStr t => String.leb s t = true
  | _, _ =>
      exists x y, num_of a = Some x /\ num_of b = Some y
                  /\ Py.dcompare x y <> Gt
  end.

(** The pairs of a listing are in the order of their names. *)
Definition by_name (l : list (Z * Value)) : Prop :=
  StronglySorted (fun p q => name_le (snd p) (snd q)) l.

(** [pu_row] gives the party columns of [df] integers only (or nothing). *)
Definition party_values_int (df : Frame.t) (pu_row : gmap string Value)
  : Prop :=
  forall c v, In c (Frame.columns df) -> is_known c = false ->
    row_lookup c pu_row = Some v -> is_int v = true.

(** A column of integers, some possibly missing. *)
Definition ints_or_missing (l : list Value) : Prop :=
  Forall (fun v => is_int v = true \/ v = VNull) l.

(** The name that the fallback gives to the state [n]. *)
Definition fallback_name (n : Z) : Value :=
  VStr ("State " +:+ Py.str_of_int n).

(** The label [c] contains [word], ignoring case. *)
Definition mentions (word : string) (c : Frame.Label) : bool :=
  Py.contains word (Py.lower (Frame.label_text c)).

(** The only failure of the reader. *)
Definition newline_error : error :=
  CsvError "new-line character seen in unquoted field".

(** A character that is no line break. *)
Definition not_newline (c : ascii) : bool := negb (Csv.is_newline c).

(** A character that is neither a quote nor a line break. *)
Definition bare_char (c : ascii) : bool :=
  not_quote c && not_newline c.






(** The Assembled Table of [unmatched_dump] under the mapping
    [{25: "Delta State"}]. *)
Definition unmatched_table : Frame.t :=
  Frame.Df
    [VStr "polling_unit_uniqueid"; VStr "polling_unit_name"; VStr "ward_id";
     VStr "lga_id"; VStr "ward_name"; VStr "lga_name"; VStr "state_id";
     VStr "state_name"; VStr "APC"]
    [[VInt 7; VStr "Sapele Ward 8 PU"; VInt 1; VInt 17; VStr "Aghara";
      VStr "Ethiope East"; VInt 25; VStr "Delta State"; VInt 5];
     [VInt 8; VStr "Aghara primary school"; VInt 2; VInt 99; VNull; VNull;
      VNull; VNull; VInt 0];
     [VInt 9; VStr "Ishere primary school"; VInt 3; VInt 19; VNull;
      VStr "Ika South"; VInt 10; VNull; VInt 0]].

(** The four tables that the loader extracts from [unmatched_dump]. *)
Definition unmatched_tables : dict Frame.t :=
  [("polling_unit",
    Frame.Df [VStr "uniqueid"; VStr "ward_id"; VStr "lga_id";
              VStr "polling_unit_name"]
             [[VInt 7; VInt 1; VInt 17; VStr "Sapele Ward 8 PU"];
              [VInt 8; VInt 2; VInt 99; VStr "Aghara primary school"];
              [VInt 9; VInt 3; VInt 19; VStr "Ishere primary school"]]);
   ("ward",
    Frame.Df [VStr "ward_id"; VStr "ward_name"]
             [[VInt 1; VStr "Aghara"]; [VInt 3; VNull]]);
   ("lga",
    Frame.Df [VStr "lga_id"; VStr "lga_name"; VStr "state_id"]
             [[VInt 17; VStr "Ethiope East"; VInt 25];
              [VInt 19; VStr "Ika South"; VInt 10]]);
   ("announced_pu_results",
    Frame.Df [VStr "polling_unit_uniqueid"; VStr "party_abbreviation";
              VStr "party_score"]
             [[VInt 7; VStr "APC"; VInt 5]])].

(** A listing holds exactly the identifiers of the rows of [df] in its
    scope whose identifier is not missing: every pair comes from such a
    row, with the name of that row, and every such row has a pair (whose
    name is that of a row with the same identifier and an equal name). *)
Definition lists_scope (parent idc namec : string) (p : option Z)
    (df : Frame.t) (l : list (Z * Value)) : Prop :=
  exists i j,
    Frame.index_of (VStr idc) (Frame.columns df) = Some i /\
    Frame.index_of (VStr namec) (Frame.columns df) = Some j /\
    (forall n v, In (n, v) l ->
       exists r, In r (Frame.rows df) /\ passes parent p df r = true /\
                 Frame.cell i r <> VNull /\ int_of (Frame.cell i r) = Ok n /\
                 Frame.cell j r = v) /\
    (forall r, In r (Frame.rows df) -> passes parent p df r = true ->
       Frame.cell i r <> VNull ->
       exists n v, In (n, v) l /\ int_of (Frame.cell i r) = Ok n
                   /\ eqb_scalar (Frame.cell j r) v = true).

(** The listing of the states of [df]: every pair comes from a row whose
    state identifier is not missing, with the name shown for that row, and
    every such row has a pair. *)
Definition lists_states (df : Frame.t) (l : list (Z * Value)) : Prop :=
  exists i j,
    Frame.index_of (VStr "state_id") (Frame.columns df) = Some i /\
    Frame.index_of (VStr "state_name") (Frame.columns df) = Some j /\
    (forall n v, In (n, v) l ->
       exists r, In r (Frame.rows df) /\
                 Frame.cell i r <> VNull /\ int_of (Frame.cell i r) = Ok n /\
                 v = shown_name n (Frame.cell j r)) /\
    (forall r, In r (Frame.rows df) -> Frame.cell i r <> VNull ->
       exists n v, In (n, v) l /\ int_of (Frame.cell i r) = Ok n
                   /\ eqb_scalar (shown_name n (Frame.cell j r)) v = true).

(** A listing in the order of its names, the pairs without a name last. *)
Definition named_first (l : list (Z * Value)) : Prop :=
  exists named unnamed,
    l = named ++ unnamed /\ by_name named /\
    Forall (fun p => snd p <> VNull) named /\
    Forall (fun p => snd p = VNull) unnamed.

(** A new unit as the application builds it (its fields for the display
    only). *)
Definition new_unit : gmap string Value :=
  {[ "polling_unit_uniqueid" := VInt 10;
     "polling_unit_name" := VStr "New PU 10";
     "ward_id" := VInt 1; "lga_id" := VInt 17;
     "ward_name" := VStr "Aghara"; "lga_name" := VStr "Ethiope East";
     "state_id" := VInt 25; "state_name" := VStr "Delta State" ]}.


(** * Properties *)

Lemma isdigit_minus c : Py.isdigit c = true -> c <> "-"%char.
Proof. intros H ->. discriminate. Qed.

Lemma digits1_spec s : Re.digits1 s = true <-> s <> "" /\ Py.all_digits s = true.
Proof.
  destruct s; simpl; split.
  - discriminate.
  - intros [H _]. congruence.
  - intros H. split; [discriminate | exact H].
  - intros [_ H]. exact H.
Qed.

Lemma drop_minus_digits ds :
  Py.all_digits ds = true -> Re.drop_minus ds = ds.
Proof.
  destruct ds as [|c r]; [reflexivity|]. simpl. intros H.
  apply andb_prop in H as [H _].
  destruct (ascii_dec c "-") as [->|Hn]; [discriminate|].
  unfold Re.drop_minus.
  destruct c as [[] [] [] [] [] [] [] []]; try reflexivity. congruence.
Qed.

Lemma drop_minus_cases s :
  (exists r, s = String "-" r /\ Re.drop_minus s = r) \/
  (Re.drop_minus s = s /\ forall r, s <> String "-" r).
Proof.
  destruct s as [|c r]; [right; split; [reflexivity|discriminate]|].
  destruct (ascii_dec c "-") as [->|Hn].
  - left. exists r. split; reflexivity.
  - right. split; [|congruence].
    destruct c as [[] [] [] [] [] [] [] []]; try reflexivity. congruence.
Qed.

Lemma fullmatch_int_spec t : Re.fullmatch_int t = true <-> int_token t.
Proof.
  unfold Re.fullmatch_int, int_token. split.
  - intros H. apply digits1_spec in H as [Hne Hd].
    destruct (drop_minus_cases t) as [(r & -> & Hr)|[Hr _]]; rewrite Hr in *.
    + exists r. auto.
    + exists t. auto.
  - intros (ds & Hne & Hd & [->| ->]).
    + rewrite drop_minus_digits by assumption. apply digits1_spec. auto.
    + simpl. apply digits1_spec. auto.
Qed.

Lemma sapp_cons c s t : String c s +:+ t = String c (s +:+ t).
Proof. reflexivity. Qed.
Lemma sapp_nil_l t : "" +:+ t = t.
Proof. reflexivity. Qed.
Lemma sapp_nil_r s : s +:+ "" = s.
Proof. induction s as [|c s IH]; [reflexivity|]. rewrite sapp_cons, IH. reflexivity. Qed.
Lemma sapp_assoc (a b c : string) : (a +:+ b) +:+ c = a +:+ (b +:+ c).
Proof. induction a as [|x a IH]; [reflexivity|]. rewrite !sapp_cons, IH. reflexivity. Qed.

Lemma span_digits_app ip rest :
  Py.all_digits ip = true ->
  (forall c r, rest = String c r -> Py.isdigit c = false) ->
  Re.span_digits (ip +:+ rest) = (ip, rest).
Proof.
  intros Hd Hr. induction ip as [|c ip IH].
  - rewrite sapp_nil_l. destruct rest as [|c r]; [reflexivity|].
    simpl. rewrite (Hr c r eq_refl). reflexivity.
  - simpl in Hd. apply andb_prop in Hd as [Hc Hd].
    rewrite sapp_cons. simpl. rewrite Hc, (IH Hd). reflexivity.
Qed.

Lemma span_digits_inv s ip rest :
  Re.span_digits s = (ip, rest) ->
  s = ip +:+ rest /\ Py.all_digits ip = true.
Proof.
  revert ip rest. induction s as [|c s IH]; intros ip rest H; simpl in H.
  - injection H as <- <-. split; reflexivity.
  - destruct (Py.isdigit c) eqn:Hc.
    + destruct (Re.span_digits s) as [d r] eqn:Hs. injection H as <- <-.
      destruct (IH d r eq_refl) as [-> Hd]. split; [reflexivity|].
      simpl. rewrite Hc, Hd. reflexivity.
    + injection H as <- <-. split; reflexivity.
Qed.

Lemma fullmatch_float_spec t : Re.fullmatch_float t = true <-> float_token t.
Proof.
  unfold Re.fullmatch_float, float_token. split.
  - destruct (Re.span_digits (Re.drop_minus t)) as [ip rest] eqn:Hs.
    apply span_digits_inv in Hs as [Ht Hip].
    destruct rest as [|c fp]; [discriminate|].
    destruct (ascii_dec c ".") as [->|Hn].
    2:{ destruct c as [[] [] [] [] [] [] [] []]; try discriminate. congruence. }
    intros H. apply andb_prop in H as [H1 H2].
    apply digits1_spec in H1 as [? _]. apply digits1_spec in H2 as [? ?].
    exists ip, fp. repeat (split; [assumption|]).
    destruct (drop_minus_cases t) as [(r & -> & Hr)|[Hr _]]; rewrite Hr in Ht.
    + right. congruence.
    + left. congruence.
  - intros (ip & fp & Hi & Hf & Hdi & Hdf & Ht).
    assert (Hd : Re.drop_minus t = ip +:+ String "." fp).
    { destruct Ht as [-> | ->]; [|reflexivity].
      destruct ip as [|c ip]; [congruence|].
      rewrite sapp_cons. simpl in Hdi. apply andb_prop in Hdi as [Hc _].
      destruct c as [[] [] [] [] [] [] [] []]; try reflexivity. discriminate. }
    rewrite Hd, span_digits_app; [|assumption|].
    + apply andb_true_intro. split; apply digits1_spec; auto.
    + intros c r [= <- <-]. reflexivity.
Qed.

Lemma upper_digit_head c r s :
  Py.upper (String c r) = s -> Py.isdigit c = true \/ c = "-"%char ->
  s <> "NULL".
Proof.
  intros <- [H| ->]; simpl.
  - destruct c as [[] [] [] [] [] [] [] []]; try discriminate.
  - discriminate.
Qed.

Lemma int_not_null t : int_token t -> ~ null_token t.
Proof.
  intros (ds & Hne & Hd & Ht) [Hu | He].
  - destruct ds as [|c r]; [congruence|]. simpl in Hd.
    apply andb_prop in Hd as [Hc _].
    destruct Ht as [-> | ->].
    + eapply upper_digit_head; eauto.
    + eapply upper_digit_head; eauto.
  - destruct Ht as [-> | ->]; [congruence | discriminate].
Qed.

Lemma float_not_null t : float_token t -> ~ null_token t.
Proof.
  intros (ip & fp & Hi & Hf & Hdi & Hdf & Ht) [Hu | He].
  - destruct ip as [|c r]; [congruence|]. simpl in Hdi.
    apply andb_prop in Hdi as [Hc _].
    destruct Ht as [-> | ->].
    + rewrite sapp_cons in Hu. eapply upper_digit_head; eauto.
    + eapply upper_digit_head; eauto.
  - destruct Ht as [-> | ->]; [|discriminate].
    destruct ip; [congruence | discriminate].
Qed.

Lemma all_digits_app a b :
  Py.all_digits (a +:+ b) = Py.all_digits a && Py.all_digits b.
Proof.
  induction a as [|c a IH]; [reflexivity|].
  rewrite sapp_cons. simpl. rewrite IH, andb_assoc. reflexivity.
Qed.

Lemma float_not_int t : float_token t -> ~ int_token t.
Proof.
  intros Hf Hi. apply fullmatch_int_spec in Hi.
  destruct Hf as (ip & fp & Hi' & Hf & Hdi & Hdf & Ht).
  unfold Re.fullmatch_int in Hi. apply digits1_spec in Hi as [_ Hd].
  assert (Hdm : Re.drop_minus t = ip +:+ String "." fp).
  { destruct Ht as [-> | ->]; [|reflexivity].
    destruct ip as [|c ip]; [congruence|].
    rewrite sapp_cons. simpl in Hdi. apply andb_prop in Hdi as [Hc _].
    destruct c as [[] [] [] [] [] [] [] []]; try reflexivity. discriminate. }
  rewrite Hdm, all_digits_app in Hd. simpl in Hd.
  rewrite andb_false_r in Hd. discriminate.
Qed.

Lemma null_check_spec t :
  String.eqb (Py.upper t) "NULL" || String.eqb t "" = true <-> null_token t.
Proof.
  unfold null_token. rewrite orb_true_iff, !String.eqb_eq. reflexivity.
Qed.

Lemma convert_sql_value_cases (token : string) :
  let t := Py.strip token in
  (null_token t -> _convert_sql_value token = VNull) /\
  (int_token t -> _convert_sql_value token = VInt (int_of_token t)) /\
  (float_token t -> _convert_sql_value token = VFloat (float_of_token t)) /\
  (~ null_token t -> ~ int_token t -> ~ float_token t ->
   _convert_sql_value token = VStr t) /\
  ~ (null_token t /\ int_token t) /\ ~ (null_token t /\ float_token t) /\
  ~ (int_token t /\ float_token t).
Proof.
  intros t. unfold _convert_sql_value. fold t.
  pose proof (null_check_spec t) as Hnull.
  repeat split.
  - intros H. apply Hnull in H. rewrite H. reflexivity.
  - clear Hnull. intros H. pose proof (int_not_null _ H) as Hn.
    destruct (_ || _) eqn:E; [exfalso; apply Hn, null_check_spec, E|].
    apply fullmatch_int_spec in H. rewrite H. reflexivity.
  - clear Hnull. intros H. pose proof (float_not_null _ H) as Hn.
    pose proof (float_not_int _ H) as Hi.
    destruct (_ || _) eqn:E; [exfalso; apply Hn, null_check_spec, E|].
    destruct (Re.fullmatch_int t) eqn:E2;
      [exfalso; apply Hi, fullmatch_int_spec, E2|].
    apply fullmatch_float_spec in H. rewrite H. reflexivity.
  - clear Hnull. intros Hn Hi Hf.
    destruct (_ || _) eqn:E; [exfalso; apply Hn, null_check_spec, E|].
    destruct (Re.fullmatch_int t) eqn:E2;
      [exfalso; apply Hi, fullmatch_int_spec, E2|].
    destruct (Re.fullmatch_float t) eqn:E3;
      [exfalso; apply Hf, fullmatch_float_spec, E3|].
    reflexivity.
  - intros [H1 H2]. exact (int_not_null _ H2 H1).
  - intros [H1 H2]. exact (float_not_null _ H2 H1).
  - intros [H1 H2]. exact (float_not_int _ H2 H1).
Qed.
Lemma dv_acc d : forall acc,
  Py.digits_value (Zpos acc) (NilEmpty.string_of_uint d)
  = Zpos (Pos.of_uint_acc d acc).
Proof.
  induction d; intros acc; simpl; try reflexivity;
    rewrite <- IHd; f_equal; unfold Py.code; simpl; lia.
Qed.

Lemma dv_0 d :
  Py.digits_value 0 (NilEmpty.string_of_uint d) = Z.of_N (Pos.of_uint d).
Proof.
  induction d; simpl; try reflexivity; try exact IHd;
    unfold Py.code; simpl; apply dv_acc.
Qed.

Lemma dv_pos p :
  Py.digits_value 0 (NilEmpty.string_of_uint (Pos.to_uint p)) = Zpos p.
Proof. rewrite dv_0, Unsigned.of_to. reflexivity. Qed.

Lemma string_of_uint_nz d :
  d <> Decimal.Nil -> NilZero.string_of_uint d = NilEmpty.string_of_uint d.
Proof. destruct d; try reflexivity. congruence. Qed.

Lemma all_digits_uint d : Py.all_digits (NilEmpty.string_of_uint d) = true.
Proof. induction d; simpl; auto. Qed.

Lemma uint_nonempty d : d <> Decimal.Nil -> NilEmpty.string_of_uint d <> "".
Proof. destruct d; simpl; congruence. Qed.

(** [str(n)]: an optional minus sign and the digits of [|n|]. *)
Lemma str_of_int_shape n :
  exists ds, ds <> "" /\ Py.all_digits ds = true /\
    Py.digits_value 0 ds = Z.abs n /\
    Py.str_of_int n = (if n <? 0 then String "-" ds else ds).
Proof.
  unfold Py.str_of_int. destruct n as [|p|p]; simpl.
  - exists "0". repeat split; try reflexivity. discriminate.
  - pose proof (Unsigned.to_uint_nonnil p) as Hn.
    exists (NilEmpty.string_of_uint (Pos.to_uint p)).
    rewrite (string_of_uint_nz _ Hn).
    repeat split; auto using uint_nonempty, all_digits_uint, dv_pos.
  - pose proof (Unsigned.to_uint_nonnil p) as Hn.
    exists (NilEmpty.string_of_uint (Pos.to_uint p)).
    rewrite (string_of_uint_nz _ Hn).
    repeat split; auto using uint_nonempty, all_digits_uint, dv_pos.
Qed.

(** *** The reader on the text that the formatter writes *)

Lemma feed_app a : forall b r,
  Csv.feed r (a +:+ b) = (let* r' := Csv.feed r a in Csv.feed r' b).
Proof.
  induction a as [|c a IH]; intros b r; [reflexivity|].
  rewrite sapp_cons. simpl.
  destruct (Csv.parse_process_char r (Some c)) as [r'|e]; simpl; auto.
Qed.


Lemma feed_in_quoted s : forall f fs,
  forall_chars not_quote s = true ->
  Csv.feed (Csv.Reader Csv.IN_QUOTED_FIELD f fs) s
  = Ok (Csv.Reader Csv.IN_QUOTED_FIELD (f +:+ s) fs).
Proof.
  induction s as [|c s IH]; intros f fs H; simpl.
  - rewrite sapp_nil_r. reflexivity.
  - simpl in H. apply andb_prop in H as [Hc H].
    unfold not_quote in Hc. apply negb_true_iff in Hc.
    unfold Csv.parse_process_char. simpl. rewrite Hc. simpl.
    unfold Csv.parse_add_char. simpl. rewrite IH by assumption.
    rewrite sapp_assoc. reflexivity.
Qed.


Lemma feed_quoted S s fs :
  fresh S -> forall_chars not_quote s = true ->
  Csv.feed (Csv.Reader S "" fs) (String "'" (s +:+ "'"))
  = Ok (Csv.Reader Csv.QUOTE_IN_QUOTED_FIELD s fs).
Proof.
  intros HS Hs. simpl.
  assert (E : Csv.parse_process_char (Csv.Reader S "" fs) (Some "'"%char)
             = Ok (Csv.Reader Csv.IN_QUOTED_FIELD "" fs)).
  { destruct HS as [-> | ->]; reflexivity. }
  rewrite E. simpl. rewrite feed_app, feed_in_quoted by assumption.
  reflexivity.
Qed.



Lemma forall_chars_impl (p q : ascii -> bool) s :
  (forall c, p c = true -> q c = true) ->
  forall_chars p s = true -> forall_chars q s = true.
Proof.
  intros Hpq. induction s as [|c s IH]; simpl; [reflexivity|].
  intros H. apply andb_prop in H as [Hc H].
  rewrite (Hpq _ Hc), (IH H). reflexivity.
Qed.

Lemma all_digits_forall s : Py.all_digits s = forall_chars Py.isdigit s.
Proof. induction s as [|c s IH]; simpl; [|rewrite IH]; reflexivity. Qed.










(** *** Value coercion on the fields read back *)

Lemma lstrip_id c s : Py.isspace c = false -> Py.lstrip (String c s) = String c s.
Proof. intros H. simpl. rewrite H. reflexivity. Qed.

Lemma rstrip_id s :
  forall_chars (fun c => negb (Py.isspace c)) s = true -> Py.rstrip s = s.
Proof.
  induction s as [|c s IH]; simpl; [reflexivity|].
  intros H. apply andb_prop in H as [Hc H]. apply negb_true_iff in Hc.
  rewrite (IH H), Hc. destruct s; reflexivity.
Qed.

Lemma strip_id s :
  forall_chars (fun c => negb (Py.isspace c)) s = true -> Py.strip s = s.
Proof.
  intros H. unfold Py.strip. destruct s as [|c s]; [reflexivity|].
  pose proof H as H'. simpl in H'. apply andb_prop in H' as [Hc _].
  apply negb_true_iff in Hc. rewrite (lstrip_id _ _ Hc).
  apply rstrip_id, H.
Qed.

Lemma digit_nospace c : Py.isdigit c = true -> negb (Py.isspace c) = true.
Proof. destruct c as [[] [] [] [] [] [] [] []]; intros H; try discriminate H; reflexivity. Qed.

Lemma convert_str_of_int n : _convert_sql_value (Py.str_of_int n) = VInt n.
Proof.
  destruct (str_of_int_shape n) as (ds & Hne & Hd & Hv & E).
  assert (Hsp : forall_chars (fun c => negb (Py.isspace c)) ds = true).
  { rewrite all_digits_forall in Hd.
    eapply forall_chars_impl; [apply digit_nospace | exact Hd]. }
  assert (Hs : Py.strip (Py.str_of_int n) = Py.str_of_int n).
  { apply strip_id. rewrite E. destruct (n <? 0); [simpl; rewrite Hsp|]; auto. }
  destruct (convert_sql_value_cases (Py.str_of_int n)) as (_ & Hint & _).
  rewrite Hs in Hint. rewrite Hint.
  - f_equal. rewrite E. unfold int_of_token.
    destruct (n <? 0) eqn:Hn.
    + simpl. rewrite Hv. apply Z.ltb_lt in Hn. lia.
    + rewrite (drop_minus_digits _ Hd), Hv.
      destruct ds as [|c ds]; [congruence|]. simpl in Hd.
      apply andb_prop in Hd as [Hc _].
      assert (Hm : Py.startswith "-" (String c ds) = false).
      { destruct c as [[] [] [] [] [] [] [] []]; try reflexivity; discriminate Hc. }
      rewrite Hm. apply Z.ltb_ge in Hn. lia.
  - exists ds. rewrite E. destruct (n <? 0); auto.
Qed.


(** *** The patterns on a written statement *)











Lemma insert_at_newline : Re.insert_at "polling_unit" newline = None.
Proof. reflexivity. Qed.









(** *** Dicts built from key/value pairs *)

Lemma dict_set_keys {V} k (v : V) d c :
  In c (dict_keys (dict_set k v d)) <-> In c (dict_keys d) \/ c = k.
Proof.
  induction d as [|[k' v'] d IH]; simpl.
  - intuition.
  - destruct (String.eqb k k') eqn:E; simpl.
    + apply String.eqb_eq in E. subst. intuition.
    + rewrite IH. intuition.
Qed.

Lemma dict_set_fresh {V} k (v : V) d :
  ~ In k (dict_keys d) -> dict_set k v d = d ++ [(k, v)].
Proof.
  induction d as [|[k' v'] d IH]; simpl; intros H; [reflexivity|].
  destruct (String.eqb k k') eqn:E.
  - apply String.eqb_eq in E. subst. tauto.
  - rewrite IH; [reflexivity | tauto].
Qed.

Lemma dict_fold_keys {V} (l : list (string * V)) : forall d c,
  In c (dict_keys
          (fold_left (fun d kv => dict_set (fst kv) (snd kv) d) l d))
  <-> In c (dict_keys d) \/ In c (map fst l).
Proof.
  induction l as [|[k v] l IH]; intros d c; simpl.
  - intuition.
  - rewrite IH, dict_set_keys. intuition.
Qed.

Lemma dict_fold_nodup {V} (l : list (string * V)) : forall d,
  NoDup (dict_keys d ++ map fst l) ->
  fold_left (fun d kv => dict_set (fst kv) (snd kv) d) l d = d ++ l.
Proof.
  induction l as [|[k v] l IH]; intros d H; simpl.
  - rewrite List.app_nil_r. reflexivity.
  - simpl in H. rewrite dict_set_fresh.
    + rewrite IH.
      * rewrite <- List.app_assoc. reflexivity.
      * unfold dict_keys. rewrite List.map_app. simpl.
        rewrite <- List.app_assoc. exact H.
    + apply NoDup_app in H as (_ & Hd & _). intros Hin.
      apply (Hd k); [apply list_elem_of_In, Hin | left].
Qed.

Lemma dict_of_pairs_nodup {V} (l : list (string * V)) :
  NoDup (map fst l) -> dict_of_pairs l = l.
Proof. intros H. unfold dict_of_pairs. rewrite dict_fold_nodup; auto. Qed.

Lemma dict_get_combine {V} (cols : list string) : forall (vals : list V) i c v,
  NoDup cols -> cols !! i = Some c -> vals !! i = Some v ->
  dict_get c (combine cols vals) = Some v.
Proof.
  induction cols as [|k cols IH]; intros vals i c v Hnd Hc Hv; [discriminate|].
  destruct vals as [|x vals]; [destruct i; discriminate|].
  apply NoDup_cons in Hnd as [Hk Hnd]. simpl.
  destruct i as [|i]; simpl in Hc, Hv.
  - injection Hc as ->. injection Hv as ->. rewrite String.eqb_refl. reflexivity.
  - destruct (String.eqb c k) eqn:E.
    + apply String.eqb_eq in E. subst. exfalso. apply Hk.
      eapply list_elem_of_lookup_2, Hc.
    + eapply IH; eauto.
Qed.

Lemma fit_columns_length cols parsed :
  length (fit_columns cols parsed) = length cols.
Proof.
  unfold fit_columns. repeat case_bool_decide.
  - rewrite length_app, length_replicate. lia.
  - rewrite length_take. lia.
  - lia.
Qed.

Lemma fit_columns_lookup cols parsed i :
  (i < length cols)%nat ->
  fit_columns cols parsed !! i = Some (default VNull (parsed !! i)).
Proof.
  intros Hi. unfold fit_columns. repeat case_bool_decide.
  - destruct (decide (i < length parsed)%nat) as [Hlt|Hge].
    + rewrite lookup_app_l by assumption.
      destruct (lookup_lt_is_Some_2 parsed i Hlt) as [v Hv]. rewrite Hv. reflexivity.
    + rewrite lookup_app_r by lia. rewrite lookup_replicate_2 by lia.
      rewrite lookup_ge_None_2 by lia. reflexivity.
  - rewrite lookup_take_lt by assumption.
    destruct (lookup_lt_is_Some_2 parsed i) as [v Hv]; [lia|]. rewrite Hv. reflexivity.
  - destruct (lookup_lt_is_Some_2 parsed i) as [v Hv]; [lia|]. rewrite Hv. reflexivity.
Qed.

Lemma map_fst_combine {A B} (l : list A) (l' : list B) :
  length l = length l' -> map fst (combine l l') = l.
Proof.
  revert l'. induction l as [|a l IH]; intros [|b l'] H; simpl in *;
    try discriminate; [reflexivity|]. f_equal. apply IH. lia.
Qed.

Lemma row_of_tuple_fits_parsed (cols : list string) (tup : string)
    (parsed : list string) :
  Csv.next_record tup = Ok parsed ->
  exists row,
    row_of_tuple cols tup = Ok row /\
    (forall c, In c (dict_keys row) <-> In c cols) /\
    (NoDup cols ->
     dict_keys row = cols /\
     forall i c, cols !! i = Some c ->
       dict_get c row
       = Some (default VNull (map _convert_sql_value parsed !! i))).
Proof.
  intros Hp. unfold row_of_tuple. rewrite Hp. cbn [rbind].
  set (vals := fit_columns cols (map _convert_sql_value parsed)).
  assert (Hlen : length cols = length vals)
    by (symmetry; apply fit_columns_length).
  eexists. split; [reflexivity|]. split.
  - intros c. unfold dict_of_pairs. rewrite dict_fold_keys.
    rewrite (map_fst_combine _ _ Hlen). simpl. tauto.
  - intros Hnd. rewrite dict_of_pairs_nodup
      by (rewrite (map_fst_combine _ _ Hlen); exact Hnd).
    split; [apply (map_fst_combine _ _ Hlen)|].
    intros i c Hc. eapply dict_get_combine; eauto.
    apply fit_columns_lookup. eapply lookup_lt_Some, Hc.
Qed.

(** *** Integer party columns *)

Lemma rbind_ok {A B} (m : result A) (f : A -> result B) b :
  rbind m f = Ok b -> exists a, m = Ok a /\ f a = Ok b.
Proof. destruct m as [a|e]; simpl; [eauto | discriminate]. Qed.

Lemma rmap_Forall2 {A B} (f : A -> result B) l : forall l',
  rmap f l = Ok l' -> Forall2 (fun a b => f a = Ok b) l l'.
Proof.
  induction l as [|a l IH]; simpl; intros l' H.
  - injection H as <-. constructor.
  - apply rbind_ok in H as (b & Hb & H). apply rbind_ok in H as (bs & Hbs & H).
    injection H as <-. constructor; auto.
Qed.

Lemma eqb_scalar_refl v : eqb_scalar v v = true.
Proof.
  destruct v as [|n|[m k]|s]; simpl; try reflexivity.
  - unfold Py.dcompare. simpl. rewrite Z.compare_refl. reflexivity.
  - unfold Py.dcompare. simpl. rewrite Z.compare_refl. reflexivity.
  - apply String.eqb_refl.
Qed.


Lemma fillna0_astype_int_keeps v v' :
  is_int v = true -> Frame.fillna0_astype_int v = Ok v' -> v' = v.
Proof. destruct v; simpl; try discriminate. intros _ [= <-]. reflexivity. Qed.



Lemma fold_err {A} (F : A -> Frame.t -> result Frame.t) cs e :
  fold_left (fun acc c => let* df := acc in F c df) cs (Err e) = Err e.
Proof. induction cs; simpl; auto. Qed.






Lemma insert_sorted_In {A} (le : A -> A -> bool) x l c :
  In c (insert_sorted le x l) <-> c = x \/ In c l.
Proof.
  induction l as [|y l IH]; simpl.
  - intuition.
  - destruct (le x y); simpl; [intuition|]. rewrite IH. intuition.
Qed.

Lemma sort_by_In {A} (le : A -> A -> bool) l c :
  In c (sort_by le l) <-> In c l.
Proof.
  unfold sort_by. induction l as [|x l IH]; simpl; [tauto|].
  rewrite insert_sorted_In, IH. intuition.
Qed.

Lemma sorted_In l l' c : sorted l = Ok l' -> In c l' -> In c l.
Proof.
  unfold sorted. destruct l as [|x [|y l]].
  - intros [= <-]. auto.
  - intros [= <-]. auto.
  - destruct (comparable _); [|discriminate]. intros E Hin.
    injection E as E. rewrite <- E in Hin.
    apply (sort_by_In leb_scalar (x :: y :: l)), Hin.
Qed.

Lemma rmap_length {A B} (f : A -> result B) l l' :
  rmap f l = Ok l' -> length l' = length l.
Proof. intros H. apply rmap_Forall2, Forall2_length in H. auto. Qed.

Lemma select_aligned cs df df' :
  Frame.select cs df = Ok df' -> Frame.columns df' = cs /\ aligned df'.
Proof.
  unfold Frame.select. intros H. apply rbind_ok in H as (idx & Hi & H).
  injection H as <-. simpl. split; [reflexivity|].
  unfold aligned. simpl. apply Forall_forall. intros r Hr.
  apply list_elem_of_In, in_map_iff in Hr as (r0 & <- & _).
  rewrite length_map. eapply rmap_length, Hi.
Qed.




Lemma party_cells_int_aligned df : party_cells_int df -> aligned df.
Proof.
  unfold party_cells_int, aligned. intros H. eapply Forall_impl; [exact H|].
  intros r Hr. simpl in Hr. apply Forall2_length in Hr. auto.
Qed.


(** *** Which failures are the mandatory-table failures *)
































(** *** Where the columns of the Assembled Table come from *)


Lemma eqb_scalar_VStr s c : eqb_scalar (VStr s) c = true <-> c = VStr s.
Proof.
  destruct c; simpl; split; try discriminate; try congruence.
  - intros H. apply String.eqb_eq in H. congruence.
  - intros [= ->]. apply String.eqb_refl.
Qed.

Lemma index_of_Some c cols :
  is_Some (Frame.index_of c cols) <-> existsb (eqb_scalar c) cols = true.
Proof.
  induction cols as [|c' cols IH]; simpl.
  - split; [intros [? ?]; discriminate | discriminate].
  - destruct (eqb_scalar c c'); simpl.
    + split; eauto.
    + rewrite <- IH. rewrite fmap_is_Some. reflexivity.
Qed.

Lemma has_VStr s df :
  Frame.has (VStr s) df = true <-> In (VStr s) (Frame.columns df).
Proof.
  unfold Frame.has. rewrite bool_decide_eq_true, index_of_Some.
  rewrite existsb_exists. split.
  - intros (c & Hin & Hc). apply eqb_scalar_VStr in Hc. congruence.
  - intros H. exists (VStr s). split; [exact H | apply eqb_scalar_refl].
Qed.





Lemma select_columns cs df df' :
  Frame.select cs df = Ok df' -> Frame.columns df' = cs.
Proof. intros H. apply select_aligned in H as [H _]. exact H. Qed.



Lemma dedup_from_In {A} (eqb : A -> A -> bool) l : forall seen x,
  In x (dedup_from eqb seen l) -> In x l.
Proof.
  induction l as [|y l IH]; intros seen x H; simpl in *; [contradiction|].
  destruct (existsb (eqb y) seen).
  - right. eapply IH, H.
  - destruct H as [->|H]; [auto|]. right. eapply IH, H.
Qed.

Lemma group_sort_In l x : In x (Frame.group_sort l) -> In x l.
Proof.
  unfold Frame.group_sort. intros H.
  apply in_app_or in H as [H|H]; apply sort_by_In, filter_In in H as [H _];
    exact H.
Qed.

Lemma index_of_lookup c cols i :
  Frame.index_of c cols = Some i ->
  exists c', cols !! i = Some c' /\ eqb_scalar c c' = true.
Proof.
  revert i. induction cols as [|c0 cols IH]; intros i H; simpl in H;
    [discriminate|].
  destruct (eqb_scalar c c0) eqn:E.
  - injection H as <-. exists c0. auto.
  - destruct (Frame.index_of c cols) as [k|]; [|discriminate].
    injection H as <-. destruct (IH k eq_refl) as (c' & Hc & He).
    exists c'. auto.
Qed.

Lemma index_of_distinct a b cols i j :
  a <> b ->
  Frame.index_of (VStr a) cols = Some i ->
  Frame.index_of (VStr b) cols = Some j -> i <> j.
Proof.
  intros Hab Hi Hj ->.
  apply index_of_lookup in Hi as (c1 & H1 & E1).
  apply index_of_lookup in Hj as (c2 & H2 & E2).
  apply eqb_scalar_VStr in E1, E2. congruence.
Qed.

Lemma cell_insert_ne i j v r :
  i <> j -> Frame.cell j (<[i := v]> r) = Frame.cell j r.
Proof.
  intros H. unfold Frame.cell. rewrite !nth_lookup.
  rewrite list_lookup_insert_ne by exact H. reflexivity.
Qed.

Lemma map_fst_combine_le {A B} (l : list A) (l' : list B) :
  length l = length l' -> map fst (combine l l') = l.
Proof. apply map_fst_combine. Qed.

Lemma col_after_set_col a b vals df :
  a <> b -> length vals = length (Frame.rows df) ->
  is_Some (Frame.index_of (VStr a) (Frame.columns df)) ->
  Frame.col (VStr b) (Frame.set_col (VStr a) vals df)
  = Frame.col (VStr b) df.
Proof.
  intros Hab Hlen [i Hi]. unfold Frame.set_col. rewrite Hi.
  unfold Frame.col. simpl.
  destruct (Frame.index_of (VStr b) (Frame.columns df)) as [j|] eqn:Hj;
    [|reflexivity].
  f_equal. rewrite map_map.
  pose proof (index_of_distinct _ _ _ _ _ Hab Hi Hj) as Hij.
  erewrite map_ext; [|intros rv; apply (cell_insert_ne _ _ _ _ Hij)].
  rewrite <- map_map, map_fst_combine by (symmetry; exact Hlen).
  reflexivity.
Qed.

Lemma combine_In_mid {A B C} (l1 : list A) (l2 : list B) (l3 : list C) t :
  In t (combine (combine l1 l2) l3) -> In (snd (fst t)) l2.
Proof.
  destruct t as [[a b] c]. intros H. simpl.
  apply in_combine_l in H. eapply in_combine_r, H.
Qed.

Lemma pivot_cols_In idx cls vls x :
  In x (Frame.pivot_cols (Frame.triples_of idx cls vls)) -> In x cls.
Proof.
  unfold Frame.pivot_cols, Frame.triples_of. intros Hin.
  apply group_sort_In in Hin. apply dedup_from_In in Hin.
  apply in_map_iff in Hin as (t & <- & Hin).
  apply filter_In in Hin as [Hin _]. eapply combine_In_mid, Hin.
Qed.





(** *** The pivot *)







(** *** The query layer *)

Lemma has_true c df :
  Frame.has c df = true -> exists i, Frame.index_of c (Frame.columns df) = Some i.
Proof. unfold Frame.has. rewrite bool_decide_eq_true. intros [i H]. eauto. Qed.

Lemma has_false c df :
  Frame.has c df = false -> Frame.index_of c (Frame.columns df) = None.
Proof.
  unfold Frame.has. rewrite bool_decide_eq_false.
  destruct (Frame.index_of c (Frame.columns df)); [|reflexivity].
  intros H. exfalso. apply H. eauto.
Qed.

Lemma get_states_guard (df : Frame.t) :
  (Frame.has (VStr "state_id") df = true ->
   Frame.has (VStr "state_name") df = false ->
   get_states df = Err (KeyError "state_name")) /\
  (Frame.has (VStr "state_id") df = false ->
   Frame.has (VStr "state_name") df = true ->
   get_states df = Err (KeyError "state_id")) /\
  (Frame.has (VStr "state_id") df = false ->
   Frame.has (VStr "state_name") df = false ->
   get_states df = Ok []).
Proof.
  unfold get_states. repeat split; intros Hi Hn; rewrite Hi, Hn; simpl.
  - apply has_true in Hi as [i Hi]. apply has_false in Hn.
    unfold Frame.select. simpl. rewrite Hi, Hn. reflexivity.
  - apply has_false in Hi. unfold Frame.select. simpl. rewrite Hi. reflexivity.
  - reflexivity.
Qed.

(** The fallback path, for comparison, does apply the override. *)
Lemma fallback_applies_override sql_text m :
  load_table sql_text "state" = Ok Frame.empty_frame ->
  state_mapping_from_sql sql_text = Ok m ->
  m !! 25 = Some (VStr "Delta State").
Proof.
  intros Hs H. unfold state_mapping_from_sql in H.
  unfold load_tables_from_sql at 1 in H. simpl in H. rewrite Hs in H.
  simpl in H. apply rbind_ok in H as (tables & _ & H).
  apply rbind_ok in H as (mapping & _ & H). injection H as <-.
  apply lookup_insert_eq.
Qed.

(** A quoted region without quotes inside is one field, commas included. *)
Lemma reader_keeps_quoted_commas s :
  forall_chars not_quote s = true ->
  Csv.next_record (String "'" (s +:+ "'")) = Ok [s].
Proof.
  intros H. unfold Csv.next_record.
  rewrite (feed_quoted Csv.START_RECORD s [] (or_introl eq_refl) H).
  reflexivity.
Qed.

(** *** Equality of keys is an equivalence *)

Lemma pow10_pos k : 0 < 10 ^ Z.of_nat k.
Proof. apply Z.pow_pos_nonneg; lia. Qed.

Lemma dcompare_eq x y :
  Py.dcompare x y = Eq
  <-> dmant x * 10 ^ Z.of_nat (dscale y) = dmant y * 10 ^ Z.of_nat (dscale x).
Proof.
  unfold Py.dcompare. rewrite Z.compare_eq_iff.
  destruct x as [mx sx], y as [my sy]. simpl.
  set (K := Nat.max sx sy).
  assert (Hx : 10 ^ Z.of_nat sy
               = 10 ^ Z.of_nat (K - sx) * 10 ^ Z.of_nat (sx + sy - K)).
  { rewrite <- Z.pow_add_r by lia. f_equal. lia. }
  assert (Hy : 10 ^ Z.of_nat sx
               = 10 ^ Z.of_nat (K - sy) * 10 ^ Z.of_nat (sx + sy - K)).
  { rewrite <- Z.pow_add_r by lia. f_equal. lia. }
  rewrite Hx, Hy, !Z.mul_assoc.
  pose proof (pow10_pos (sx + sy - K)) as Hp.
  split.
  - intros ->. reflexivity.
  - intros H. apply Z.mul_cancel_r in H; [exact H | lia].
Qed.

Lemma dcompare_sym x y : Py.dcompare x y = Eq -> Py.dcompare y x = Eq.
Proof. rewrite !dcompare_eq. auto. Qed.

Lemma dcompare_trans x y z :
  Py.dcompare x y = Eq -> Py.dcompare y z = Eq -> Py.dcompare x z = Eq.
Proof.
  rewrite !dcompare_eq. intros H1 H2.
  pose proof (pow10_pos (dscale y)) as Hp.
  apply (Z.mul_cancel_r _ _ (10 ^ Z.of_nat (dscale y))); [lia|].
  transitivity (dmant x * 10 ^ Z.of_nat (dscale y) * 10 ^ Z.of_nat (dscale z));
    [ring|].
  rewrite H1.
  transitivity (dmant y * 10 ^ Z.of_nat (dscale z) * 10 ^ Z.of_nat (dscale x));
    [ring|].
  rewrite H2. ring.
Qed.

Lemma eqb_scalar_num a b :
  eqb_scalar a b = true ->
  (a = VNull /\ b = VNull) \/ (exists s, a = VStr s /\ b = VStr s)
  \/ (exists x y, num_of a = Some x /\ num_of b = Some y
                  /\ Py.dcompare x y = Eq).
Proof.
  destruct a as [|n|d|s], b as [|m|e|t]; simpl; try discriminate; intros H;
    auto.
  - right. right. exists (Dec n 0), (Dec m 0). repeat split.
    destruct (Py.dcompare _ _); [reflexivity | discriminate..].
  - right. right. exists (Dec n 0), e. repeat split.
    destruct (Py.dcompare _ _); [reflexivity | discriminate..].
  - right. right. exists d, (Dec m 0). repeat split.
    destruct (Py.dcompare _ _); [reflexivity | discriminate..].
  - right. right. exists d, e. repeat split.
    destruct (Py.dcompare _ _); [reflexivity | discriminate..].
  - right. left. apply String.eqb_eq in H. subst. eauto.
Qed.

Lemma eqb_scalar_of_num a b x y :
  num_of a = Some x -> num_of b = Some y -> Py.dcompare x y = Eq ->
  eqb_scalar a b = true.
Proof.
  destruct a, b; simpl; try discriminate; intros [= <-] [= <-] H;
    rewrite H; reflexivity.
Qed.

Lemma eqb_scalar_sym a b : eqb_scalar a b = true -> eqb_scalar b a = true.
Proof.
  intros H. apply eqb_scalar_num in H
    as [[-> ->]|[(s & -> & ->)|(x & y & Hx & Hy & H)]].
  - reflexivity.
  - apply eqb_scalar_refl.
  - eapply eqb_scalar_of_num; eauto using dcompare_sym.
Qed.

Lemma eqb_scalar_trans a b c :
  eqb_scalar a b = true -> eqb_scalar b c = true -> eqb_scalar a c = true.
Proof.
  intros H1 H2.
  apply eqb_scalar_num in H1
    as [[-> ->]|[(s & -> & ->)|(x & y & Hx & Hy & H1)]]; [exact H2..|].
  apply eqb_scalar_num in H2
    as [[-> ->]|[(s & -> & ->)|(y' & z & Hy' & Hz & H2)]];
    try discriminate.
  rewrite Hy in Hy'. injection Hy' as <-.
  eapply eqb_scalar_of_num; eauto using dcompare_trans.
Qed.



(** *** Labels and cells across a left join *)







Lemma index_of_VStr_In s cols i :
  Frame.index_of (VStr s) cols = Some i -> In (VStr s) cols.
Proof.
  intros H. apply index_of_lookup in H as (c & Hc & E).
  apply eqb_scalar_VStr in E. subst.
  apply list_elem_of_In. eapply list_elem_of_lookup_2, Hc.
Qed.







(** *** The party cells of the Assembled Table *)

Lemma In_index_of s cols :
  In (VStr s) cols -> exists q, Frame.index_of (VStr s) cols = Some q.
Proof.
  intros H.
  assert (Hs : is_Some (Frame.index_of (VStr s) cols)).
  { apply index_of_Some, existsb_exists. exists (VStr s).
    split; [exact H | apply eqb_scalar_refl]. }
  destruct Hs as [q Hq]. eauto.
Qed.

Lemma index_of_VStr_cell s cols q :
  Frame.index_of (VStr s) cols = Some q -> cols !! q = Some (VStr s).
Proof.
  intros H. apply index_of_lookup in H as (c & Hc & E).
  apply eqb_scalar_VStr in E. congruence.
Qed.

(** Every key of a list is equal to some key that [dedup] keeps. *)
Lemma dedup_from_complete (l : list Value) : forall seen x,
  In x l ->
  (exists y, In y seen /\ eqb_scalar x y = true)
  \/ exists y, In y (dedup_from eqb_scalar seen l) /\ eqb_scalar x y = true.
Proof.
  induction l as [|a l IH]; intros seen x Hx; [destruct Hx|].
  simpl. destruct Hx as [->|Hx].
  - destruct (existsb (eqb_scalar x) seen) eqn:E.
    + left. apply existsb_exists in E as (y & Hy & E). eauto.
    + right. exists x. split; [left; reflexivity | apply eqb_scalar_refl].
  - destruct (existsb (eqb_scalar a) seen) eqn:E.
    + apply IH, Hx.
    + destruct (IH (a :: seen) x Hx) as [(y & [<-|Hy] & Ey)|(y & Hy & Ey)].
      * right. exists a. split; [left; reflexivity | exact Ey].
      * left. eauto.
      * right. exists y. split; [right; exact Hy | exact Ey].
Qed.


Lemma eqb_scalar_null x y :
  eqb_scalar x y = true -> is_null x = false -> is_null y = false.
Proof. destruct x, y; simpl; try discriminate; auto. Qed.









Lemma cell_map_any {A} (f : A -> Value) (l : list A) q a :
  l !! q = Some a -> Frame.cell q (map f l) = f a.
Proof.
  revert q. induction l as [|x l IH]; intros q H; [discriminate|].
  destruct q as [|q]; simpl in *.
  - injection H as ->. reflexivity.
  - apply IH, H.
Qed.


Lemma fillna0_filled x :
  is_int x = true \/ x = VNull ->
  Frame.fillna0_astype_int x = Ok (filled x).
Proof. intros [H| ->]; [destruct x; try discriminate|]; reflexivity. Qed.



Lemma cell_lookup k (r : list Value) v :
  r !! k = Some v -> Frame.cell k r = v.
Proof. intros H. unfold Frame.cell. rewrite nth_lookup, H. reflexivity. Qed.

Lemma map_col_row_cells c0 cols r r' :
  length r = length cols ->
  rmap (fun lv => if eqb_scalar (fst lv) c0
                  then Frame.fillna0_astype_int (snd lv) else Ok (snd lv))
       (combine cols r) = Ok r' ->
  coerced_row cols [c0] r r'.
Proof.
  intros Hlen H. apply rmap_Forall2 in H.
  pose proof (Forall2_length _ _ _ H) as Hl.
  rewrite length_combine in Hl.
  split; [unfold Frame.Label in *; lia|].
  intros k c Hc.
  assert (Hk : (k < length r)%nat).
  { apply lookup_lt_Some in Hc. unfold Frame.Label in *. lia. }
  destruct (lookup_lt_is_Some_2 r k Hk) as [x Hx].
  assert (Hcx : combine cols r !! k = Some (c, x)).
  { clear -Hc Hx. revert r k Hc Hx.
    induction cols as [|c' cols IH]; intros [|x' r] [|k] Hc Hx;
      simpl in *; try discriminate; [congruence|]. apply IH; assumption. }
  destruct (Forall2_lookup_l _ _ _ _ _ H Hcx) as (v & Hv & E).
  simpl in E. rewrite (cell_lookup _ _ _ Hv), (cell_lookup _ _ _ Hx).
  simpl. rewrite orb_false_r. split; intros Hb; rewrite Hb in E.
  - congruence.
  - intros Hx'. rewrite (fillna0_filled _ Hx') in E. congruence.
Qed.



Lemma Forall2_rows_In {A} (P : A -> A -> Prop) l l' y :
  Forall2 P l l' -> In y l' -> exists x, In x l /\ P x y.
Proof.
  induction 1 as [|a b l l' Hab H IH]; intros Hy; [destruct Hy|].
  destruct Hy as [<-|Hy]; [exists a; split; [left; reflexivity|exact Hab]|].
  destruct (IH Hy) as (x & Hx & Hp). exists x. split; [right|]; assumption.
Qed.

Lemma map_col_cells c0 F F1 :
  aligned F ->
  Frame.map_col Frame.fillna0_astype_int c0 F = Ok F1 ->
  Frame.columns F1 = Frame.columns F /\ aligned F1 /\
  Forall2 (coerced_row (Frame.columns F) [c0]) (Frame.rows F) (Frame.rows F1).
Proof.
  unfold Frame.map_col. intros HF H.
  apply rbind_ok in H as (body & Hb & H). injection H as <-.
  cbn [Frame.columns Frame.rows]. apply rmap_Forall2 in Hb.
  assert (Hrel : Forall2 (coerced_row (Frame.columns F) [c0])
                         (Frame.rows F) body).
  { unfold aligned in HF. revert HF.
    induction Hb as [|r r' rows body' Hr Hb IH]; intros HF; constructor.
    - apply Forall_cons in HF as [HF _]. eapply map_col_row_cells; eauto.
    - apply Forall_cons in HF as [_ HF]. auto. }
  split; [reflexivity|]. split; [|exact Hrel].
  unfold aligned. cbn [Frame.columns Frame.rows]. apply Forall_forall.
  intros r' Hr'. apply list_elem_of_In in Hr'.
  destruct (Forall2_rows_In _ _ _ _ Hrel Hr') as (r & Hr & [Hl _]).
  unfold aligned in HF. rewrite Forall_forall in HF.
  rewrite Hl. apply HF, list_elem_of_In, Hr.
Qed.








Lemma has_index c F i :
  Frame.index_of c (Frame.columns F) = Some i -> Frame.has c F = true.
Proof. intros H. unfold Frame.has. apply bool_decide_eq_true. rewrite H. eauto. Qed.

Lemma known_not_free s pu c : free_label s pu -> In c known -> c <> s.
Proof. intros (_ & _ & Hk & _) Hc ->. auto. Qed.


(** The tables that the loader returns are aligned. *)
Lemma of_records_aligned rs : aligned (Frame.of_records rs).
Proof.
  unfold aligned, Frame.of_records. cbn [Frame.rows Frame.columns].
  apply List.Forall_forall. intros r Hr.
  apply in_map_iff in Hr as (x & <- & _). rewrite !length_map. reflexivity.
Qed.

Lemma empty_frame_aligned : aligned Frame.empty_frame.
Proof. constructor. Qed.

Lemma load_table_aligned sql table df :
  load_table sql table = Ok df -> aligned df.
Proof.
  unfold load_table. intros H. apply rbind_ok in H as (rows & _ & H).
  destruct rows; injection H as <-;
    [apply empty_frame_aligned | apply of_records_aligned].
Qed.






(** *** The row filter *)

Lemma filter_combine_map {A B} (f : A -> B) (p : B -> bool) (l : list A) :
  map fst (List.filter (fun rk => p (snd rk)) (combine l (map f l)))
  = List.filter (fun r => p (f r)) l.
Proof.
  induction l as [|a l IH]; simpl; [reflexivity|].
  destruct (p (f a)); simpl; rewrite IH; reflexivity.
Qed.

Lemma narrow_rows c v df :
  narrow c v df = Ok (Frame.filter_rows (passes c v df) df).
Proof.
  unfold narrow, passes, Frame.filter_rows.
  assert (Hall : forall l : list (list Value),
             List.filter (fun _ => true) l = l).
  { induction l as [|a l IH]; simpl; [|rewrite IH]; reflexivity. }
  destruct v as [n|].
  - destruct (Frame.has (VStr c) df) eqn:Hh.
    + apply has_true in Hh as [i Hi]. unfold rows_equal, Frame.col.
      rewrite Hi. cbn [rbind]. f_equal. f_equal.
      apply (filter_combine_map (Frame.cell i)
               (fun k => eqb_elem k (VInt n))).
    + apply has_false in Hh. rewrite Hh, Hall. destruct df; reflexivity.
  - rewrite Hall. destruct df; reflexivity.
Qed.

Lemma filter_filter_and {A} (p q : A -> bool) (l : list A) :
  List.filter q (List.filter p l) = List.filter (fun x => p x && q x) l.
Proof.
  induction l as [|a l IH]; simpl; [reflexivity|].
  destruct (p a); simpl; [destruct (q a); rewrite IH; reflexivity|exact IH].
Qed.

Lemma filter_ext_eq {A} (p q : A -> bool) (l : list A) :
  (forall x, p x = q x) -> List.filter p l = List.filter q l.
Proof.
  intros H. induction l as [|a l IH]; simpl; [reflexivity|].
  rewrite H, IH. reflexivity.
Qed.

(** [filter_results] never raises, keeps the labels, and keeps exactly the
    rows that pass the four filters, in their order. *)
Lemma filter_results_rows df s l w p :
  filter_results df s l w p
  = Ok (Frame.Df (Frame.columns df)
          (List.filter (passes_all s l w p df) (Frame.rows df))).
Proof.
  unfold filter_results. cbv zeta.
  rewrite narrow_rows. cbn [rbind].
  rewrite narrow_rows. cbn [rbind].
  rewrite narrow_rows. cbn [rbind].
  rewrite narrow_rows.
  unfold Frame.filter_rows, passes. cbn [Frame.columns Frame.rows].
  rewrite !filter_filter_and. do 2 f_equal. apply filter_ext_eq.
  intros r. unfold passes_all, passes. rewrite !andb_assoc. reflexivity.
Qed.

(** *** The listings of the query layer *)

Lemma select_two a b df i j :
  Frame.index_of (VStr a) (Frame.columns df) = Some i ->
  Frame.index_of (VStr b) (Frame.columns df) = Some j ->
  Frame.select [VStr a; VStr b] df
  = Ok (Frame.Df [VStr a; VStr b]
          (map (fun r => [Frame.cell i r; Frame.cell j r]) (Frame.rows df))).
Proof.
  intros Hi Hj. unfold Frame.select. simpl. rewrite Hi, Hj. reflexivity.
Qed.

Lemma select_two_missing a b df :
  Frame.index_of (VStr a) (Frame.columns df) = None
  \/ Frame.index_of (VStr b) (Frame.columns df) = None ->
  exists k, Frame.select [VStr a; VStr b] df = Err (KeyError k).
Proof.
  intros H. unfold Frame.select. simpl.
  destruct (Frame.index_of (VStr a) (Frame.columns df)) as [i|];
    [|eexists; reflexivity].
  destruct H as [H|H]; [discriminate|]. rewrite H. eexists; reflexivity.
Qed.

Lemma rmap_ext_in {A B} (f g : A -> result B) l :
  (forall a, In a l -> f a = g a) -> rmap f l = rmap g l.
Proof.
  induction l as [|a l IH]; intros H; simpl; [reflexivity|].
  rewrite (H a (or_introl eq_refl)), IH;
    [reflexivity | intros; apply H; right; assumption].
Qed.

Lemma dedup_from_complete_gen {A} (eqb : A -> A -> bool) :
  (forall x, eqb x x = true) ->
  forall l seen x,
    In x l ->
    (exists y, In y seen /\ eqb x y = true)
    \/ exists y, In y (dedup_from eqb seen l) /\ eqb x y = true.
Proof.
  intros Hrefl. induction l as [|a l IH]; intros seen x Hx; [destruct Hx|].
  simpl. destruct (existsb (eqb a) seen) eqn:E.
  - destruct Hx as [<-|Hx]; [|apply IH, Hx].
    left. apply existsb_exists in E as (y & Hy & E). eauto.
  - destruct Hx as [<-|Hx].
    + right. exists a. split; [left; reflexivity|apply Hrefl].
    + destruct (IH (a :: seen) x Hx) as [(y & [<-|Hy] & E')|(y & Hy & E')].
      * right. exists a. split; [left; reflexivity|exact E'].
      * left. eauto.
      * right. exists y. split; [right; exact Hy|exact E'].
Qed.

Lemma row_eqb_refl r : Frame.row_eqb r r = true.
Proof.
  unfold Frame.row_eqb. rewrite bool_decide_eq_true_2 by reflexivity.
  simpl. induction r as [|x r IH]; simpl; [reflexivity|].
  rewrite eqb_scalar_refl. exact IH.
Qed.

Lemma row_eqb_pair x y x' y' :
  Frame.row_eqb [x; y] [x'; y'] = true ->
  eqb_scalar x x' = true /\ eqb_scalar y y' = true.
Proof.
  unfold Frame.row_eqb. intros H. apply andb_true_iff in H as [_ H].
  simpl in H. rewrite andb_true_r in H. apply andb_true_iff in H. exact H.
Qed.

(** Equal numbers have the same integer part. *)
Lemma trunc_dcompare x y :
  Py.dcompare x y = Eq -> Py.trunc x = Py.trunc y.
Proof.
  intros H. apply dcompare_eq in H. unfold Py.trunc.
  pose proof (pow10_pos (dscale x)) as Hx.
  pose proof (pow10_pos (dscale y)) as Hy.
  rewrite <- (Z.quot_mul_cancel_r (dmant x) _ (10 ^ Z.of_nat (dscale y)))
    by lia.
  rewrite <- (Z.quot_mul_cancel_r (dmant y) _ (10 ^ Z.of_nat (dscale x)))
    by lia.
  rewrite H. f_equal. lia.
Qed.

Lemma int_of_eqb_scalar a b :
  eqb_scalar a b = true -> int_of a = int_of b.
Proof.
  intros H. apply eqb_scalar_num in H
    as [[-> ->]|[(s & -> & ->)|(x & y & Hx & Hy & E)]]; try reflexivity.
  apply trunc_dcompare in E.
  destruct a, b; try discriminate; simpl in *;
    injection Hx as <-; injection Hy as <-; unfold Py.trunc in *;
    simpl in E; rewrite ?Z.quot_1_r in E; congruence.
Qed.

Lemma dropna_first a b rs :
  dropna (VStr a) (Frame.Df [VStr a; VStr b] rs)
  = Ok (Frame.Df [VStr a; VStr b]
          (List.filter (fun r => negb (is_null (Frame.cell 0 r))) rs)).
Proof.
  unfold dropna. cbn [Frame.columns Frame.index_of].
  rewrite eqb_scalar_refl. reflexivity.
Qed.

Lemma eqb_scalar_VStr_ne a b : a <> b -> eqb_scalar (VStr a) (VStr b) = false.
Proof.
  intros H. apply not_true_is_false. intros E.
  apply eqb_scalar_VStr in E. congruence.
Qed.

Lemma map_col_astype_first a b rs :
  a <> b -> Forall (fun r => length r = 2%nat) rs ->
  Frame.map_col Frame.astype_int (VStr a) (Frame.Df [VStr a; VStr b] rs)
  = let* body :=
      rmap (fun r => let* n := int_of (Frame.cell 0 r) in
                     Ok [VInt n; Frame.cell 1 r]) rs in
    Ok (Frame.Df [VStr a; VStr b] body).
Proof.
  intros Hab Hlen. unfold Frame.map_col. cbn [Frame.columns Frame.rows].
  f_equal. apply rmap_ext_in. intros r Hr.
  rewrite List.Forall_forall in Hlen. specialize (Hlen r Hr).
  destruct r as [|x [|y [|z r]]]; try discriminate Hlen.
  simpl. rewrite String.eqb_refl.
  rewrite (proj2 (String.eqb_neq b a)) by congruence.
  unfold Frame.astype_int, Frame.cell. simpl.
  destruct (int_of x); reflexivity.
Qed.

Lemma filter_split_In {A} (p : A -> bool) l x :
  In x (List.filter p l ++ List.filter (fun r => negb (p r)) l) <-> In x l.
Proof.
  rewrite in_app_iff, !filter_In. split; [tauto|].
  intros H. destruct (p x) eqn:E; [left|right]; rewrite ?E; tauto.
Qed.

Lemma sort_values_rows c F F' :
  Frame.sort_values c F = Ok F' ->
  Frame.columns F' = Frame.columns F /\
  forall r, In r (Frame.rows F') <-> In r (Frame.rows F).
Proof.
  unfold Frame.sort_values.
  destruct (Frame.index_of c (Frame.columns F)) as [i|]; [|discriminate].
  destruct (_ || _); [|discriminate]. intros [= <-].
  split; [reflexivity|]. intros r. cbn [Frame.rows].
  rewrite in_app_iff, sort_by_In, <- in_app_iff.
  rewrite <- (filter_split_In (fun r => negb (is_null (Frame.cell i r)))
                (Frame.rows F) r).
  rewrite !in_app_iff, !filter_In.
  split; intros [H|[H1 H2]]; auto; right; split; auto;
    destruct (is_null (Frame.cell i r)); auto.
Qed.

Lemma rmap_In {A B} (f : A -> result B) l l' :
  rmap f l = Ok l' ->
  (forall b, In b l' -> exists a, In a l /\ f a = Ok b) /\
  (forall a, In a l -> exists b, In b l' /\ f a = Ok b).
Proof.
  intros H. apply rmap_Forall2 in H.
  induction H as [|a b l l' Hab H IH]; [split; intros ? []|].
  destruct IH as [IH1 IH2]. split.
  - intros b' [<-|Hb]; [exists a; split; [left|]; auto|].
    destruct (IH1 _ Hb) as (a' & Ha' & E). exists a'. split; [right|]; auto.
  - intros a' [<-|Ha]; [exists b; split; [left|]; auto|].
    destruct (IH2 _ Ha) as (b' & Hb' & E). exists b'. split; [right|]; auto.
Qed.

(** The rows after deduplication, removal of the missing identifiers and
    conversion of the identifiers. *)
Lemma listing_body rs body :
  Forall (fun r => length r = 2%nat) rs ->
  rmap (fun r => let* n := int_of (Frame.cell 0 r) in
                 Ok [VInt n; Frame.cell 1 r])
       (List.filter (fun r => negb (is_null (Frame.cell 0 r)))
                    (dedup Frame.row_eqb rs)) = Ok body ->
  (forall b, In b body ->
     exists x y n, In [x; y] rs /\ x <> VNull /\ int_of x = Ok n
                   /\ b = [VInt n; y]) /\
  (forall x y, In [x; y] rs -> x <> VNull ->
     exists n y', In [VInt n; y'] body /\ int_of x = Ok n
                  /\ eqb_scalar y y' = true).
Proof.
  intros Hlen H. rewrite List.Forall_forall in Hlen.
  apply rmap_In in H as [H1 H2]. split.
  - intros b Hb. destruct (H1 b Hb) as (r & Hr & E).
    apply filter_In in Hr as [Hr Hnn]. apply dedup_from_In in Hr.
    pose proof (Hlen r Hr) as Hl.
    destruct r as [|x [|y [|z r]]]; try discriminate Hl.
    unfold Frame.cell in E, Hnn. simpl in E, Hnn.
    destruct (int_of x) as [n|] eqn:En; [|discriminate].
    injection E as <-. exists x, y, n. repeat split; auto.
    intros ->. discriminate.
  - intros x y Hxy Hx.
    destruct (dedup_from_complete_gen Frame.row_eqb row_eqb_refl rs []
                [x; y] Hxy) as [(r & [] & _)|(r & Hr & E)].
    pose proof (Hlen r (dedup_from_In _ _ _ _ Hr)) as Hl.
    destruct r as [|x' [|y' [|z r]]]; try discriminate Hl.
    apply row_eqb_pair in E as [Ex Ey].
    assert (Hnn : is_null x' = false).
    { eapply eqb_scalar_null; [exact Ex|]. destruct x; auto. congruence. }
    destruct (H2 [x'; y']) as (b & Hb & E).
    { apply filter_In. split; [exact Hr|].
      unfold Frame.cell. simpl. rewrite Hnn. reflexivity. }
    unfold Frame.cell in E. simpl in E.
    destruct (int_of x') as [n|] eqn:En; [|discriminate].
    injection E as <-. exists n, y'. repeat split; auto.
    rewrite (int_of_eqb_scalar _ _ Ex). exact En.
Qed.

(** The pairs read off the sorted rows. *)
Lemma listing_pairs a b body F l :
  a <> b ->
  Forall (fun r => exists n y, r = [VInt n; y]) body ->
  Frame.sort_values (VStr b) (Frame.Df [VStr a; VStr b] body) = Ok F ->
  id_name_pairs F = Ok l ->
  forall n v, In (n, v) l <-> In [VInt n; v] body.
Proof.
  intros Hab Hb Hs Hp. apply sort_values_rows in Hs as [_ Hrows].
  cbn [Frame.rows] in Hrows. rewrite List.Forall_forall in Hb.
  unfold id_name_pairs in Hp. apply rmap_In in Hp as [H1 H2].
  intros n v. split.
  - intros Hin. destruct (H1 _ Hin) as (r & Hr & E).
    apply Hrows in Hr. destruct (Hb r Hr) as (n' & y & ->).
    unfold Frame.cell in E. simpl in E. injection E as <- <-. exact Hr.
  - intros Hin. apply Hrows in Hin. destruct (H2 _ Hin) as (p & Hp & E).
    unfold Frame.cell in E. simpl in E. injection E as <-. exact Hp.
Qed.

(** The rows in the scope of a listing. *)
Lemma scoped_rows parent (p : option Z) df scoped :
  match p with
  | None => Ok df
  | Some p =>
      let* parents := Frame.col (VStr parent) df in
      Ok (Frame.Df (Frame.columns df)
            (map fst
               (List.filter (fun rp => eqb_elem (snd rp) (VInt p))
                            (combine (Frame.rows df) parents))))
  end = Ok scoped ->
  Frame.columns scoped = Frame.columns df /\
  forall r, In r (Frame.rows scoped)
            <-> In r (Frame.rows df) /\ passes parent p df r = true.
Proof.
  unfold passes. destruct p as [p|].
  - intros H. apply rbind_ok in H as (parents & Hc & H). injection H as <-.
    unfold Frame.col in Hc.
    destruct (Frame.index_of (VStr parent) (Frame.columns df)) as [k|];
      [|discriminate].
    injection Hc as <-. split; [reflexivity|]. intros r. cbn [Frame.rows].
    rewrite (filter_combine_map (Frame.cell k)
               (fun x => eqb_elem x (VInt p))).
    apply filter_In.
  - intros [= <-]. split; [reflexivity|]. intros r. tauto.
Qed.

Lemma pair_rows_length {A} (f g : A -> Value) (l : list A) :
  Forall (fun r => length r = 2%nat) (map (fun r => [f r; g r]) l).
Proof. apply List.Forall_forall. intros r Hr.
  apply in_map_iff in Hr as (x & <- & _). reflexivity. Qed.

(** A child listing holds exactly the identifiers of the rows in scope
    whose identifier is not missing, each with the name of such a row. *)
Lemma list_children_scope parent idc namec p df l :
  idc <> namec ->
  list_children parent idc namec p df = Ok l ->
  exists i j,
    Frame.index_of (VStr idc) (Frame.columns df) = Some i /\
    Frame.index_of (VStr namec) (Frame.columns df) = Some j /\
    (forall n v, In (n, v) l ->
       exists r, In r (Frame.rows df) /\ passes parent p df r = true /\
                 Frame.cell i r <> VNull /\ int_of (Frame.cell i r) = Ok n /\
                 Frame.cell j r = v) /\
    (forall r, In r (Frame.rows df) -> passes parent p df r = true ->
       Frame.cell i r <> VNull ->
       exists n v, In (n, v) l /\ int_of (Frame.cell i r) = Ok n
                   /\ eqb_scalar (Frame.cell j r) v = true).
Proof.
  intros Hne H. unfold list_children in H.
  apply rbind_ok in H as (scoped & Hsc & H).
  apply scoped_rows in Hsc as [Hcols Hrows].
  apply rbind_ok in H as (sub & Hsel & H).
  destruct (Frame.index_of (VStr idc) (Frame.columns scoped)) as [i|] eqn:Hi;
    [|destruct (select_two_missing idc namec scoped (or_introl Hi));
      congruence].
  destruct (Frame.index_of (VStr namec) (Frame.columns scoped)) as [j|] eqn:Hj;
    [|destruct (select_two_missing idc namec scoped (or_intror Hj));
      congruence].
  rewrite (select_two _ _ _ _ _ Hi Hj) in Hsel. injection Hsel as <-.
  unfold Frame.drop_duplicates in H. cbn [Frame.columns Frame.rows] in H.
  rewrite dropna_first in H. cbn [rbind] in H.
  rewrite map_col_astype_first in H;
    [ | exact Hne
      | apply List.Forall_forall; intros r Hr; apply filter_In in Hr as [Hr _];
        apply dedup_from_In in Hr;
        exact (proj1 (List.Forall_forall _ _) (pair_rows_length _ _ _) r Hr) ].
  cbv zeta in H. apply rbind_ok in H as (sub & Hsub & H).
  apply rbind_ok in Hsub as (body & Hbody & Hsub). injection Hsub as <-.
  apply rbind_ok in H as (F & Hsort & Hpairs).
  destruct (listing_body _ _ (pair_rows_length _ _ _) Hbody) as [B1 B2].
  assert (Hshape : Forall (fun r => exists n y, r = [VInt n; y]) body).
  { apply List.Forall_forall. intros b Hb.
    destruct (B1 b Hb) as (x & y & n & _ & _ & _ & ->). eauto. }
  pose proof (listing_pairs _ _ _ _ _ Hne Hshape Hsort Hpairs) as Hl.
  rewrite Hcols in Hi, Hj. exists i, j. split; [exact Hi|split; [exact Hj|]].
  split.
  - intros n v Hin. apply Hl in Hin.
    destruct (B1 _ Hin) as (x & y & n' & Hxy & Hx & Hn & E).
    injection E as <- <-.
    apply in_map_iff in Hxy as (r & E & Hr). injection E as <- <-.
    apply Hrows in Hr as [Hr Hp]. exists r. repeat split; auto.
  - intros r Hr Hp Hx.
    destruct (B2 (Frame.cell i r) (Frame.cell j r)) as (n & y' & Hin & Hn & E).
    { apply in_map_iff. exists r. split; [reflexivity|].
      apply Hrows. split; assumption. }
    { exact Hx. }
    exists n, y'. split; [apply Hl, Hin|]. split; assumption.
Qed.

Lemma fill_name_shown n y : fill_name [VInt n; y] = [VInt n; shown_name n y].
Proof. destruct y; reflexivity. Qed.

Lemma shown_name_eqb n x y :
  eqb_scalar x y = true ->
  eqb_scalar (shown_name n x) (shown_name n y) = true.
Proof.
  intros E. destruct x, y; simpl in *; try discriminate E;
    try exact E; apply String.eqb_refl.
Qed.

(** [get_states] holds exactly the identifiers of the rows whose state
    identifier is not missing, each with the name shown for such a row. *)
Lemma get_states_scope df l :
  get_states df = Ok l ->
  (Frame.has (VStr "state_id") df = false /\
   Frame.has (VStr "state_name") df = false /\ l = []) \/
  exists i j,
    Frame.index_of (VStr "state_id") (Frame.columns df) = Some i /\
    Frame.index_of (VStr "state_name") (Frame.columns df) = Some j /\
    (forall n v, In (n, v) l ->
       exists r, In r (Frame.rows df) /\
                 Frame.cell i r <> VNull /\ int_of (Frame.cell i r) = Ok n /\
                 v = shown_name n (Frame.cell j r)) /\
    (forall r, In r (Frame.rows df) -> Frame.cell i r <> VNull ->
       exists n v, In (n, v) l /\ int_of (Frame.cell i r) = Ok n
                   /\ eqb_scalar (shown_name n (Frame.cell j r)) v = true).
Proof.
  intros H. unfold get_states in H.
  destruct (Frame.has (VStr "state_id") df) eqn:Hsid;
    destruct (Frame.has (VStr "state_name") df) eqn:Hsn; simpl in H;
    try (injection H as <-; left; auto; fail); right;
    apply rbind_ok in H as (sub & Hsel & H).
  all: destruct (Frame.index_of (VStr "state_id") (Frame.columns df))
         as [i|] eqn:Hi;
    [|destruct (select_two_missing "state_id" "state_name" df
                  (or_introl Hi)); congruence].
  all: destruct (Frame.index_of (VStr "state_name") (Frame.columns df))
         as [j|] eqn:Hj;
    [|destruct (select_two_missing "state_id" "state_name" df
                  (or_intror Hj)); congruence].
  all: rewrite (select_two _ _ _ _ _ Hi Hj) in Hsel; injection Hsel as <-.
  all: unfold Frame.drop_duplicates in H; cbn [Frame.columns Frame.rows] in H.
  all: rewrite dropna_first in H; cbn [rbind] in H.
  all: rewrite map_col_astype_first in H;
    [ | discriminate
      | apply List.Forall_forall; intros r Hr; apply filter_In in Hr as [Hr _];
        apply dedup_from_In in Hr;
        exact (proj1 (List.Forall_forall _ _) (pair_rows_length _ _ _) r Hr) ].
  all: cbv zeta in H; apply rbind_ok in H as (sub & Hsub & H).
  all: apply rbind_ok in Hsub as (body & Hbody & Hsub); injection Hsub as <-.
  all: cbn [Frame.columns Frame.rows] in H.
  all: apply rbind_ok in H as (F & Hsort & Hpairs).
  all: destruct (listing_body _ _ (pair_rows_length _ _ _) Hbody) as [B1 B2].
  all: assert (Hshape : Forall (fun r => exists n y, r = [VInt n; y])
                          (map fill_name body))
    by (apply List.Forall_forall; intros b Hb;
        apply in_map_iff in Hb as (b0 & <- & Hb0);
        destruct (B1 b0 Hb0) as (x & y & n & _ & _ & _ & ->);
        rewrite fill_name_shown; eauto).
  all: pose proof (listing_pairs "state_id" "state_name" _ _ _
                     ltac:(discriminate) Hshape Hsort Hpairs) as Hl.
  all: exists i, j; split; [reflexivity|split; [reflexivity|]]; split.
  all: try (intros n v Hin; apply Hl in Hin;
            apply in_map_iff in Hin as (b0 & E0 & Hb0);
            destruct (B1 _ Hb0) as (x & y & n' & Hxy & Hx & Hn & ->);
            rewrite fill_name_shown in E0; injection E0 as <- <-;
            apply in_map_iff in Hxy as (r & E & Hr); injection E as <- <-;
            exists r; repeat split; auto; fail).
  all: intros r Hr Hx;
    destruct (B2 (Frame.cell i r) (Frame.cell j r)) as (n & y' & Hin & Hn & E);
    [ apply in_map_iff; exists r; split; [reflexivity|exact Hr]
    | exact Hx | ];
    exists n, (shown_name n y'); split;
    [ apply Hl, in_map_iff; exists [VInt n; y']; split;
      [apply fill_name_shown|exact Hin]
    | split; [exact Hn|apply shown_name_eqb, E] ].
Qed.

(** *** The order of the listings *)

Lemma string_leb_trans a : forall b c,
  String.leb a b = true -> String.leb b c = true -> String.leb a c = true.
Proof.
  unfold String.leb.
  induction a as [|x a IH]; intros [|y b] [|z c]; simpl; try congruence.
  unfold Ascii.compare.
  destruct (N.compare_spec (N_of_ascii x) (N_of_ascii y)) as [E1|E1|E1];
    destruct (N.compare_spec (N_of_ascii y) (N_of_ascii z)) as [E2|E2|E2];
    try congruence;
    destruct (N.compare_spec (N_of_ascii x) (N_of_ascii z)) as [E3|E3|E3];
    try congruence; try lia; try apply IH.
Qed.

Lemma dcompare_antisym x y : Py.dcompare y x = CompOpp (Py.dcompare x y).
Proof.
  unfold Py.dcompare. cbv zeta. rewrite (Nat.max_comm (dscale y)).
  apply Z.compare_antisym.
Qed.

Lemma dcompare_le x y :
  Py.dcompare x y <> Gt
  <-> dmant x * 10 ^ Z.of_nat (dscale y) <= dmant y * 10 ^ Z.of_nat (dscale x).
Proof.
  unfold Py.dcompare. cbv zeta.
  set (k := Nat.max (dscale x) (dscale y)).
  assert (Hx : (dscale x <= k)%nat) by lia.
  assert (Hy : (dscale y <= k)%nat) by lia.
  pose proof (pow10_pos (k - dscale x)) as P1.
  pose proof (pow10_pos (k - dscale y)) as P2.
  pose proof (pow10_pos (dscale x)) as P3.
  pose proof (pow10_pos (dscale y)) as P4.
  assert (Ek : 10 ^ Z.of_nat (k - dscale x) * 10 ^ Z.of_nat (dscale x)
               = 10 ^ Z.of_nat (k - dscale y) * 10 ^ Z.of_nat (dscale y)).
  { rewrite <- !Z.pow_add_r by lia. f_equal. lia. }
  rewrite <- Z.leb_le. unfold Z.leb.
  set (U := 10 ^ Z.of_nat (k - dscale x)) in *.
  set (V := 10 ^ Z.of_nat (k - dscale y)) in *.
  set (X := 10 ^ Z.of_nat (dscale x)) in *.
  set (Y := 10 ^ Z.of_nat (dscale y)) in *.
  assert (Hk : (dmant x * Y - dmant y * X) * (U * X)
               = (dmant x * U - dmant y * V) * (X * Y)).
  { transitivity (dmant x * Y * (U * X) - dmant y * X * (V * Y));
      [rewrite <- Ek; ring | ring]. }
  assert (HP : 0 < U * X) by lia.
  assert (HQ : 0 < X * Y) by lia.
  remember (dmant x * Y - dmant y * X) as a eqn:Ea.
  remember (dmant x * U - dmant y * V) as b eqn:Eb.
  remember (U * X) as P. remember (X * Y) as Q.
  assert (Hab : (a <= 0 <-> b <= 0)) by (split; intros; nia).
  destruct (Z.compare_spec (dmant x * U) (dmant y * V)) as [E|E|E];
    destruct (Z.compare_spec (dmant x * Y) (dmant y * X)) as [F|F|F];
    split; try congruence; intros _; exfalso; lia.
Qed.

Lemma name_le_trans a b c : name_le a b -> name_le b c -> name_le a c.
Proof.
  unfold name_le.
  destruct a as [| |da|sa], b as [| |db|sb], c as [| |dc|sc];
    try (intros (x & y & Hx & Hy & _); discriminate);
    try (intros _ (x & y & Hx & Hy & _); discriminate);
    try (intros H1 H2; eapply string_leb_trans; eassumption).
  all: intros (x & y & Hx & Hy & H1) (y' & z & Hy' & Hz & H2);
    simpl in *; exists x, z; repeat split; auto;
    replace y' with y in * by congruence;
    apply dcompare_le in H1; apply dcompare_le in H2; apply dcompare_le;
    pose proof (pow10_pos (dscale x)); pose proof (pow10_pos (dscale y));
    pose proof (pow10_pos (dscale z)); nia.
Qed.

Lemma leb_scalar_name_le a b :
  leb_scalar a b = true ->
  (is_num a = true /\ is_num b = true) \/ (is_str a = true /\ is_str b = true)
  -> name_le a b.
Proof.
  unfold leb_scalar, name_le.
  destruct a, b; simpl; intros H [[Ha Hb]|[Ha Hb]]; try discriminate;
    try exact H;
    eexists _, _; (split; [reflexivity|split; [reflexivity|]]);
    intros E; rewrite E in H; discriminate.
Qed.

Lemma leb_scalar_false a b : leb_scalar a b = false -> name_le b a.
Proof.
  unfold leb_scalar, name_le.
  destruct a, b; simpl; try discriminate; intros H;
    try (destruct (String.leb_total s s0) as [E|E]; congruence);
    eexists _, _; (split; [reflexivity|split; [reflexivity|]]);
    rewrite dcompare_antisym;
    match goal with
    | H : match ?c with _ => _ end = false |- _ =>
        destruct c; try discriminate H; discriminate
    end.
Qed.

Lemma insert_sorted_strongly {A} (le : A -> A -> bool) (R : A -> A -> Prop)
    x l :
  (forall a b c, R a b -> R b c -> R a c) ->
  (forall b, In b l -> le x b = true -> R x b) ->
  (forall b, In b l -> le x b = false -> R b x) ->
  StronglySorted R l -> StronglySorted R (insert_sorted le x l).
Proof.
  intros Htr. induction l as [|y l IH]; intros H1 H2 Hs; simpl.
  - constructor; constructor.
  - apply StronglySorted_inv in Hs as [Hs Hy].
    destruct (le x y) eqn:E.
    + constructor; [constructor; assumption|].
      assert (Rxy : R x y) by (apply H1; [left; reflexivity|exact E]).
      constructor; [exact Rxy|].
      rewrite List.Forall_forall in Hy |- *. intros z Hz.
      eapply Htr; [exact Rxy|apply Hy, Hz].
    + constructor.
      * apply IH; [intros; apply H1; auto; right; assumption
                  |intros; apply H2; auto; right; assumption|exact Hs].
      * rewrite List.Forall_forall in Hy |- *. intros z Hz.
        apply insert_sorted_In in Hz as [->|Hz]; [|apply Hy, Hz].
        apply H2; [left; reflexivity|exact E].
Qed.

Lemma sort_by_strongly {A} (le : A -> A -> bool) (R : A -> A -> Prop) l :
  (forall a b c, R a b -> R b c -> R a c) ->
  (forall a b, In a l -> In b l -> le a b = true -> R a b) ->
  (forall a b, In a l -> In b l -> le a b = false -> R b a) ->
  StronglySorted R (sort_by le l).
Proof.
  intros Htr. induction l as [|x l IH]; intros H1 H2; simpl.
  - constructor.
  - apply insert_sorted_strongly; [exact Htr| | |].
    + intros b Hb. apply sort_by_In in Hb. apply H1; [left|right]; auto.
    + intros b Hb. apply sort_by_In in Hb. apply H2; [left|right]; auto.
    + apply IH; intros; [apply H1|apply H2]; auto; right; assumption.
Qed.

Lemma comparable_kind l a b :
  comparable l = true -> In a l -> In b l ->
  (is_num a = true /\ is_num b = true) \/ (is_str a = true /\ is_str b = true).
Proof.
  unfold comparable. intros H Ha Hb.
  apply orb_true_iff in H as [H|H]; rewrite forallb_forall in H;
    [left|right]; split; apply H; assumption.
Qed.

(** The rows that [sort_values] puts first are in the order of their keys;
    the rows whose key is missing follow. *)
Lemma sort_values_sorted c F F' i :
  Frame.index_of c (Frame.columns F) = Some i ->
  Frame.sort_values c F = Ok F' ->
  exists present missing,
    Frame.rows F' = present ++ missing /\
    StronglySorted (fun r1 r2 => name_le (Frame.cell i r1) (Frame.cell i r2))
                   present /\
    Forall (fun r => Frame.cell i r <> VNull) present /\
    Forall (fun r => Frame.cell i r = VNull) missing.
Proof.
  intros Hi H. unfold Frame.sort_values in H. rewrite Hi in H.
  set (pres := List.filter (fun r => negb (is_null (Frame.cell i r)))
                           (Frame.rows F)) in *.
  destruct (_ || _) eqn:Hc; [|discriminate]. injection H as <-.
  eexists _, _. split; [reflexivity|]. split; [|split].
  - apply orb_true_iff in Hc as [Hc|Hc].
    + apply sort_by_strongly.
      * intros a b d. apply name_le_trans.
      * intros a b Ha Hb E. apply leb_scalar_name_le; [exact E|].
        eapply comparable_kind; [exact Hc| |]; apply in_map; assumption.
      * intros a b _ _ E. apply leb_scalar_false, E.
    + apply bool_decide_eq_true_1 in Hc.
      destruct pres as [|r [|r' pres]]; simpl in Hc; try lia; simpl.
      * constructor.
      * constructor; constructor.
  - apply List.Forall_forall. intros r Hr. apply sort_by_In in Hr.
    apply filter_In in Hr as [_ Hr]. intros E. rewrite E in Hr. discriminate.
  - apply List.Forall_forall. intros r Hr.
    apply filter_In in Hr as [_ Hr]. destruct (Frame.cell i r); try discriminate.
    reflexivity.
Qed.

Lemma StronglySorted_Forall2 {A B} (P : A -> B -> Prop)
    (R : A -> A -> Prop) (R' : B -> B -> Prop) l l' :
  (forall a a' b b', P a a' -> P b b' -> R a b -> R' a' b') ->
  Forall2 P l l' -> StronglySorted R l -> StronglySorted R' l'.
Proof.
  intros HR H. induction H as [|a a' l l' Ha H IH]; intros Hs.
  - constructor.
  - apply StronglySorted_inv in Hs as [Hs Hall]. constructor; [auto|].
    clear IH Hs. induction H as [|b b' l l' Hb H IH]; [constructor|].
    apply List.Forall_cons_iff in Hall as [Hab Hall].
    constructor; [eapply HR; eassumption|auto].
Qed.

Lemma Forall_Forall2_r {A B} (P : A -> B -> Prop) (Q : A -> Prop)
    (Q' : B -> Prop) l l' :
  (forall a b, P a b -> Q a -> Q' b) ->
  Forall2 P l l' -> Forall Q l -> Forall Q' l'.
Proof.
  intros HQ H. induction H as [|a b l l' Hab H IH]; intros Hl.
  - constructor.
  - apply List.Forall_cons_iff in Hl as [Ha Hl]. constructor; eauto.
Qed.

(** The pairs read off sorted rows: first the named ones, by name, then
    the ones without a name. *)
Lemma listing_order a b body F l :
  a <> b ->
  Frame.sort_values (VStr b) (Frame.Df [VStr a; VStr b] body) = Ok F ->
  id_name_pairs F = Ok l ->
  exists named unnamed,
    l = named ++ unnamed /\ by_name named /\
    Forall (fun p => snd p <> VNull) named /\
    Forall (fun p => snd p = VNull) unnamed.
Proof.
  intros Hab Hs Hp.
  assert (Hi : Frame.index_of (VStr b) (Frame.columns
                                          (Frame.Df [VStr a; VStr b] body))
               = Some 1%nat).
  { cbn [Frame.columns Frame.index_of].
    rewrite (eqb_scalar_VStr_ne b a) by congruence.
    rewrite eqb_scalar_refl. reflexivity. }
  destruct (sort_values_sorted _ _ _ _ Hi Hs)
    as (present & missing & Hrows & Hsorted & Hpres & Hmiss).
  unfold id_name_pairs in Hp. rewrite Hrows in Hp.
  apply rmap_Forall2 in Hp.
  apply Forall2_app_inv_l in Hp as (k1 & k2 & H1 & H2 & ->).
  assert (Hsnd : forall (r : list Value) (p : Z * Value),
             (let* n := int_of (Frame.cell 0 r) in Ok (n, Frame.cell 1 r))
             = Ok p -> snd p = Frame.cell 1 r).
  { intros r p E. destruct (int_of (Frame.cell 0 r)); [|discriminate].
    injection E as <-. reflexivity. }
  exists k1, k2. split; [reflexivity|]. split; [|split].
  - unfold by_name. eapply StronglySorted_Forall2; [|exact H1|exact Hsorted].
    intros r p r' p' E E' Hle. simpl in Hle.
    rewrite (Hsnd _ _ E), (Hsnd _ _ E'). exact Hle.
  - eapply Forall_Forall2_r; [|exact H1|exact Hpres].
    intros r p E Hr. simpl in Hr. rewrite (Hsnd _ _ E). exact Hr.
  - eapply Forall_Forall2_r; [|exact H2|exact Hmiss].
    intros r p E Hr. simpl in Hr. rewrite (Hsnd _ _ E). exact Hr.
Qed.

(** A child listing is ordered by name, the pairs without a name last. *)
Lemma list_children_order parent idc namec p df l :
  idc <> namec ->
  list_children parent idc namec p df = Ok l ->
  exists named unnamed,
    l = named ++ unnamed /\ by_name named /\
    Forall (fun p => snd p <> VNull) named /\
    Forall (fun p => snd p = VNull) unnamed.
Proof.
  intros Hne H. unfold list_children in H.
  apply rbind_ok in H as (scoped & _ & H).
  apply rbind_ok in H as (sub & Hsel & H).
  pose proof (select_aligned _ _ _ Hsel) as [Hc _].
  destruct sub as [sc srows]. cbn [Frame.columns] in Hc. subst sc.
  apply rbind_ok in H as (s1 & H1 & H).
  apply rbind_ok in H as (s2 & H2 & H).
  apply rbind_ok in H as (F & Hsort & Hpairs).
  unfold Frame.drop_duplicates in H1. cbn [Frame.columns Frame.rows] in H1.
  rewrite dropna_first in H1. injection H1 as <-.
  unfold Frame.map_col in H2. apply rbind_ok in H2 as (body & _ & H2).
  injection H2 as <-. cbn [Frame.columns Frame.rows] in Hsort.
  eapply listing_order; eassumption.
Qed.

(** [get_states] is ordered by name, and every pair has a name. *)
Lemma get_states_order df l :
  get_states df = Ok l ->
  by_name l /\ Forall (fun p => snd p <> VNull) l.
Proof.
  intros H.
  destruct (get_states_scope df l H) as [(_ & _ & ->)|(i & j & _ & _ & S & _)];
    [split; constructor|].
  assert (Hnn : Forall (fun p : Z * Value => snd p <> VNull) l).
  { apply List.Forall_forall. intros [n v] Hin.
    destruct (S n v Hin) as (r & _ & _ & _ & ->). simpl.
    destruct (Frame.cell j r); discriminate. }
  split; [|exact Hnn].
  unfold get_states in H.
  destruct (_ && _); [injection H as <-; constructor|].
  apply rbind_ok in H as (sub & Hsel & H).
  pose proof (select_aligned _ _ _ Hsel) as [Hc _].
  destruct sub as [sc srows]. cbn [Frame.columns] in Hc. subst sc.
  apply rbind_ok in H as (s1 & H1 & H).
  apply rbind_ok in H as (s2 & H2 & H).
  apply rbind_ok in H as (F & Hsort & Hpairs).
  unfold Frame.drop_duplicates in H1. cbn [Frame.columns Frame.rows] in H1.
  rewrite dropna_first in H1. injection H1 as <-.
  unfold Frame.map_col in H2. apply rbind_ok in H2 as (body & _ & H2).
  injection H2 as <-. cbn [Frame.columns Frame.rows] in Hsort.
  destruct (listing_order "state_id" "state_name" _ _ _ ltac:(discriminate)
              Hsort Hpairs) as (named & unnamed & -> & Hs & _ & Hun).
  apply Forall_app in Hnn as [_ Hnn].
  destruct unnamed as [|p unnamed]; [rewrite List.app_nil_r; exact Hs|].
  apply List.Forall_cons_iff in Hnn as [Hp _].
  apply List.Forall_cons_iff in Hun as [Hp' _]. contradiction.
Qed.

(** *** Filtering and scoping compose *)

Lemma passes_all_columns s l w p df df' :
  Frame.columns df' = Frame.columns df ->
  passes_all s l w p df' = passes_all s l w p df.
Proof. intros H. unfold passes_all, passes. rewrite H. reflexivity. Qed.

(** Two filterings in a row keep the rows that pass both. *)
Lemma filter_results_twice df s l w p s' l' w' p' :
  (let* out := filter_results df s l w p in filter_results out s' l' w' p')
  = Ok (Frame.Df (Frame.columns df)
          (List.filter (fun r => passes_all s l w p df r
                                 && passes_all s' l' w' p' df r)
                       (Frame.rows df))).
Proof.
  rewrite filter_results_rows. cbn [rbind]. rewrite filter_results_rows.
  cbn [Frame.columns Frame.rows]. rewrite filter_filter_and.
  do 2 f_equal.
Qed.

Lemma passes_none c df r : passes c None df r = true.
Proof. reflexivity. Qed.

(** Scoping a child listing is filtering first. *)
Lemma list_children_filtered parent idc namec v df :
  Frame.has (VStr parent) df = true ->
  list_children parent idc namec (Some v) df
  = let* out := narrow parent (Some v) df in
    list_children parent idc namec None out.
Proof.
  intros Hh. unfold narrow. rewrite Hh. unfold rows_equal, list_children.
  destruct (Frame.col (VStr parent) df); reflexivity.
Qed.

Lemma rbind_ret {A} (m : result A) : (let* x := m in Ok x) = m.
Proof. destruct m; reflexivity. Qed.

Lemma filter_results_state df v :
  filter_results df (Some v) None None None = narrow "state_id" (Some v) df.
Proof.
  unfold filter_results. cbv zeta.
  destruct (narrow "state_id" (Some v) df); reflexivity.
Qed.

Lemma filter_results_lga df v :
  filter_results df None (Some v) None None = narrow "lga_id" (Some v) df.
Proof.
  unfold filter_results. cbv zeta.
  change (narrow "state_id" None df) with (Ok df). cbn [rbind].
  change (fun out => let* out0 := narrow "ward_id" None out in
                     narrow "polling_unit_uniqueid" None out0)
    with (fun out : Frame.t => Ok out).
  apply rbind_ret.
Qed.

(** A listing without its columns. *)
Lemma list_children_missing parent idc namec p df :
  (p <> None -> Frame.has (VStr parent) df = true) ->
  Frame.has (VStr idc) df = false \/ Frame.has (VStr namec) df = false ->
  exists k, list_children parent idc namec p df = Err (KeyError k).
Proof.
  intros Hp Hm. unfold list_children.
  destruct (match p with None => Ok df | Some _ => _ end) as [scoped|e] eqn:E.
  - apply scoped_rows in E as [Hc _]. cbn [rbind].
    destruct (select_two_missing idc namec scoped) as [k Hk].
    { rewrite Hc. destruct Hm as [Hm|Hm]; apply has_false in Hm; auto. }
    exists k. rewrite Hk. reflexivity.
  - destruct p as [v|]; [|discriminate].
    destruct (has_true _ _ (Hp ltac:(discriminate))) as [i Hi].
    unfold Frame.col in E. rewrite Hi in E. discriminate.
Qed.

Lemma list_children_no_parent parent idc namec v df :
  Frame.has (VStr parent) df = false ->
  list_children parent idc namec (Some v) df = Err (KeyError parent).
Proof.
  intros H. apply has_false in H. unfold list_children, Frame.col.
  rewrite H. reflexivity.
Qed.

(** *** Adding a polling unit *)

Lemma rmap_id {A} (f : A -> result A) l :
  (forall a, In a l -> f a = Ok a) -> rmap f l = Ok l.
Proof.
  induction l as [|a l IH]; intros H; simpl; [reflexivity|].
  rewrite (H a (or_introl eq_refl)). cbn [rbind].
  rewrite IH by (intros; apply H; right; assumption). reflexivity.
Qed.

Lemma is_known_eqb c c' : eqb_scalar c c' = true -> is_known c = is_known c'.
Proof.
  intros E. unfold is_known. induction known as [|k ks IH]; simpl;
    [reflexivity|].
  rewrite IH. f_equal.
  destruct (eqb_scalar c (VStr k)) eqn:E1, (eqb_scalar c' (VStr k)) eqn:E2;
    try reflexivity.
  - rewrite (eqb_scalar_trans _ _ _ (eqb_scalar_sym _ _ E) E1) in E2.
    discriminate.
  - rewrite (eqb_scalar_trans _ _ _ E E2) in E1. discriminate.
Qed.

Lemma map_col_id cs c F :
  In c cs -> ints_under cs F ->
  Frame.map_col Frame.fillna0_astype_int c F = Ok F.
Proof.
  intros Hc HF. unfold Frame.map_col.
  rewrite rmap_id; [destruct F; reflexivity|].
  intros r Hr. unfold ints_under in HF. rewrite List.Forall_forall in HF.
  specialize (HF r Hr). clear Hr.
  induction HF as [|l v cols r' Hlv HF IH]; simpl; [reflexivity|].
  rewrite IH. destruct (eqb_scalar l c) eqn:E; [|reflexivity].
  assert (Hv : is_int v = true).
  { apply Hlv. apply existsb_exists. exists c. split; assumption. }
  destruct v; try discriminate Hv. reflexivity.
Qed.

(** The coercion loop leaves a table alone whose cells under the coerced
    labels are integers already. *)
Lemma coerce_party_columns_id cs F :
  ints_under cs F -> coerce_party_columns cs F = Ok F.
Proof.
  intros HF. unfold coerce_party_columns.
  assert (G : forall cs', (forall c, In c cs' -> In c cs) ->
            fold_left
              (fun acc c =>
                 let* df := acc in
                 Frame.map_col Frame.fillna0_astype_int c df) cs' (Ok F)
            = Ok F).
  { induction cs' as [|c cs' IH]; intros Hsub; simpl; [reflexivity|].
    rewrite (map_col_id cs c F) by (auto; apply Hsub; left; reflexivity).
    apply IH. intros; apply Hsub; right; assumption. }
  apply G. auto.
Qed.

Lemma party_label c cols :
  existsb (eqb_scalar c) (List.filter (fun c => negb (is_known c)) cols) = true
  -> is_known c = false.
Proof.
  intros H. apply existsb_exists in H as (c' & Hc' & E).
  apply filter_In in Hc' as [_ Hk]. rewrite (is_known_eqb _ _ E).
  destruct (is_known c'); [discriminate|reflexivity].
Qed.

Lemma add_polling_unit_exact df pu_row :
  party_cells_int df -> party_values_int df pu_row ->
  add_polling_unit_to_df df pu_row
  = Ok (Frame.Df (Frame.columns df)
          (Frame.rows df ++ [map (new_cell pu_row) (Frame.columns df)])).
Proof.
  intros Hdf Hrow. unfold add_polling_unit_to_df. cbv zeta.
  apply coerce_party_columns_id. unfold ints_under, party_cells_int in *.
  cbn [Frame.columns Frame.rows]. apply Forall_app. split.
  - eapply List.Forall_impl; [|exact Hdf]. intros r Hr.
    eapply Forall2_impl; [exact Hr|]. intros c v Hcv Hin. cbv beta in Hcv.
    apply Hcv, (party_label _ _ Hin).
  - constructor; [|constructor].
    assert (G : forall cols,
              (forall c, In c cols -> In c (Frame.columns df)) ->
              Forall2 (int_under
                         (List.filter (fun c => negb (is_known c))
                                      (Frame.columns df)))
                      cols (map (new_cell pu_row) cols)).
    { induction cols as [|c cols IH]; intros Hsub; simpl; constructor.
      - intros Hin. apply party_label in Hin. unfold new_cell.
        destruct (row_lookup c pu_row) as [v|] eqn:E.
        + eapply Hrow; [apply Hsub; left; reflexivity|exact Hin|exact E].
        + rewrite Hin. reflexivity.
      - apply IH. intros; apply Hsub; right; assumption. }
    apply G. auto.
Qed.

Lemma filter_none {A} (p : A -> bool) l :
  (forall a, In a l -> p a = false) -> List.filter p l = [].
Proof.
  induction l as [|a l IH]; intros H; simpl; [reflexivity|].
  rewrite (H a (or_introl eq_refl)). apply IH.
  intros; apply H; right; assumption.
Qed.

(** Looking the added unit up by its identifier. *)
Lemma added_unit_found df pu_row n i :
  party_cells_int df -> party_values_int df pu_row ->
  Frame.index_of (VStr "polling_unit_uniqueid") (Frame.columns df) = Some i ->
  pu_row !! "polling_unit_uniqueid" = Some (VInt n) ->
  (forall r, In r (Frame.rows df) ->
             eqb_elem (Frame.cell i r) (VInt n) = false) ->
  (let* df' := add_polling_unit_to_df df pu_row in
   filter_results df' None None None (Some n))
  = Ok (Frame.Df (Frame.columns df)
          [map (new_cell pu_row) (Frame.columns df)]).
Proof.
  intros Hdf Hrow Hi Hn Hfresh.
  rewrite add_polling_unit_exact by assumption. cbn [rbind].
  rewrite filter_results_rows. cbn [Frame.columns Frame.rows].
  do 2 f_equal. rewrite List.filter_app.
  assert (Hp : forall r,
             passes_all None None None (Some n)
               (Frame.Df (Frame.columns df)
                  (Frame.rows df ++ [map (new_cell pu_row) (Frame.columns df)]))
               r = eqb_elem (Frame.cell i r) (VInt n)).
  { intros r. unfold passes_all, passes. cbn [Frame.columns].
    rewrite Hi. reflexivity. }
  rewrite filter_none by (intros r Hr; rewrite Hp; auto).
  simpl. rewrite Hp.
  rewrite (cell_map_any (new_cell pu_row) _ i (VStr "polling_unit_uniqueid"))
    by (eapply index_of_VStr_cell, Hi).
  unfold new_cell, row_lookup. rewrite Hn.
  assert (E : eqb_elem (VInt n) (VInt n) = true)
    by (unfold eqb_elem; rewrite eqb_scalar_refl; reflexivity).
  rewrite E. reflexivity.
Qed.

Lemma Forall2_In_l {A B} (P : A -> B -> Prop) l l' x :
  Forall2 P l l' -> In x l -> exists y, In y l' /\ P x y.
Proof.
  induction 1 as [|a b l l' Hab H IH]; intros Hx; [destruct Hx|].
  destruct Hx as [<-|Hx]; [exists b; split; [left; reflexivity|exact Hab]|].
  destruct (IH Hx) as (y & Hy & Hp). exists y. split; [right|]; assumption.
Qed.

Lemma In_combine_lookup {A B} (l : list A) (l' : list B) k a b :
  l !! k = Some a -> l' !! k = Some b -> In (a, b) (combine l l').
Proof.
  revert l' k. induction l as [|x l IH]; intros [|y l'] [|k] Ha Hb;
    try discriminate; simpl in *.
  - left. congruence.
  - right. eapply IH; eassumption.
Qed.

Lemma cell_lookup_lt k (r : list Value) :
  (k < length r)%nat -> r !! k = Some (Frame.cell k r).
Proof.
  revert k. induction r as [|x r IH]; intros [|k] H; simpl in *; try lia;
    [reflexivity|]. apply IH. lia.
Qed.

(** When the coercion loop returns, every cell under a coerced label was
    convertible. *)
Lemma coerce_party_columns_convertible cs : forall F F',
  aligned F -> coerce_party_columns cs F = Ok F' ->
  forall r k c, In r (Frame.rows F) -> Frame.columns F !! k = Some c ->
    existsb (eqb_scalar c) cs = true ->
    exists v, Frame.fillna0_astype_int (Frame.cell k r) = Ok v.
Proof.
  unfold coerce_party_columns.
  induction cs as [|c0 cs IH]; intros F F' HF H r k c Hr Hk Hc;
    [discriminate|].
  simpl in H, Hc.
  destruct (Frame.map_col Frame.fillna0_astype_int c0 F) as [F1|e] eqn:E1;
    [|rewrite fold_err in H; discriminate].
  destruct (eqb_scalar c c0) eqn:Ec.
  - unfold Frame.map_col in E1. apply rbind_ok in E1 as (body & Hb & _).
    apply rmap_In in Hb as [_ Hb]. destruct (Hb r Hr) as (r1 & _ & Hr1).
    apply rmap_In in Hr1 as [_ Hr1].
    destruct (Hr1 (c, Frame.cell k r)) as (v & _ & Hv).
    { eapply In_combine_lookup; [exact Hk|]. apply cell_lookup_lt.
      unfold aligned in HF. rewrite List.Forall_forall in HF.
      rewrite (HF r Hr). eapply lookup_lt_Some, Hk. }
    simpl in Hv. rewrite Ec in Hv. eauto.
  - simpl in Hc.
    destruct (map_col_cells _ _ _ HF E1) as (Hc1 & Ha1 & Hrel).
    destruct (Forall2_In_l _ _ _ _ Hrel Hr) as (r1 & Hr1 & _ & Hcells).
    destruct (Hcells k c Hk) as [Hkeep _].
    rewrite <- Hkeep by (simpl; rewrite Ec; reflexivity).
    eapply (IH F1 F' Ha1 H r1 k c Hr1); [rewrite Hc1; exact Hk|exact Hc].
Qed.

Lemma int_of_error v e : int_of v = Err e -> exists msg, e = ValueError msg.
Proof.
  destruct v; simpl; try discriminate; [intros [= <-]; eauto|].
  destruct (Py.int_of_string s); [discriminate|intros [= <-]; eauto].
Qed.

Lemma rmap_error {A B} (f : A -> result B) (P : error -> Prop) l e :
  (forall a e, f a = Err e -> P e) -> rmap f l = Err e -> P e.
Proof.
  intros Hf. induction l as [|a l IH]; simpl; [discriminate|].
  destruct (f a) as [b|e'] eqn:E; cbn [rbind];
    [|intros [= <-]; eapply Hf, E].
  destruct (rmap f l); cbn [rbind]; [discriminate|].
  intros [= <-]. apply IH. reflexivity.
Qed.

Lemma map_col_error c F e :
  Frame.map_col Frame.fillna0_astype_int c F = Err e ->
  exists msg, e = ValueError msg.
Proof.
  unfold Frame.map_col. intros H.
  destruct (rmap _ (Frame.rows F)) as [b|e'] eqn:E; [discriminate|].
  injection H as <-.
  eapply (rmap_error _ (fun e => exists msg, e = ValueError msg)); [|exact E].
  intros r e1 Hr.
  eapply (rmap_error _ (fun e => exists msg, e = ValueError msg)); [|exact Hr].
  intros [l v] e2. simpl.
  destruct (eqb_scalar l c); [|discriminate].
  unfold Frame.fillna0_astype_int. destruct v; try discriminate;
    destruct (int_of _) eqn:E'; try discriminate; intros [= <-];
    eapply int_of_error, E'.
Qed.

Lemma coerce_party_columns_error cs : forall F e,
  coerce_party_columns cs F = Err e -> exists msg, e = ValueError msg.
Proof.
  unfold coerce_party_columns.
  induction cs as [|c cs IH]; intros F e H; simpl in H; [discriminate|].
  destruct (Frame.map_col Frame.fillna0_astype_int c F) as [F1|e1] eqn:E1.
  - eapply IH, H.
  - rewrite fold_err in H. injection H as <-. eapply map_col_error, E1.
Qed.

(** A party column given a text that is no integer literal. *)
Lemma add_polling_unit_bad_party df pu_row c s :
  aligned df -> In c (Frame.columns df) -> is_known c = false ->
  row_lookup c pu_row = Some (VStr s) -> Py.int_of_string s = None ->
  exists msg, add_polling_unit_to_df df pu_row = Err (ValueError msg).
Proof.
  intros Hal Hc Hk Hrow Hs. unfold add_polling_unit_to_df. cbv zeta.
  set (new_df := Frame.Df _ _).
  destruct (coerce_party_columns _ new_df) as [df'|e] eqn:E;
    [|destruct (coerce_party_columns_error _ _ _ E) as [msg ->]; eauto].
  exfalso. apply list_elem_of_In, list_elem_of_lookup in Hc as [k Hk'].
  assert (Hal' : aligned new_df).
  { unfold aligned, new_df. cbn [Frame.rows Frame.columns].
    apply Forall_app. split; [exact Hal|].
    constructor; [apply length_map|constructor]. }
  destruct (coerce_party_columns_convertible _ _ _ Hal' E
              (map (new_cell pu_row) (Frame.columns df)) k c) as [v Hv].
  - unfold new_df. cbn [Frame.rows]. apply in_or_app. right. left. reflexivity.
  - exact Hk'.
  - apply existsb_exists. exists c. split; [|apply eqb_scalar_refl].
    apply filter_In. split; [|rewrite Hk; reflexivity].
    unfold new_df. cbn [Frame.columns]. eapply list_elem_of_In, list_elem_of_lookup_2, Hk'.
  - rewrite (cell_map_any (new_cell pu_row) _ k c Hk') in Hv.
    unfold new_cell in Hv. rewrite Hrow in Hv. simpl in Hv.
    rewrite Hs in Hv. discriminate.
Qed.

(** *** The state mapping *)

Lemma eqb_scalar_VInt a b : eqb_scalar (VInt a) (VInt b) = true <-> a = b.
Proof.
  split; [|intros ->; apply eqb_scalar_refl].
  intros H. apply eqb_scalar_num in H
    as [[H _]|[(s & H & _)|(x & y & Hx & Hy & E)]]; try discriminate.
  injection Hx as <-. injection Hy as <-. apply dcompare_eq in E.
  simpl in E. lia.
Qed.

Lemma int_keyed_fold items : forall (acc m : gmap Z Value),
  fold_left
    (fun acc kv =>
       let* m := acc in
       let* k := int_of (fst kv) in
       Ok (<[k := snd kv]> m)) items (Ok acc) = Ok m ->
  forall n v, m !! n = Some v ->
    acc !! n = Some v \/ exists key, In (key, v) items /\ int_of key = Ok n.
Proof.
  induction items as [|[key val] items IH]; intros acc m H n v Hm;
    simpl in H.
  - injection H as <-. auto.
  - destruct (int_of key) as [k|e] eqn:Ek; simpl in H.
    + destruct (IH _ _ H n v Hm) as [Hacc|(key' & Hin & Hk)].
      * destruct (decide (k = n)) as [->|Hne].
        -- rewrite lookup_insert_eq in Hacc. injection Hacc as ->.
           right. exists key. split; [left; reflexivity|exact Ek].
        -- rewrite lookup_insert_ne in Hacc by exact Hne. auto.
      * right. exists key'. split; [right; exact Hin|exact Hk].
    + exfalso. clear -H. induction items as [|kv items IH]; simpl in H;
        [discriminate|auto].
Qed.

Lemma int_keyed_ints items : forall acc : gmap Z Value,
  Forall (fun kv => is_int (fst kv) = true) items ->
  NoDup (map fst items) ->
  exists m : gmap Z Value,
    fold_left
      (fun acc kv =>
         let* m := acc in
         let* k := int_of (fst kv) in
         Ok (<[k := snd kv]> m)) items (Ok acc) = Ok m /\
    forall n, (forall v, In (VInt n, v) items -> m !! n = Some v) /\
              ((forall v, ~ In (VInt n, v) items) -> m !! n = acc !! n).
Proof.
  induction items as [|[key val] items IH]; intros acc Hint Hnd; simpl.
  - exists acc. split; [reflexivity|]. intros n. split; [intros v []|auto].
  - apply List.Forall_cons_iff in Hint as [Hk Hint]. simpl in Hk.
    destruct key as [|k| |]; try discriminate Hk. simpl.
    simpl in Hnd. apply NoDup_cons in Hnd as [Hfresh Hnd].
    rewrite list_elem_of_In in Hfresh.
    destruct (IH (<[k := val]> acc) Hint Hnd) as (m & Hm & Hlook).
    exists m. split; [exact Hm|]. intros n. split.
    + intros v [E|Hin]; [|apply (proj1 (Hlook n)), Hin].
      injection E as <- <-. rewrite (proj2 (Hlook k)).
      * apply lookup_insert_eq.
      * intros v Hin. apply Hfresh.
        apply (in_map fst) in Hin. exact Hin.
    + intros Hno. rewrite (proj2 (Hlook n)).
      * apply lookup_insert_ne. intros ->. apply (Hno val). left. reflexivity.
      * intros v Hin. apply (Hno v). right. exact Hin.
Qed.

(** An explicit mapping with integer keys is returned as it is. *)
Lemma explicit_mapping_returned sql_text mapping_csv items :
  items <> [] ->
  Forall (fun kv => is_int (fst kv) = true) items ->
  NoDup (map fst items) ->
  exists m,
    _load_state_mapping sql_text mapping_csv (Some items) = Ok m /\
    forall n v, m !! n = Some v <-> In (VInt n, v) items.
Proof.
  intros Hne Hint Hnd. unfold _load_state_mapping.
  destruct items as [|kv items]; [congruence|].
  destruct (int_keyed_ints (kv :: items) ∅ Hint Hnd) as (m & Hm & Hlook).
  exists m. split; [exact Hm|]. intros n v. split.
  - intros H. destruct (int_keyed_fold _ _ _ Hm n v H)
      as [H0|(key & Hin & Hk)]; [rewrite lookup_empty in H0; discriminate|].
    rewrite List.Forall_forall in Hint. specialize (Hint _ Hin). simpl in Hint.
    destruct key; try discriminate Hint. simpl in Hk. injection Hk as ->.
    exact Hin.
  - apply (proj1 (Hlook n)).
Qed.


Lemma sorted_ints l :
  Forall (fun v => is_int v = true) l ->
  exists l', sorted l = Ok l' /\ forall x, In x l' <-> In x l.
Proof.
  intros H. unfold sorted. destruct l as [|x [|y l]].
  - eexists. split; [reflexivity|tauto].
  - eexists. split; [reflexivity|tauto].
  - assert (Hc : comparable (x :: y :: l) = true).
    { unfold comparable. apply orb_true_iff. left. apply forallb_forall.
      rewrite List.Forall_forall in H. intros v Hv. specialize (H v Hv).
      destruct v; try discriminate. reflexivity. }
    rewrite Hc. eexists. split; [reflexivity|]. intros v. apply sort_by_In.
Qed.

Lemma fallback_fold l :
  Forall (fun v => is_int v = true) l ->
  forall acc : gmap Z Value,
  exists m : gmap Z Value,
    fold_left
      (fun acc sid =>
         let* m := acc in
         let* n := int_of sid in
         Ok (<[n := VStr ("State " +:+ Py.str_of_int n)]> m)) l (Ok acc)
    = Ok m /\
    forall n, (In (VInt n) l -> m !! n = Some (fallback_name n)) /\
              (~ In (VInt n) l -> m !! n = acc !! n).
Proof.
  induction 1 as [|v l Hv Hl IH]; intros acc; simpl.
  - exists acc. split; [reflexivity|]. intros n. split; [intros []|auto].
  - destruct v as [|k| |]; try discriminate Hv. simpl.
    destruct (IH (<[k := VStr ("State " +:+ Py.str_of_int k)]> acc))
      as (m & Hm & Hlook).
    exists m. split; [exact Hm|]. intros n.
    destruct (In_dec Value_eq_dec (VInt n) l) as [Hin|Hnin].
    + split; [intros _; apply (proj1 (Hlook n)), Hin|].
      intros Hno. exfalso. apply Hno. right. exact Hin.
    + rewrite (proj2 (Hlook n) Hnin). split.
      * intros [E|Hin]; [|contradiction]. injection E as ->.
        apply lookup_insert_eq.
      * intros Hno. apply lookup_insert_ne. intros ->. apply Hno.
        left. reflexivity.
Qed.

Lemma distinct_ids sids n :
  ints_or_missing sids ->
  Forall (fun v => is_int v = true)
         (dedup eqb_scalar (List.filter (fun v => negb (is_null v)) sids)) /\
  (In (VInt n)
      (dedup eqb_scalar (List.filter (fun v => negb (is_null v)) sids))
   <-> In (VInt n) sids).
Proof.
  intros H. unfold ints_or_missing in H. rewrite List.Forall_forall in H.
  assert (Hint : forall v,
             In v (dedup eqb_scalar
                     (List.filter (fun v => negb (is_null v)) sids)) ->
             is_int v = true).
  { intros v Hv. apply dedup_from_In in Hv. apply filter_In in Hv as [Hv Hn].
    destruct (H v Hv) as [Hi| ->]; [exact Hi|discriminate]. }
  split; [apply List.Forall_forall, Hint|]. split.
  - intros Hin. apply dedup_from_In in Hin. apply filter_In in Hin. tauto.
  - intros Hin.
    destruct (dedup_from_complete
                (List.filter (fun v => negb (is_null v)) sids) [] (VInt n))
      as [(y & [] & _)|(y & Hy & E)].
    { apply filter_In. split; [exact Hin|reflexivity]. }
    pose proof (Hint y Hy) as Hi. destruct y; try discriminate Hi.
    apply eqb_scalar_VInt in E. subst. exact Hy.
Qed.

Lemma load_one_table sql_text name df :
  load_table sql_text name = Ok df ->
  load_tables_from_sql sql_text [name] = Ok [(name, df)].
Proof.
  intros H. unfold load_tables_from_sql. cbn [fold_left rbind].
  rewrite H. reflexivity.
Qed.

Lemma tables_get_one name (df : Frame.t) : tables_get name [(name, df)] = df.
Proof. unfold tables_get. simpl. rewrite String.eqb_refl. reflexivity. Qed.

(** The fallback of the state mapping: the states of the [lga] table under
    generated names, and the override of id 25. *)
Lemma fallback_mapping sql_text st lga :
  load_table sql_text "state" = Ok st ->
  Frame.empty st = true \/ find_col "id" (Frame.columns st) = None
  \/ find_col "name" (Frame.columns st) = None ->
  load_table sql_text "lga" = Ok lga ->
  (Frame.empty lga = true \/ Frame.has (VStr "state_id") lga = false ->
   _load_state_mapping sql_text None None
   = Ok {[ 25 := VStr "Delta State" ]}) /\
  (forall sids,
     Frame.empty lga = false ->
     Frame.col (VStr "state_id") lga = Ok sids ->
     ints_or_missing sids ->
     exists m,
       _load_state_mapping sql_text None None = Ok m /\
       m !! 25 = Some (VStr "Delta State") /\
       forall n, n <> 25 ->
         (In (VInt n) sids -> m !! n = Some (fallback_name n)) /\
         (~ In (VInt n) sids -> m !! n = None)).
Proof.
  intros Hst Hno Hlga.
  assert (Hbody : _load_state_mapping sql_text None None
                  = let* mapping :=
                      if negb (Frame.empty lga)
                         && Frame.has (VStr "state_id") lga then
                        let* sids := Frame.col (VStr "state_id") lga in
                        let* sids :=
                          sorted (dedup eqb_scalar
                                    (List.filter (fun v => negb (is_null v))
                                                 sids)) in
                        fold_left
                          (fun acc sid =>
                             let* m := acc in
                             let* n := int_of sid in
                             Ok (<[n := VStr ("State " +:+ Py.str_of_int n)]> m))
                          sids (Ok ∅)
                      else Ok ∅ in
                    Ok (<[25 := VStr "Delta State"]> mapping)).
  { unfold _load_state_mapping, state_mapping_from_sql.
    rewrite (load_one_table _ _ _ Hst). cbn [rbind]. cbv zeta.
    rewrite tables_get_one.
    assert (Hf : (if Frame.empty st then None
                  else match find_col "id" (Frame.columns st),
                             find_col "name" (Frame.columns st) with
                       | Some id_col, Some name_col => Some (id_col, name_col)
                       | _, _ => None
                       end) = None).
    { destruct (Frame.empty st); [reflexivity|].
      destruct Hno as [Hno|[Hno|Hno]]; [discriminate| |]; rewrite Hno;
        [reflexivity|]. destruct (find_col "id" _); reflexivity. }
    rewrite Hf. rewrite (load_one_table _ _ _ Hlga). cbn [rbind].
    rewrite tables_get_one. reflexivity. }
  rewrite Hbody. clear Hbody. split.
  - intros [He|Hh]; [rewrite He|rewrite Hh, andb_false_r]; reflexivity.
  - intros sids He Hc Hints. rewrite He. cbn [negb andb].
    assert (Hh : Frame.has (VStr "state_id") lga = true).
    { unfold Frame.col in Hc.
      destruct (Frame.index_of _ _) eqn:E; [|discriminate].
      eapply has_index, E. }
    rewrite Hh, Hc. cbn [rbind].
    destruct (sorted_ints _ (proj1 (distinct_ids sids 0 Hints)))
      as (l' & Hs & Hl').
    rewrite Hs. cbn [rbind].
    assert (Hint' : Forall (fun v => is_int v = true) l').
    { apply List.Forall_forall. intros v Hv. apply Hl' in Hv.
      revert v Hv. apply List.Forall_forall.
      exact (proj1 (distinct_ids sids 0 Hints)). }
    destruct (fallback_fold l' Hint' ∅) as (m & Hm & Hlook).
    rewrite Hm. cbn [rbind]. eexists. split; [reflexivity|].
    split; [apply lookup_insert_eq|]. intros n Hn.
    rewrite lookup_insert_ne by congruence. split.
    + intros Hin. apply (proj1 (Hlook n)). apply Hl'.
      apply (distinct_ids sids n Hints), Hin.
    + intros Hnin. rewrite (proj2 (Hlook n)); [apply lookup_empty|].
      intros Hin. apply Hnin. apply Hl' in Hin.
      apply (distinct_ids sids n Hints), Hin.
Qed.

Lemma find_col_snoc word cols c :
  find_col word (cols ++ [c])
  = if mentions word c then Some c else find_col word cols.
Proof. unfold find_col, mentions. rewrite fold_left_app. reflexivity. Qed.

(** The column that the resolver picks for a word is the last label that
    mentions it. *)
Lemma find_col_last word cols :
  match find_col word cols with
  | Some c =>
      exists pre post, cols = pre ++ c :: post /\ mentions word c = true /\
                       Forall (fun c' => mentions word c' = false) post
  | None => Forall (fun c => mentions word c = false) cols
  end.
Proof.
  induction cols as [|c cols IH] using rev_ind; [constructor|].
  rewrite find_col_snoc. destruct (mentions word c) eqn:E.
  - exists cols, []. repeat split; [exact E|constructor].
  - destruct (find_col word cols) as [c'|].
    + destruct IH as (pre & post & -> & Hc & Hpost).
      exists pre, (post ++ [c]). rewrite <- List.app_assoc. repeat split;
        [exact Hc|]. apply Forall_app. split; [exact Hpost|].
      constructor; [exact E|constructor].
    + apply Forall_app. split; [exact IH|]. constructor; [exact E|constructor].
Qed.

Lemma col_length c df l :
  Frame.col c df = Ok l -> length l = length (Frame.rows df).
Proof.
  unfold Frame.col. destruct (Frame.index_of c (Frame.columns df));
    [|discriminate]. intros [= <-]. apply length_map.
Qed.

(** The [state] table of the dump, when it has an id and a name column,
    is the mapping. *)
Lemma state_table_mapping sql_text st id_col name_col ids names :
  load_table sql_text "state" = Ok st ->
  Frame.empty st = false ->
  find_col "id" (Frame.columns st) = Some id_col ->
  find_col "name" (Frame.columns st) = Some name_col ->
  Frame.col id_col st = Ok ids -> Frame.col name_col st = Ok names ->
  Forall (fun v => is_int v = true) ids -> NoDup ids ->
  exists m,
    _load_state_mapping sql_text None None = Ok m /\
    forall n v, m !! n = Some v <-> In (VInt n, v) (combine ids names).
Proof.
  intros Hst He Hid Hname Hids Hnames Hint Hnd.
  unfold _load_state_mapping, state_mapping_from_sql.
  rewrite (load_one_table _ _ _ Hst). cbn [rbind]. cbv zeta.
  rewrite tables_get_one, He, Hid, Hname.
  unfold id_name_items. rewrite Hids, Hnames. cbn [rbind].
  assert (Hfst : map fst (combine ids names) = ids).
  { apply map_fst_combine.
    rewrite (col_length _ _ _ Hids), (col_length _ _ _ Hnames). reflexivity. }
  assert (Hint' : Forall (fun kv : Value * Value => is_int (fst kv) = true)
                         (combine ids names)).
  { apply List.Forall_forall. intros kv Hkv.
    rewrite List.Forall_forall in Hint. apply Hint. rewrite <- Hfst.
    apply in_map, Hkv. }
  destruct (int_keyed_ints (combine ids names) ∅ Hint'
              ltac:(rewrite Hfst; exact Hnd)) as (m & Hm & Hlook).
  exists m. split; [exact Hm|]. intros n v. split.
  - intros H. destruct (int_keyed_fold _ _ _ Hm n v H)
      as [H0|(key & Hin & Hk)]; [rewrite lookup_empty in H0; discriminate|].
    rewrite List.Forall_forall in Hint'. specialize (Hint' _ Hin).
    simpl in Hint'. destruct key; try discriminate Hint'.
    simpl in Hk. injection Hk as ->. exact Hin.
  - apply (proj1 (Hlook n)).
Qed.

(** *** The table loader *)

Lemma dict_get_set_eq {V} k (v : V) d : dict_get k (dict_set k v d) = Some v.
Proof.
  induction d as [|[k' v'] d IH]; simpl.
  - rewrite String.eqb_refl. reflexivity.
  - destruct (String.eqb k k') eqn:E; simpl; rewrite E; auto.
Qed.

Lemma dict_get_set_ne {V} k k' (v : V) d :
  k' <> k -> dict_get k' (dict_set k v d) = dict_get k' d.
Proof.
  intros Hne. induction d as [|[k0 v0] d IH]; simpl.
  - rewrite (proj2 (String.eqb_neq k' k) Hne). reflexivity.
  - destruct (String.eqb k k0) eqn:E; simpl.
    + apply String.eqb_eq in E. subst k0.
      rewrite (proj2 (String.eqb_neq k' k) Hne). reflexivity.
    + destruct (String.eqb k' k0); auto.
Qed.

Lemma load_tables_fold sql_text names : forall acc tables,
  fold_left
    (fun acc table =>
       let* result := acc in
       let* df := load_table sql_text table in
       Ok (dict_set table df result))
    names (Ok acc) = Ok tables ->
  forall n,
    (In n names ->
     exists df, load_table sql_text n = Ok df /\ dict_get n tables = Some df)
    /\ (~ In n names -> dict_get n tables = dict_get n acc).
Proof.
  induction names as [|t names IH]; intros acc tables H n; simpl in H.
  - injection H as <-. split; [intros []|auto].
  - destruct (load_table sql_text t) as [df|e] eqn:E; simpl in H.
    2:{ exfalso. clear -H. induction names as [|x names IH]; simpl in H;
          [discriminate|auto]. }
    destruct (IH _ _ H n) as [IH1 IH2].
    destruct (in_dec string_dec n names) as [Hin|Hnin].
    + split; [intros _; apply IH1, Hin|].
      intros Hno. exfalso. apply Hno. right. exact Hin.
    + rewrite (IH2 Hnin). split.
      * intros [->|Hin]; [|contradiction]. exists df. split; [exact E|].
        apply dict_get_set_eq.
      * intros Hno. apply dict_get_set_ne. intros ->. apply Hno.
        left. reflexivity.
Qed.

Lemma dedup_from_NoDup (l : list string) : forall seen,
  NoDup (dedup_from String.eqb seen l) /\
  forall x, In x (dedup_from String.eqb seen l) -> ~ In x seen.
Proof.
  induction l as [|a l IH]; intros seen; simpl.
  - split; [constructor|intros x []].
  - destruct (existsb (String.eqb a) seen) eqn:E; [apply IH|].
    destruct (IH (a :: seen)) as [Hnd Hnot]. split.
    + apply NoDup_cons. split; [|exact Hnd].
      rewrite list_elem_of_In. intros Hin. apply (Hnot a Hin). left.
      reflexivity.
    + intros x [<-|Hx].
      * intros Hin. apply not_true_iff_false in E. apply E.
        apply existsb_exists. exists a. split; [exact Hin|].
        apply String.eqb_refl.
      * intros Hin. apply (Hnot x Hx). right. exact Hin.
Qed.

Lemma union_keys_NoDup rs : NoDup (Frame.union_keys rs).
Proof. apply (dedup_from_NoDup _ []). Qed.

Lemma dedup_from_string_complete (l : list string) : forall seen x,
  In x l -> In x seen \/ In x (dedup_from String.eqb seen l).
Proof.
  intros seen x Hx.
  destruct (dedup_from_complete_gen String.eqb String.eqb_refl l seen x Hx)
    as [(y & Hy & E)|(y & Hy & E)]; apply String.eqb_eq in E; subst; auto.
Qed.

Lemma union_keys_In rs k :
  In k (Frame.union_keys rs) <-> exists r, In r rs /\ In k (dict_keys r).
Proof.
  unfold Frame.union_keys, dedup. split.
  - intros H. apply dedup_from_In in H. apply in_concat in H
      as (ks & Hks & Hk). apply in_map_iff in Hks as (r & <- & Hr). eauto.
  - intros (r & Hr & Hk).
    destruct (dedup_from_string_complete (concat (map dict_keys rs)) [] k)
      as [[]|H]; [|exact H].
    apply in_concat. exists (dict_keys r). split; [apply in_map, Hr|exact Hk].
Qed.

Lemma index_of_VStr_map keys k q :
  Frame.index_of (VStr k) (map VStr keys) = Some q -> keys !! q = Some k.
Proof.
  intros H. apply index_of_VStr_cell in H. rewrite list_lookup_fmap in H.
  destruct (keys !! q); simpl in H; congruence.
Qed.

(** The frame of a list of rows holds every row, in order, and every
    value under the name of its key. *)
Lemma of_records_cells rs i r k :
  rs !! i = Some r -> In k (Frame.union_keys rs) ->
  exists row,
    Frame.rows (Frame.of_records rs) !! i = Some row /\
    cell_under (Frame.of_records rs) row (VStr k)
    = Some (default VNull (dict_get k r)).
Proof.
  intros Hi Hk. unfold Frame.of_records. cbv zeta. unfold Row in *.
  cbn [Frame.rows Frame.columns]. rewrite list_lookup_fmap, Hi. simpl.
  eexists. split; [reflexivity|]. unfold cell_under. cbn [Frame.columns].
  destruct (In_index_of k (map VStr (Frame.union_keys rs))
              (in_map VStr _ _ Hk)) as [q Hq].
  rewrite Hq. simpl. f_equal.
  apply (cell_map_any (fun k => default VNull (dict_get k r))).
  apply index_of_VStr_map, Hq.
Qed.

(** *** The statement extractor *)

Lemma literal_lower p1 : forall p2 s,
  Py.lower p1 = Py.lower p2 -> Re.literal p1 s = Re.literal p2 s.
Proof.
  induction p1 as [|a p1 IH]; intros [|b p2] s H; try discriminate H;
    [reflexivity|].
  simpl in H. injection H as Hab Hp. destruct s as [|c s]; [reflexivity|].
  simpl. unfold Re.eqb_nocase. rewrite Hab. destruct (Ascii.eqb _ _); auto.
Qed.

Lemma lower_app a b : Py.lower (a +:+ b) = Py.lower a +:+ Py.lower b.
Proof.
  unfold Py.lower. induction a as [|c a IH]; simpl; [reflexivity|].
  rewrite IH. reflexivity.
Qed.

Lemma scan_ext {G} (f g : string -> option (G * string)) s :
  (forall x, f x = g x) -> forall k, Re.scan f k s = Re.scan g k s.
Proof.
  intros H. induction s as [|c s IH]; intros k; simpl; [reflexivity|].
  destruct k; [|apply IH]. rewrite H. destruct (g (String c s)) as [[x r]|];
    rewrite IH; reflexivity.
Qed.

Lemma insert_at_lower t1 t2 s :
  Py.lower t1 = Py.lower t2 -> Re.insert_at t1 s = Re.insert_at t2 s.
Proof.
  intros H. unfold Re.insert_at.
  rewrite (literal_lower ("INSERT INTO `" +:+ t1 +:+ "`")
                         ("INSERT INTO `" +:+ t2 +:+ "`")); [reflexivity|].
  rewrite !lower_app, H. reflexivity.
Qed.

(** The table name is matched without regard to case. *)
Lemma parse_insert_blocks_lower sql_text t1 t2 :
  Py.lower t1 = Py.lower t2 ->
  _parse_insert_blocks sql_text t1 = _parse_insert_blocks sql_text t2.
Proof.
  intros H. unfold _parse_insert_blocks, Re.finditer_insert.
  rewrite (scan_ext (Re.insert_at t1) (Re.insert_at t2));
    [reflexivity|]. intros x. apply insert_at_lower, H.
Qed.








Lemma forall_chars_suffix p a b :
  forall_chars p (a +:+ b) = true -> forall_chars p b = true.
Proof.
  induction a as [|c a IH]; simpl; [auto|]. intros H.
  apply andb_true_iff in H as [_ H]. auto.
Qed.









(** *** The reader on tuples without quotes *)









(** The empty tuple gives a row of missing values. *)
Lemma row_of_tuple_empty cols :
  NoDup cols ->
  row_of_tuple cols "" = Ok (map (fun c => (c, VNull)) cols).
Proof.
  intros Hnd. unfold row_of_tuple.
  change (Csv.next_record "") with (@Ok (list string) []). cbn [rbind map].
  unfold fit_columns. simpl length.
  destruct cols as [|c cols]; [reflexivity|].
  rewrite bool_decide_eq_true_2 by discriminate.
  rewrite bool_decide_eq_true_2 by (simpl; lia).
  rewrite Nat.sub_0_r. cbn [app].
  assert (Hc : forall (l : list string),
             combine l (replicate (length l) VNull)
             = map (fun c => (c, VNull)) l).
  { induction l as [|x l IH]; simpl; [|rewrite IH]; reflexivity. }
  rewrite Hc. f_equal. apply dict_of_pairs_nodup.
  rewrite List.map_map. simpl. rewrite List.map_id. exact Hnd.
Qed.

Lemma feed_bare_state s : forall r,
  Csv.st r = Csv.START_RECORD \/ Csv.st r = Csv.START_FIELD
  \/ Csv.st r = Csv.IN_FIELD ->
  forall_chars bare_char s = true ->
  exists r', Csv.feed r s = Ok r' /\
             (Csv.st r' = Csv.START_RECORD \/ Csv.st r' = Csv.START_FIELD
              \/ Csv.st r' = Csv.IN_FIELD).
Proof.
  induction s as [|c s IH]; intros r Hst Hs; [exists r; auto|].
  simpl in Hs. apply andb_true_iff in Hs as [Hc Hs].
  unfold bare_char, not_quote, not_newline in Hc.
  apply andb_true_iff in Hc as [Hq Hn]. apply negb_true_iff in Hq, Hn.
  cbn [Csv.feed].
  assert (Hstep : exists r1, Csv.parse_process_char r (Some c) = Ok r1 /\
                    (Csv.st r1 = Csv.START_RECORD
                     \/ Csv.st r1 = Csv.START_FIELD
                     \/ Csv.st r1 = Csv.IN_FIELD)).
  { unfold Csv.parse_process_char, Csv.start_field.
    destruct Hst as [E|[E|E]]; rewrite E, ?Hn, ?Hq;
      repeat match goal with
             | |- context [if ?b then _ else _] => destruct b
             end; eexists; (split; [reflexivity|]); simpl; auto. }
  destruct Hstep as (r1 & Hr1 & Hst1). rewrite Hr1. cbn [rbind].
  apply IH; assumption.
Qed.

Lemma feed_err_after s e : forall r,
  Csv.feed r s = Err e -> forall t, Csv.feed r (s +:+ t) = Err e.
Proof.
  intros r H t. rewrite feed_app, H. reflexivity.
Qed.

(** A line break outside quotes, followed by another character, makes the
    reader fail. *)
Lemma next_record_broken a nl c rest :
  forall_chars bare_char a = true ->
  Csv.is_newline nl = true -> Csv.is_newline c = false ->
  Csv.next_record (a +:+ String nl (String c rest)) = Err newline_error.
Proof.
  intros Ha Hnl Hc. unfold Csv.next_record. rewrite feed_app.
  destruct (feed_bare_state a (Csv.Reader Csv.START_RECORD "" [])
              ltac:(left; reflexivity) Ha) as (r & Hr & Hst).
  rewrite Hr. cbn [rbind Csv.feed].
  assert (Hstep : exists r1, Csv.parse_process_char r (Some nl) = Ok r1 /\
                             Csv.st r1 = Csv.EAT_CRNL).
  { unfold Csv.parse_process_char, Csv.start_field.
    destruct Hst as [E|[E|E]]; rewrite E, ?Hnl; eexists;
      (split; [reflexivity|reflexivity]). }
  destruct Hstep as (r1 & Hr1 & Hst1). rewrite Hr1. cbn [rbind].
  unfold Csv.parse_process_char at 1. rewrite Hst1, Hc. reflexivity.
Qed.

Lemma row_of_tuple_broken cols a nl c rest :
  forall_chars bare_char a = true ->
  Csv.is_newline nl = true -> Csv.is_newline c = false ->
  row_of_tuple cols (a +:+ String nl (String c rest)) = Err newline_error.
Proof.
  intros Ha Hnl Hc. unfold row_of_tuple.
  rewrite next_record_broken by assumption. reflexivity.
Qed.

(** *** The assembler: what it needs, what it keeps *)

Lemma col_has c df l : Frame.col c df = Ok l -> Frame.has c df = true.
Proof.
  unfold Frame.col. destruct (Frame.index_of c (Frame.columns df)) eqn:E;
    [|discriminate]. intros _. eapply has_index, E.
Qed.

Lemma set_col_same_columns c vals df :
  Frame.has c df = true ->
  Frame.columns (Frame.set_col c vals df) = Frame.columns df.
Proof.
  intros H. apply has_true in H as [i Hi]. unfold Frame.set_col.
  rewrite Hi. reflexivity.
Qed.

Lemma has_columns c df df' :
  Frame.columns df' = Frame.columns df -> Frame.has c df' = Frame.has c df.
Proof. intros H. unfold Frame.has. rewrite H. reflexivity. Qed.

Lemma pivot_needs index columns_ values fill df pv :
  Frame.pivot_table_sum index columns_ values fill df = Ok pv ->
  Frame.has (VStr index) df = true /\ Frame.has (VStr columns_) df = true
  /\ Frame.has (VStr values) df = true.
Proof.
  unfold Frame.pivot_table_sum. intros H.
  apply rbind_ok in H as (idx & Hi & H).
  apply rbind_ok in H as (cls & Hc & H).
  apply rbind_ok in H as (vls & Hv & H).
  repeat split; eapply col_has; eassumption.
Qed.

Lemma merge_left_needs L R key M :
  Frame.merge_left L R key = Ok M ->
  Frame.has (VStr key) L = true /\ Frame.has (VStr key) R = true.
Proof.
  unfold Frame.merge_left.
  destruct (Frame.index_of (VStr key) (Frame.columns L)) eqn:E1;
    [|discriminate].
  destruct (Frame.index_of (VStr key) (Frame.columns R)) eqn:E2;
    [|discriminate].
  intros _. split; eapply has_index; eassumption.
Qed.

(** The assembler returns a table only for a polling_unit table with an
    identifier column and a tally with its three columns. *)
Lemma assemble_needs pu ward lga announced m mo df :
  assemble pu ward lga announced m mo = Ok df ->
  Frame.empty pu = false /\ Frame.empty announced = false /\
  (Frame.has (VStr "uniqueid") pu = true
   \/ Frame.has (VStr "polling_unit_uniqueid") pu = true) /\
  Frame.has (VStr "polling_unit_uniqueid") announced = true /\
  Frame.has (VStr "party_abbreviation") announced = true /\
  Frame.has (VStr "party_score") announced = true.
Proof.
  unfold assemble. intros H. cbv zeta in H.
  destruct (Frame.empty pu); [discriminate|].
  destruct (Frame.empty announced); [discriminate|].
  apply rbind_ok in H as (ids & Hids & H).
  apply rbind_ok in H as (ids' & Hids' & H).
  apply rbind_ok in H as (pv & Hpv & H).
  apply rbind_ok in H as (m0 & Hm0 & _).
  pose proof (col_has _ _ _ Hids) as Hid.
  apply pivot_needs in Hpv as (_ & Hc & Hv).
  rewrite (has_columns _ _ _ (set_col_same_columns _ ids' _ Hid)) in Hc.
  rewrite (has_columns _ _ _ (set_col_same_columns _ ids' _ Hid)) in Hv.
  apply merge_left_needs in Hm0 as [Hk _].
  repeat split; auto.
  apply has_VStr in Hk. unfold Frame.rename in Hk. cbn [Frame.columns] in Hk.
  apply in_map_iff in Hk as (c & Hc' & Hin).
  destruct (eqb_scalar c (VStr "uniqueid")) eqn:E.
  - left. apply has_VStr. apply eqb_scalar_sym, eqb_scalar_VStr in E.
    subst c. exact Hin.
  - right. apply has_VStr. subst c. exact Hin.
Qed.

Lemma flat_map_length_ge {A B} (f : A -> list B) l :
  (forall a, In a l -> (1 <= length (f a))%nat) ->
  (length l <= length (flat_map f l))%nat.
Proof.
  induction l as [|a l IH]; intros H; simpl; [lia|].
  rewrite length_app.
  pose proof (H a (or_introl eq_refl)).
  pose proof (IH (fun x Hx => H x (or_intror Hx))). lia.
Qed.

(** A left join keeps every row of its left side. *)
Lemma merge_left_length L R key M :
  Frame.merge_left L R key = Ok M ->
  (length (Frame.rows L) <= length (Frame.rows M))%nat.
Proof.
  unfold Frame.merge_left.
  destruct (Frame.index_of (VStr key) (Frame.columns L)) as [i|];
    [|discriminate].
  destruct (Frame.index_of (VStr key) (Frame.columns R)) as [j|];
    [|discriminate].
  intros [= <-]. cbn [Frame.rows]. apply flat_map_length_ge.
  intros lr _. destruct (List.filter _ _); simpl; lia.
Qed.

Lemma set_col_length c vals df :
  length vals = length (Frame.rows df) ->
  length (Frame.rows (Frame.set_col c vals df)) = length (Frame.rows df).
Proof.
  intros H. unfold Frame.set_col.
  destruct (Frame.index_of c (Frame.columns df)); cbn [Frame.rows];
    rewrite length_map, length_combine; lia.
Qed.

Lemma select_length cs df df' :
  Frame.select cs df = Ok df' ->
  length (Frame.rows df') = length (Frame.rows df).
Proof.
  unfold Frame.select. intros H. apply rbind_ok in H as (idx & _ & H).
  injection H as <-. apply length_map.
Qed.

Lemma coerce_party_columns_shape cs : forall F F',
  coerce_party_columns cs F = Ok F' ->
  Frame.columns F' = Frame.columns F /\
  length (Frame.rows F') = length (Frame.rows F).
Proof.
  unfold coerce_party_columns.
  induction cs as [|c cs IH]; intros F F' H; simpl in H.
  - injection H as <-. auto.
  - destruct (Frame.map_col Frame.fillna0_astype_int c F) as [F1|e] eqn:E1;
      [|rewrite fold_err in H; discriminate].
    destruct (IH _ _ H) as [Hc Hl]. rewrite Hc, Hl.
    unfold Frame.map_col in E1. apply rbind_ok in E1 as (body & Hb & E1).
    injection E1 as <-. split; [reflexivity|]. cbn [Frame.rows].
    eapply rmap_length, Hb.
Qed.

(** The Assembled Table has at least one row per row of the polling_unit
    table. *)
Lemma assemble_keeps_units pu ward lga announced m mo df :
  assemble pu ward lga announced m mo = Ok df ->
  (length (Frame.rows pu) <= length (Frame.rows df))%nat.
Proof.
  unfold assemble. intros H. cbv zeta in H.
  destruct (Frame.empty pu); [discriminate|].
  destruct (Frame.empty announced); [discriminate|].
  apply rbind_ok in H as (ids & Hids & H).
  apply rbind_ok in H as (ids' & Hids' & H).
  apply rbind_ok in H as (pv & Hpv & H).
  apply rbind_ok in H as (m0 & Hm0 & H).
  apply rbind_ok in H as (m1 & Hm1 & H).
  apply rbind_ok in H as (m2 & Hm2 & H).
  apply rbind_ok in H as (sm & _ & H).
  apply rbind_ok in H as (sn & Hsn & H).
  apply rbind_ok in H as (sp & Hsp & H).
  apply rbind_ok in H as (fd & Hfd & H).
  apply merge_left_length in Hm0. cbn [Frame.rename Frame.rows] in Hm0.
  assert (H1 : (length (Frame.rows m0) <= length (Frame.rows m1))%nat).
  { destruct (_ && _) in Hm1; [|injection Hm1 as <-; lia].
    apply rbind_ok in Hm1 as (w & _ & Hm1).
    eapply merge_left_length, Hm1. }
  assert (H2 : (length (Frame.rows m1) <= length (Frame.rows m2))%nat).
  { destruct (_ && _) in Hm2; [|injection Hm2 as <-; lia].
    apply rbind_ok in Hm2 as (l & _ & Hm2).
    eapply merge_left_length, Hm2. }
  assert (Hlen : length sn = length (Frame.rows m2)).
  { destruct (Frame.has (VStr "state_id") m2).
    - apply rbind_ok in Hsn as (sids & Hs & Hsn). injection Hsn as <-.
      rewrite length_map. eapply col_length, Hs.
    - injection Hsn as <-. apply length_replicate. }
  apply select_length in Hfd. rewrite (set_col_length _ _ _ Hlen) in Hfd.
  apply coerce_party_columns_shape in H as [_ H]. lia.
Qed.

Lemma sorted_strongly l l' :
  sorted l = Ok l' -> StronglySorted name_le l'.
Proof.
  unfold sorted. destruct l as [|x [|y l]].
  - intros [= <-]. constructor.
  - intros [= <-]. constructor; constructor.
  - destruct (comparable (x :: y :: l)) eqn:Hc; [|discriminate].
    intros [= <-]. apply (sort_by_strongly leb_scalar name_le (x :: y :: l)).
    + intros a b c. apply name_le_trans.
    + intros a b Ha Hb E. apply leb_scalar_name_le; [exact E|].
      eapply comparable_kind; eassumption.
    + intros a b _ _ E. apply leb_scalar_false, E.
Qed.

Lemma pivot_columns_shape index columns_ values fill df pv :
  Frame.pivot_table_sum index columns_ values fill df = Ok pv ->
  exists idx cls vls,
    Frame.col (VStr columns_) df = Ok cls /\
    Frame.columns pv
    = VStr index :: Frame.pivot_cols (Frame.triples_of idx cls vls) /\
    existsb (eqb_scalar (VStr index))
            (Frame.pivot_cols (Frame.triples_of idx cls vls)) = false.
Proof.
  unfold Frame.pivot_table_sum. intros H.
  apply rbind_ok in H as (idx & Hi & H).
  apply rbind_ok in H as (cls & Hc & H).
  apply rbind_ok in H as (vls & Hv & H). cbv zeta in H.
  destruct (existsb _ _) eqn:E; [discriminate|].
  apply rbind_ok in H as (body & _ & H). injection H as <-.
  exists idx, cls, vls. auto.
Qed.

(** A left join keeps a label of its left side under its name when the
    right side brings no column of that name. *)
Lemma merge_left_keeps L R key M s j :
  Frame.merge_left L R key = Ok M ->
  Frame.index_of (VStr key) (Frame.columns R) = Some j ->
  existsb (eqb_scalar (VStr s)) (Frame.remove_nth j (Frame.columns R)) = false
  -> In (VStr s) (Frame.columns L) -> In (VStr s) (Frame.columns M).
Proof.
  unfold Frame.merge_left. intros H Hj Hr Hin.
  destruct (Frame.index_of (VStr key) (Frame.columns L)) as [i|];
    [|discriminate].
  rewrite Hj in H. injection H as <-. cbn [Frame.columns].
  apply in_or_app. left. apply in_map_iff. exists (VStr s).
  split; [|exact Hin]. rewrite Hr, andb_false_r. reflexivity.
Qed.

Lemma set_col_keeps c vals df x :
  In x (Frame.columns df) -> In x (Frame.columns (Frame.set_col c vals df)).
Proof.
  intros H. unfold Frame.set_col.
  destruct (Frame.index_of c (Frame.columns df)); cbn [Frame.columns];
    [exact H|apply in_or_app; left; exact H].
Qed.

Lemma set_col_has s vals df :
  In (VStr s) (Frame.columns (Frame.set_col (VStr s) vals df)).
Proof.
  unfold Frame.set_col.
  destruct (Frame.index_of (VStr s) (Frame.columns df)) as [i|] eqn:E;
    cbn [Frame.columns].
  - eapply list_elem_of_In, list_elem_of_lookup_2, index_of_VStr_cell, E.
  - apply in_or_app. right. left. reflexivity.
Qed.

Lemma index_of_head s cols :
  Frame.index_of (VStr s) (VStr s :: cols) = Some 0%nat.
Proof. cbn [Frame.index_of]. rewrite eqb_scalar_refl. reflexivity. Qed.

(** The layout of the Assembled Table: the fixed labels that are present,
    in their fixed order, then the parties of the tally in ascending
    order; the identifier and the state name are always there. *)
Lemma assemble_layout pu ward lga announced m mo df :
  assemble pu ward lga announced m mo = Ok df ->
  exists parties,
    Frame.columns df
    = List.filter (fun c => Frame.has c df) (map VStr known) ++ parties /\
    StronglySorted name_le parties /\
    (forall c, In c parties ->
       exists cls, Frame.col (VStr "party_abbreviation") announced = Ok cls
                   /\ In c cls) /\
    Frame.has (VStr "polling_unit_uniqueid") df = true /\
    Frame.has (VStr "state_name") df = true.
Proof.
  unfold assemble. intros H. cbv zeta in H.
  destruct (Frame.empty pu); [discriminate|].
  destruct (Frame.empty announced); [discriminate|].
  apply rbind_ok in H as (ids & Hids & H).
  apply rbind_ok in H as (ids' & Hids' & H).
  apply rbind_ok in H as (pv & Hpv & H).
  apply rbind_ok in H as (m0 & Hm0 & H).
  apply rbind_ok in H as (m1 & Hm1 & H).
  apply rbind_ok in H as (m2 & Hm2 & H).
  apply rbind_ok in H as (sm & _ & H).
  apply rbind_ok in H as (sn & _ & H).
  apply rbind_ok in H as (sp & Hsp & H).
  apply rbind_ok in H as (fd & Hfd & H).
  set (merged := Frame.set_col (VStr "state_name") sn m2) in *.
  apply select_columns in Hfd.
  apply coerce_party_columns_shape in H as [Hc _]. rewrite Hfd in Hc.
  destruct (pivot_columns_shape _ _ _ _ _ _ Hpv)
    as (idx & cls & vls & Hcls & Hpc & Hnp).
  (* the identifier survives the joins *)
  assert (Hid0 : In (VStr "polling_unit_uniqueid") (Frame.columns m0)).
  { pose proof (merge_left_needs _ _ _ _ Hm0) as [Hk _].
    apply has_VStr in Hk.
    eapply (merge_left_keeps _ _ _ _ _ 0%nat); [exact Hm0| | |exact Hk].
    - rewrite Hpc. apply index_of_head.
    - rewrite Hpc. exact Hnp. }
  assert (Hid1 : In (VStr "polling_unit_uniqueid") (Frame.columns m1)).
  { destruct (_ && _) in Hm1; [|injection Hm1 as <-; exact Hid0].
    apply rbind_ok in Hm1 as (w & Hw & Hm1). apply select_columns in Hw.
    eapply (merge_left_keeps _ _ _ _ _ 0%nat); [exact Hm1| | |exact Hid0];
      rewrite Hw; reflexivity. }
  assert (Hid2 : In (VStr "polling_unit_uniqueid") (Frame.columns m2)).
  { destruct (_ && _) in Hm2; [|injection Hm2 as <-; exact Hid1].
    apply rbind_ok in Hm2 as (l & Hl & Hm2). apply select_columns in Hl.
    eapply (merge_left_keeps _ _ _ _ _ 0%nat); [exact Hm2| | |exact Hid1];
      rewrite Hl; reflexivity. }
  assert (Hidm : Frame.has (VStr "polling_unit_uniqueid") merged = true)
    by (apply has_VStr, set_col_keeps, Hid2).
  assert (Hsnm : Frame.has (VStr "state_name") merged = true)
    by (apply has_VStr, set_col_has).
  (* a fixed label is in the result when the merged frame has it *)
  assert (Hknown : forall k, In k known ->
             Frame.has (VStr k) df = Frame.has (VStr k) merged).
  { intros k Hk. destruct (Frame.has (VStr k) merged) eqn:E.
    - apply has_VStr. rewrite Hc. apply in_or_app. left.
      apply filter_In. split; [apply in_map, Hk|exact E].
    - apply not_true_is_false. intros Hd. apply has_VStr in Hd.
      rewrite Hc in Hd. apply in_app_or in Hd as [Hd|Hd].
      + apply filter_In in Hd as [_ Hd]. congruence.
      + eapply sorted_In in Hd; [|exact Hsp].
        apply filter_In in Hd as [_ Hd]. congruence. }
  exists sp. split; [|split; [|split; [|split]]].
  - rewrite Hc. f_equal. apply List.filter_ext_in. intros c Hin.
    apply in_map_iff in Hin as (k & <- & Hk). symmetry. apply Hknown, Hk.
  - eapply sorted_strongly, Hsp.
  - intros c Hin. eapply sorted_In in Hin; [|exact Hsp].
    apply filter_In in Hin as [Hin _]. apply filter_In in Hin as [Hin Hne].
    rewrite Hpc in Hin. destruct Hin as [<-|Hin];
      [rewrite eqb_scalar_refl in Hne; discriminate|].
    apply pivot_cols_In in Hin. exists cls. split; [|exact Hin].
    rewrite <- Hcls. symmetry. apply col_after_set_col.
    + discriminate.
    + apply rmap_length in Hids'. rewrite Hids'. eapply col_length, Hids.
    + unfold Frame.col in Hids.
      destruct (Frame.index_of _ _); [eauto|discriminate].
  - rewrite (Hknown "polling_unit_uniqueid"); [exact Hidm|].
    unfold known. simpl. tauto.
  - rewrite (Hknown "state_name"); [exact Hsnm|].
    unfold known. simpl. tauto.
Qed.

(** *** The state names of the Assembled Table *)







(** *** Appending statements and reading them back *)







(** *** Value coercion and white space *)

Lemma rstrip_keep c r :
  Py.isspace c = false -> Py.rstrip (String c r) = String c (Py.rstrip r).
Proof.
  intros H. simpl. destruct (Py.rstrip r); [rewrite H|]; reflexivity.
Qed.

Lemma rstrip_idem s : Py.rstrip (Py.rstrip s) = Py.rstrip s.
Proof.
  induction s as [|c s IH]; [reflexivity|]. simpl.
  destruct (Py.rstrip s) as [|c' r'] eqn:E.
  - destruct (Py.isspace c) eqn:Ec; [reflexivity|].
    simpl. rewrite Ec. reflexivity.
  - simpl. simpl in IH. rewrite IH. reflexivity.
Qed.

Lemma lstrip_head s :
  Py.lstrip s = ""
  \/ exists c r, Py.lstrip s = String c r /\ Py.isspace c = false.
Proof.
  induction s as [|c s IH]; [left; reflexivity|]. simpl.
  destruct (Py.isspace c) eqn:E; [exact IH|]. right. eauto.
Qed.

Lemma strip_idem s : Py.strip (Py.strip s) = Py.strip s.
Proof.
  unfold Py.strip. destruct (lstrip_head s) as [->|(c & r & -> & Hc)];
    [reflexivity|].
  rewrite (rstrip_keep _ _ Hc), (lstrip_id _ _ Hc).
  rewrite <- (rstrip_keep _ _ Hc). apply rstrip_idem.
Qed.

(** Value coercion looks at the trimmed token only. *)
Lemma convert_strip token :
  _convert_sql_value (Py.strip token) = _convert_sql_value token.
Proof. unfold _convert_sql_value. rewrite strip_idem. reflexivity. Qed.

Lemma convert_text token s :
  _convert_sql_value token = VStr s -> s = Py.strip token.
Proof.
  unfold _convert_sql_value.
  destruct (_ || _); [discriminate|].
  destruct (Re.fullmatch_int _); [discriminate|].
  destruct (Re.fullmatch_float _); [discriminate|]. congruence.
Qed.

(** A value that coercion leaves as text is coerced to itself. *)
Lemma convert_text_fixed token s :
  _convert_sql_value token = VStr s -> _convert_sql_value s = VStr s.
Proof.
  intros H. pose proof (convert_text _ _ H) as ->.
  rewrite convert_strip. exact H.
Qed.

(** ** The claims *)



(** C2.  The resolver does not apply the override of id 25 on every path:
    with an explicit mapping [{1: "Lagos"}] the result has no entry for 25,
    and with a [state] table that names state 25 ["Delta"] the result keeps
    that name.  Only the fallback path (see [fallback_applies_override])
    ends with the override. *)
Theorem explicit_mapping_bypasses_override :
  (forall sql_text mapping_csv,
     exists m,
       _load_state_mapping sql_text mapping_csv
         (Some [(VInt 1, VStr "Lagos")]) = Ok m
       /\ m !! 25 = None) /\
  (exists m,
     _load_state_mapping state_dump None None = Ok m
     /\ m !! 25 = Some (VStr "Delta")).
Proof.
  split.
  - intros sql_text mapping_csv. eexists. split; [reflexivity|].
    vm_compute. reflexivity.
  - eexists. split; vm_compute; reflexivity.
Qed.






(** C5.  The comma split keeps a quoted region with commas as one field
    only as long as the region holds no single quote: the reader has no
    escape character, so in ['a\'b,c'] the quote after the backslash ends
    the quoted region and the comma after it splits the field. *)
Theorem reader_splits_after_escaped_quote :
  Csv.next_record "'a\'b,c'" = Ok ["a\b"; "c'"] /\
  _parse_insert_blocks
    "INSERT INTO `t` (`a`, `b`) VALUES ('O\'Brien, Jr', 5);" "t"
  = Ok [[("a", VStr "O\Brien"); ("b", VStr "Jr'")]].
Proof. split; vm_compute; reflexivity. Qed.







(** C8.  The child listings do not replace a null name: in the Assembled
    Table of [unmatched_dump] the LGA 99 and the wards 2 and 3 have no
    name, and [get_lgas_by_state] and [get_wards_by_lga] return them with a
    null name, where [get_states] returns the unnamed state 10 as
    [(10, "10")]. *)
Theorem child_listings_keep_null_names :
  exists df,
    build_polling_unit_results_df unmatched_dump
      (Some {[ 25 := VStr "Delta State" ]}) = Ok df /\
    get_lgas_by_state df None
    = Ok [(17, VStr "Ethiope East"); (19, VStr "Ika South"); (99, VNull)] /\
    get_wards_by_lga df None
    = Ok [(1, VStr "Aghara"); (2, VNull); (3, VNull)] /\
    get_states df = Ok [(10, VStr "10"); (25, VStr "Delta State")].
Proof.
  eexists. split; [vm_compute; reflexivity|].
  repeat split; vm_compute; reflexivity.
Qed.

(** C9.  For a value tuple that the reader has split into tokens, whatever
    their number, the extractor produces a Row whose keys are exactly the
    declared columns: the value of the i-th column is the coercion of the
    i-th token, or null when there are fewer tokens; tokens beyond the
    columns are dropped; no error is raised. *)
Theorem row_of_tuple_fits (cols : list string) (tup : string)
    (parsed : list string) :
  Csv.next_record tup = Ok parsed ->
  exists row,
    row_of_tuple cols tup = Ok row /\
    (forall c, In c (dict_keys row) <-> In c cols) /\
    (NoDup cols ->
     dict_keys row = cols /\
     forall i c, cols !! i = Some c ->
       dict_get c row
       = Some (default VNull (map _convert_sql_value parsed !! i))).
Proof. exact (row_of_tuple_fits_parsed cols tup parsed). Qed.

Lemma row_of_tuple_fits_witness :
  exists row,
    row_of_tuple ["a"; "b"; "c"] "1, 'x'" = Ok row /\
    (forall c, In c (dict_keys row) <-> In c ["a"; "b"; "c"]) /\
    (NoDup ["a"; "b"; "c"] ->
     dict_keys row = ["a"; "b"; "c"] /\
     forall i c, ["a"; "b"; "c"] !! i = Some c ->
       dict_get c row
       = Some (default VNull (map _convert_sql_value ["1"; "x"] !! i))).
Proof. exact (row_of_tuple_fits ["a"; "b"; "c"] "1, 'x'" ["1"; "x"] eq_refl). Defined.

(** C10.  When the table has exactly one of the columns [state_id] and
    [state_name], [get_states] raises a [KeyError] (for the missing one):
    its guard returns the empty list only when both are missing. *)
Theorem get_states_needs_both_columns (df : Frame.t) :
  (Frame.has (VStr "state_id") df = true ->
   Frame.has (VStr "state_name") df = false ->
   get_states df = Err (KeyError "state_name")) /\
  (Frame.has (VStr "state_id") df = false ->
   Frame.has (VStr "state_name") df = true ->
   get_states df = Err (KeyError "state_id")) /\
  (Frame.has (VStr "state_id") df = false ->
   Frame.has (VStr "state_name") df = false ->
   get_states df = Ok []).
Proof. exact (get_states_guard df). Qed.

Lemma get_states_needs_both_columns_witness :
  get_states (Frame.Df [VStr "polling_unit_uniqueid"; VStr "state_name"]
                       [[VInt 7; VNull]])
  = Err (KeyError "state_id").
Proof.
  exact (proj1 (proj2 (get_states_needs_both_columns
                         (Frame.Df [VStr "polling_unit_uniqueid";
                                    VStr "state_name"]
                                   [[VInt 7; VNull]])))
               eq_refl eq_refl).
Defined.

(** ** Further properties of the code *)

(** X1.  [filter_results] never raises and returns a table with the same
    labels whose rows are exactly the rows of the input, in their order,
    that pass every filter: a filter passes a row when no value is given
    for it, when the table has no such column, or when the cell equals the
    value (a missing cell equals nothing). *)
Theorem filter_results_keeps_passing_rows
    (df : Frame.t) (s l w p : option Z) :
  filter_results df s l w p
  = Ok (Frame.Df (Frame.columns df)
          (List.filter (passes_all s l w p df) (Frame.rows df))).
Proof. apply filter_results_rows. Qed.

(** X2.  Filtering twice keeps the rows that pass both filterings, so two
    filterings commute, filtering again with the same values changes
    nothing, and filtering by state and then by the other values is
    filtering by all of them at once. *)
Theorem filter_results_composes (df : Frame.t)
    (s l w p s' l' w' p' : option Z) :
  (let* out := filter_results df s l w p in filter_results out s' l' w' p')
  = (let* out := filter_results df s' l' w' p' in filter_results out s l w p)
  /\
  (let* out := filter_results df s l w p in filter_results out s l w p)
  = filter_results df s l w p /\
  (let* out := filter_results df s None None None in
   filter_results out None l w p)
  = filter_results df s l w p.
Proof.
  rewrite !filter_results_twice, filter_results_rows.
  repeat split; do 2 f_equal; apply filter_ext_eq; intros r.
  - apply andb_comm.
  - apply andb_diag.
  - unfold passes_all. rewrite !passes_none.
    rewrite !andb_true_r. simpl. rewrite !andb_assoc. reflexivity.
Qed.

(** X3.  The two child listings hold exactly the identifiers of the rows
    in their scope (all rows, or the rows of the given state, resp. LGA)
    whose identifier is not missing, each with the name of such a row. *)
Theorem child_listings_list_their_scope
    (df : Frame.t) (p : option Z) (l : list (Z * Value)) :
  (get_lgas_by_state df p = Ok l ->
   lists_scope "state_id" "lga_id" "lga_name" p df l) /\
  (get_wards_by_lga df p = Ok l ->
   lists_scope "lga_id" "ward_id" "ward_name" p df l).
Proof.
  split; intros H;
    eapply list_children_scope; try exact H; discriminate.
Qed.

Lemma child_listings_list_their_scope_witness :
  lists_scope "state_id" "lga_id" "lga_name" (Some 25) unmatched_table
              [(17, VStr "Ethiope East")].
Proof.
  apply (proj1 (child_listings_list_their_scope unmatched_table (Some 25)
                  [(17, VStr "Ethiope East")])).
  vm_compute. reflexivity.
Defined.

(** X4.  [get_states] returns the empty list for a table without both
    state columns; otherwise it holds exactly the identifiers of the rows
    whose state identifier is not missing, each with the state name of such
    a row, or with the identifier as text when that name is missing. *)
Theorem get_states_lists_states (df : Frame.t) (l : list (Z * Value)) :
  get_states df = Ok l ->
  (Frame.has (VStr "state_id") df = false /\
   Frame.has (VStr "state_name") df = false /\ l = [])
  \/ lists_states df l.
Proof. apply get_states_scope. Qed.

Lemma get_states_lists_states_witness :
  lists_states unmatched_table [(10, VStr "10"); (25, VStr "Delta State")].
Proof.
  assert (H : get_states unmatched_table
              = Ok [(10, VStr "10"); (25, VStr "Delta State")])
    by (vm_compute; reflexivity).
  destruct (get_states_lists_states unmatched_table _ H) as [Hno|Hl];
    [|exact Hl].
  destruct Hno as (_ & _ & Hno). discriminate Hno.
Defined.

(** X5.  The pairs that [get_states] returns are in the order of their
    names, and no name is missing. *)
Theorem get_states_sorted_by_name (df : Frame.t) (l : list (Z * Value)) :
  get_states df = Ok l ->
  by_name l /\ Forall (fun p => snd p <> VNull) l.
Proof. apply get_states_order. Qed.

Lemma get_states_sorted_by_name_witness :
  by_name [(10, VStr "10"); (25, VStr "Delta State")] /\
  Forall (fun p => snd p <> VNull) [(10, VStr "10"); (25, VStr "Delta State")].
Proof.
  apply (get_states_sorted_by_name unmatched_table). vm_compute. reflexivity.
Defined.

(** X6.  The pairs that a child listing returns are in the order of their
    names; the pairs whose name is missing come last. *)
Theorem child_listings_sorted_by_name
    (df : Frame.t) (p : option Z) (l : list (Z * Value)) :
  (get_lgas_by_state df p = Ok l -> named_first l) /\
  (get_wards_by_lga df p = Ok l -> named_first l).
Proof.
  split; intros H;
    eapply list_children_order; try exact H; discriminate.
Qed.

Lemma child_listings_sorted_by_name_witness :
  named_first [(17, VStr "Ethiope East"); (19, VStr "Ika South"); (99, VNull)].
Proof.
  apply (proj1 (child_listings_sorted_by_name unmatched_table None
                  [(17, VStr "Ethiope East"); (19, VStr "Ika South");
                   (99, VNull)])).
  vm_compute. reflexivity.
Defined.

(** X7.  Scoping a child listing by its parent is filtering the table
    first: when the table has the parent column, the LGAs of a state are
    the LGAs of the table that [filter_results] returns for that state, and
    the wards of an LGA those of the table filtered by that LGA. *)
Theorem scoped_listing_is_filtered_listing (df : Frame.t) (v : Z) :
  (Frame.has (VStr "state_id") df = true ->
   get_lgas_by_state df (Some v)
   = let* out := filter_results df (Some v) None None None in
     get_lgas_by_state out None) /\
  (Frame.has (VStr "lga_id") df = true ->
   get_wards_by_lga df (Some v)
   = let* out := filter_results df None (Some v) None None in
     get_wards_by_lga out None).
Proof.
  split; intros H.
  - rewrite filter_results_state. apply list_children_filtered, H.
  - rewrite filter_results_lga. apply list_children_filtered, H.
Qed.

Lemma scoped_listing_is_filtered_listing_witness :
  get_lgas_by_state unmatched_table (Some 25)
  = let* out := filter_results unmatched_table (Some 25) None None None in
    get_lgas_by_state out None.
Proof.
  apply (proj1 (scoped_listing_is_filtered_listing unmatched_table 25)).
  vm_compute. reflexivity.
Defined.

(** X8.  The child listings have no guard for missing columns: they raise
    a [KeyError] when the table lacks the identifier or the name column of
    the children, and [KeyError] for the parent column when a parent is
    given and the table lacks that column (where [filter_results] would
    ignore the filter). *)
Theorem child_listings_need_their_columns (df : Frame.t) (p : option Z) :
  ((p <> None -> Frame.has (VStr "state_id") df = true) ->
   Frame.has (VStr "lga_id") df = false
   \/ Frame.has (VStr "lga_name") df = false ->
   exists k, get_lgas_by_state df p = Err (KeyError k)) /\
  ((p <> None -> Frame.has (VStr "lga_id") df = true) ->
   Frame.has (VStr "ward_id") df = false
   \/ Frame.has (VStr "ward_name") df = false ->
   exists k, get_wards_by_lga df p = Err (KeyError k)) /\
  (forall v, p = Some v -> Frame.has (VStr "state_id") df = false ->
   get_lgas_by_state df p = Err (KeyError "state_id")) /\
  (forall v, p = Some v -> Frame.has (VStr "lga_id") df = false ->
   get_wards_by_lga df p = Err (KeyError "lga_id")).
Proof.
  repeat split.
  - apply list_children_missing.
  - apply list_children_missing.
  - intros v -> H. apply list_children_no_parent, H.
  - intros v -> H. apply list_children_no_parent, H.
Qed.

Lemma child_listings_need_their_columns_witness :
  exists k,
    get_lgas_by_state
      (Frame.Df [VStr "polling_unit_uniqueid"; VStr "polling_unit_name";
                 VStr "state_name"; VStr "APC"]
                [[VInt 7; VStr "Sapele Ward 8 PU"; VNull; VInt 150]])
      None = Err (KeyError k).
Proof.
  apply (proj1 (child_listings_need_their_columns
                  (Frame.Df [VStr "polling_unit_uniqueid";
                             VStr "polling_unit_name";
                             VStr "state_name"; VStr "APC"]
                            [[VInt 7; VStr "Sapele Ward 8 PU"; VNull;
                              VInt 150]]) None)).
  - intros H. congruence.
  - left. vm_compute. reflexivity.
Defined.

Lemma unmatched_table_party_cells : party_cells_int unmatched_table.
Proof.
  unfold party_cells_int, unmatched_table. cbn [Frame.rows Frame.columns].
  repeat constructor; intros H; vm_compute in H; try discriminate H;
    reflexivity.
Defined.

Lemma new_unit_party_values (pu_row : gmap string Value) :
  pu_row !! "APC" = None -> party_values_int unmatched_table pu_row.
Proof.
  intros Hapc c v Hin Hk Hv. unfold unmatched_table in Hin.
  cbn [Frame.columns] in Hin.
  repeat (destruct Hin as [<-|Hin]; [try discriminate Hk|]);
    [|destruct Hin].
  simpl in Hv. rewrite Hapc in Hv. discriminate Hv.
Defined.

(** X9.  On a table whose party cells are integers, and for a unit that
    gives the party columns integers only (or nothing),
    [add_polling_unit_to_df] returns the table with one more row and
    nothing else changed: the new row holds the field of the unit under
    each label that the unit has, a missing value under the other fixed
    labels, and 0 under the other party labels.  (Cells are compared as
    values: the dtype that pandas picks for a column is not represented.) *)
Theorem add_polling_unit_appends_one_row
    (df : Frame.t) (pu_row : gmap string Value) :
  party_cells_int df -> party_values_int df pu_row ->
  add_polling_unit_to_df df pu_row
  = Ok (Frame.Df (Frame.columns df)
          (Frame.rows df ++ [map (new_cell pu_row) (Frame.columns df)])).
Proof. apply add_polling_unit_exact. Qed.

Lemma add_polling_unit_appends_one_row_witness :
  add_polling_unit_to_df unmatched_table new_unit
  = Ok (Frame.Df (Frame.columns unmatched_table)
          (Frame.rows unmatched_table
           ++ [[VInt 10; VStr "New PU 10"; VInt 1; VInt 17; VStr "Aghara";
                VStr "Ethiope East"; VInt 25; VStr "Delta State"; VInt 0]])).
Proof.
  exact (add_polling_unit_appends_one_row unmatched_table new_unit
           unmatched_table_party_cells
           (new_unit_party_values new_unit eq_refl)).
Defined.

(** X10.  After a unit with a fresh identifier is added, filtering the
    new table by that identifier returns exactly the row of the unit. *)
Theorem added_unit_is_found_by_id
    (df : Frame.t) (pu_row : gmap string Value) (n : Z) (i : nat) :
  party_cells_int df -> party_values_int df pu_row ->
  Frame.index_of (VStr "polling_unit_uniqueid") (Frame.columns df) = Some i ->
  pu_row !! "polling_unit_uniqueid" = Some (VInt n) ->
  (forall r, In r (Frame.rows df) ->
             eqb_elem (Frame.cell i r) (VInt n) = false) ->
  (let* df' := add_polling_unit_to_df df pu_row in
   filter_results df' None None None (Some n))
  = Ok (Frame.Df (Frame.columns df)
          [map (new_cell pu_row) (Frame.columns df)]).
Proof. apply added_unit_found. Qed.

Lemma added_unit_is_found_by_id_witness :
  (let* df' := add_polling_unit_to_df unmatched_table new_unit in
   filter_results df' None None None (Some 10))
  = Ok (Frame.Df (Frame.columns unmatched_table)
          [[VInt 10; VStr "New PU 10"; VInt 1; VInt 17; VStr "Aghara";
            VStr "Ethiope East"; VInt 25; VStr "Delta State"; VInt 0]]).
Proof.
  refine (added_unit_is_found_by_id unmatched_table new_unit 10 0
            unmatched_table_party_cells
            (new_unit_party_values new_unit eq_refl) eq_refl eq_refl _).
  intros r Hr. unfold unmatched_table in Hr. cbn [Frame.rows] in Hr.
  destruct Hr as [<-|[<-|[<-|[]]]]; vm_compute; reflexivity.
Defined.

(** X11.  [add_polling_unit_to_df] raises [ValueError] when the unit gives
    a party column a text that [int] does not accept. *)
Theorem add_polling_unit_rejects_text_score
    (df : Frame.t) (pu_row : gmap string Value) (c : Frame.Label)
    (s : string) :
  aligned df -> In c (Frame.columns df) -> is_known c = false ->
  row_lookup c pu_row = Some (VStr s) -> Py.int_of_string s = None ->
  exists msg, add_polling_unit_to_df df pu_row = Err (ValueError msg).
Proof. apply add_polling_unit_bad_party. Qed.

Lemma add_polling_unit_rejects_text_score_witness :
  exists msg,
    add_polling_unit_to_df unmatched_table {[ "APC" := VStr "many" ]}
    = Err (ValueError msg).
Proof.
  refine (add_polling_unit_rejects_text_score unmatched_table
            {[ "APC" := VStr "many" ]} (VStr "APC") "many" _ _ eq_refl
            eq_refl eq_refl).
  - apply party_cells_int_aligned, unmatched_table_party_cells.
  - unfold unmatched_table. cbn [Frame.columns]. simpl. tauto.
Defined.

(** X12.  An explicit mapping that is not empty, with distinct integer
    keys, is the result of the resolver as it is, whatever the dump and
    the side file hold. *)
Theorem explicit_mapping_is_returned (sql_text : string)
    (mapping_csv : option Frame.t) (items : list (Value * Value)) :
  items <> [] ->
  Forall (fun kv => is_int (fst kv) = true) items ->
  NoDup (map fst items) ->
  exists m,
    _load_state_mapping sql_text mapping_csv (Some items) = Ok m /\
    forall n v, m !! n = Some v <-> In (VInt n, v) items.
Proof. apply explicit_mapping_returned. Qed.

Lemma explicit_mapping_is_returned_witness :
  exists m,
    _load_state_mapping state_dump None
      (Some [(VInt 1, VStr "Lagos"); (VInt 2, VStr "Ogun")]) = Ok m /\
    forall n v, m !! n = Some v
                <-> In (VInt n, v) [(VInt 1, VStr "Lagos"); (VInt 2, VStr "Ogun")].
Proof.
  apply (explicit_mapping_is_returned state_dump None
           [(VInt 1, VStr "Lagos"); (VInt 2, VStr "Ogun")]).
  - discriminate.
  - repeat constructor.
  - simpl. apply NoDup_cons. split.
    + rewrite list_elem_of_In. simpl. intros [H|[]]. discriminate H.
    + apply NoDup_cons. split; [|constructor].
      rewrite list_elem_of_In. intros [].
Defined.



(** X14.  Without an explicit mapping or side file, and when the dump has
    no usable [state] table (none, or one without an id or a name
    column), the resolver falls back to the [lga] table: the result maps
    25 to ["Delta State"] and every other state identifier of the [lga]
    table to the generated name ["State <id>"], and nothing else; when the
    [lga] table is empty or has no [state_id] column the result is the
    single entry for 25. *)
Theorem fallback_names_states_of_lga (sql_text : string) (st lga : Frame.t) :
  load_table sql_text "state" = Ok st ->
  Frame.empty st = true \/ find_col "id" (Frame.columns st) = None
  \/ find_col "name" (Frame.columns st) = None ->
  load_table sql_text "lga" = Ok lga ->
  (Frame.empty lga = true \/ Frame.has (VStr "state_id") lga = false ->
   _load_state_mapping sql_text None None
   = Ok {[ 25 := VStr "Delta State" ]}) /\
  (forall sids,
     Frame.empty lga = false ->
     Frame.col (VStr "state_id") lga = Ok sids ->
     ints_or_missing sids ->
     exists m,
       _load_state_mapping sql_text None None = Ok m /\
       m !! 25 = Some (VStr "Delta State") /\
       forall n, n <> 25 ->
         (In (VInt n) sids -> m !! n = Some (fallback_name n)) /\
         (~ In (VInt n) sids -> m !! n = None)).
Proof. apply fallback_mapping. Qed.

Lemma fallback_names_states_of_lga_witness :
  exists m,
    _load_state_mapping unmatched_dump None None = Ok m /\
    m !! 25 = Some (VStr "Delta State") /\
    forall n, n <> 25 ->
      (In (VInt n) [VInt 25; VInt 10] -> m !! n = Some (fallback_name n)) /\
      (~ In (VInt n) [VInt 25; VInt 10] -> m !! n = None).
Proof.
  assert (Hst : load_table unmatched_dump "state" = Ok Frame.empty_frame)
    by (vm_compute; reflexivity).
  assert (Hlga : load_table unmatched_dump "lga"
                 = Ok (tables_get "lga" unmatched_tables))
    by (vm_compute; reflexivity).
  refine (proj2 (fallback_names_states_of_lga unmatched_dump _ _ Hst
                   (or_introl eq_refl) Hlga)
                [VInt 25; VInt 10] eq_refl eq_refl _).
  repeat constructor.
Defined.

(** X15.  When the dump has a [state] table with rows, an id column and a
    name column, whose identifiers are distinct integers, the resolver
    returns exactly the (identifier, name) pairs of that table (and so no
    entry for 25 unless the table has one). *)
Theorem state_table_is_the_mapping (sql_text : string) (st : Frame.t)
    (id_col name_col : Frame.Label) (ids names : list Value) :
  load_table sql_text "state" = Ok st ->
  Frame.empty st = false ->
  find_col "id" (Frame.columns st) = Some id_col ->
  find_col "name" (Frame.columns st) = Some name_col ->
  Frame.col id_col st = Ok ids -> Frame.col name_col st = Ok names ->
  Forall (fun v => is_int v = true) ids -> NoDup ids ->
  exists m,
    _load_state_mapping sql_text None None = Ok m /\
    forall n v, m !! n = Some v <-> In (VInt n, v) (combine ids names).
Proof. apply state_table_mapping. Qed.

Lemma state_table_is_the_mapping_witness :
  exists m,
    _load_state_mapping state_dump None None = Ok m /\
    forall n v, m !! n = Some v
                <-> In (VInt n, v) (combine [VInt 25] [VStr "Delta"]).
Proof.
  assert (Hst : load_table state_dump "state"
                = Ok (Frame.Df [VStr "state_id"; VStr "state_name"]
                               [[VInt 25; VStr "Delta"]]))
    by (vm_compute; reflexivity).
  refine (state_table_is_the_mapping state_dump _ (VStr "state_id")
            (VStr "state_name") [VInt 25] [VStr "Delta"] Hst
            eq_refl eq_refl eq_refl eq_refl eq_refl _ _).
  - repeat constructor.
  - apply NoDup_cons. split; [|constructor].
    rewrite list_elem_of_In. intros [].
Defined.

(** X16.  The column that the resolver takes for a word (["id"],
    ["name"]) is the last label of the table that contains the word,
    ignoring case; it finds none exactly when no label contains it. *)
Theorem find_col_takes_last_match
    (word : string) (cols : list Frame.Label) :
  match find_col word cols with
  | Some c =>
      exists pre post, cols = pre ++ c :: post /\ mentions word c = true /\
                       Forall (fun c' => mentions word c' = false) post
  | None => Forall (fun c => mentions word c = false) cols
  end.
Proof. apply find_col_last. Qed.

(** X17.  [load_tables_from_sql] returns one frame for each requested name
    and nothing else: the frame of the rows that the extractor finds for
    that table, every row of it with one cell per label. *)
Theorem load_tables_one_frame_per_name
    (sql_text : string) (names : list string) (tables : dict Frame.t) :
  load_tables_from_sql sql_text names = Ok tables ->
  forall n,
    (In n names ->
     exists df, load_table sql_text n = Ok df /\ dict_get n tables = Some df
                /\ aligned df) /\
    (~ In n names -> dict_get n tables = None).
Proof.
  intros H n. destruct (load_tables_fold _ _ _ _ H n) as [H1 H2].
  split; [|exact H2]. intros Hin. destruct (H1 Hin) as (df & Hdf & Hget).
  exists df. repeat split; auto. eapply load_table_aligned, Hdf.
Qed.

Lemma load_tables_one_frame_per_name_witness :
  exists df, load_table unmatched_dump "ward" = Ok df
             /\ dict_get "ward" unmatched_tables = Some df /\ aligned df.
Proof.
  refine (proj1 (load_tables_one_frame_per_name unmatched_dump
                   ["polling_unit"; "ward"; "lga"; "announced_pu_results"]
                   unmatched_tables _ "ward") _).
  - vm_compute. reflexivity.
  - simpl. tauto.
Defined.

(** X18.  The frame of a table holds the rows that the extractor returns
    for it, in their order: its labels are the keys of the rows, each
    once, in the order of their first appearance; the cell of a row under
    a label is the value of the row for that key, or missing when the row
    lacks the key.  A table without rows gives the empty frame. *)
Theorem load_table_holds_parsed_rows
    (sql_text table : string) (rs : list Row) :
  _parse_insert_blocks sql_text table = Ok rs ->
  (rs = [] -> load_table sql_text table = Ok Frame.empty_frame) /\
  (rs <> [] ->
   exists df,
     load_table sql_text table = Ok df /\
     Frame.columns df = map VStr (Frame.union_keys rs) /\
     NoDup (Frame.union_keys rs) /\
     (forall k, In k (Frame.union_keys rs)
                <-> exists r, In r rs /\ In k (dict_keys r)) /\
     length (Frame.rows df) = length rs /\
     forall i r k, rs !! i = Some r -> In k (Frame.union_keys rs) ->
       exists row,
         Frame.rows df !! i = Some row /\
         cell_under df row (VStr k) = Some (default VNull (dict_get k r))).
Proof.
  intros H. unfold load_table. rewrite H. cbn [rbind]. split.
  - intros ->. reflexivity.
  - intros Hne. exists (Frame.of_records rs).
    split; [destruct rs; [congruence|reflexivity]|].
    split; [reflexivity|]. split; [apply union_keys_NoDup|].
    split; [apply union_keys_In|].
    split; [apply length_map|]. apply of_records_cells.
Qed.

Lemma load_table_holds_parsed_rows_witness :
  exists df,
    load_table state_dump "state" = Ok df /\
    Frame.columns df
    = map VStr (Frame.union_keys
                  [[("state_id", VInt 25); ("state_name", VStr "Delta")]]) /\
    NoDup (Frame.union_keys
             [[("state_id", VInt 25); ("state_name", VStr "Delta")]]) /\
    (forall k, In k (Frame.union_keys
                       [[("state_id", VInt 25); ("state_name", VStr "Delta")]])
               <-> exists r,
                     In r [[("state_id", VInt 25); ("state_name", VStr "Delta")]]
                     /\ In k (dict_keys r)) /\
    length (Frame.rows df) = 1%nat /\
    forall i r k,
      [[("state_id", VInt 25); ("state_name", VStr "Delta")]] !! i = Some r ->
      In k (Frame.union_keys
              [[("state_id", VInt 25); ("state_name", VStr "Delta")]]) ->
      exists row,
        Frame.rows df !! i = Some row /\
        cell_under df row (VStr k) = Some (default VNull (dict_get k r)).
Proof.
  apply (proj2 (load_table_holds_parsed_rows state_dump "state"
                  [[("state_id", VInt 25); ("state_name", VStr "Delta")]]
                  ltac:(vm_compute; reflexivity))).
  discriminate.
Defined.

(** X19.  The extractor matches the name of the table without regard to
    the case of its letters: two names that differ in case only give the
    same rows. *)
Theorem table_name_matched_without_case (sql_text t1 t2 : string) :
  Py.lower t1 = Py.lower t2 ->
  _parse_insert_blocks sql_text t1 = _parse_insert_blocks sql_text t2.
Proof. apply parse_insert_blocks_lower. Qed.

Lemma table_name_matched_without_case_witness :
  _parse_insert_blocks scenario_dump "Polling_Unit"
  = _parse_insert_blocks scenario_dump "polling_unit".
Proof.
  exact (table_name_matched_without_case scenario_dump "Polling_Unit"
           "polling_unit" eq_refl).
Defined.





(** X22.  The empty value tuple gives a Row with a missing value for
    every column. *)
Theorem empty_tuple_gives_null_row (cols : list string) :
  NoDup cols ->
  row_of_tuple cols "" = Ok (map (fun c => (c, VNull)) cols).
Proof. apply row_of_tuple_empty. Qed.

Lemma empty_tuple_gives_null_row_witness :
  row_of_tuple ["a"; "b"] "" = Ok [("a", VNull); ("b", VNull)].
Proof.
  apply (empty_tuple_gives_null_row ["a"; "b"]).
  apply NoDup_cons. split.
  - rewrite list_elem_of_In. simpl. intros [H|[]]. discriminate H.
  - apply NoDup_cons. split; [|constructor].
    rewrite list_elem_of_In. intros [].
Defined.

(** X23.  A value tuple that holds, outside quotes, a line break followed
    by another character makes the loop body fail with the error of the
    reader, whatever follows. *)
Theorem line_break_in_tuple_is_rejected
    (cols : list string) (a : string) (nl c : ascii) (rest : string) :
  forall_chars bare_char a = true ->
  Csv.is_newline nl = true -> Csv.is_newline c = false ->
  exists msg,
    row_of_tuple cols (a +:+ String nl (String c rest))
    = Err (CsvError msg).
Proof.
  intros Ha Hnl Hc. eexists. apply row_of_tuple_broken; assumption.
Qed.

Lemma line_break_in_tuple_is_rejected_witness :
  exists msg,
    row_of_tuple ["ward_id"; "ward_name"]
      ("1," +:+ String "010" (String "'" "Aghara'"))
    = Err (CsvError msg).
Proof.
  exact (line_break_in_tuple_is_rejected ["ward_id"; "ward_name"] "1,"
           "010" "'" "Aghara'" eq_refl eq_refl eq_refl).
Defined.

Lemma build_inv sql_text m df :
  build_polling_unit_results_df sql_text m = Ok df ->
  exists tables,
    load_tables_from_sql sql_text
      ["polling_unit"; "ward"; "lga"; "announced_pu_results"] = Ok tables /\
    assemble (tables_get "polling_unit" tables) (tables_get "ward" tables)
             (tables_get "lga" tables)
             (tables_get "announced_pu_results" tables)
             m (_load_state_mapping sql_text None None) = Ok df.
Proof.
  unfold build_polling_unit_results_df. intros H.
  apply rbind_ok in H as (tables & Ht & H). eauto.
Qed.

Lemma build_assemble sql_text m df tables :
  build_polling_unit_results_df sql_text m = Ok df ->
  load_tables_from_sql sql_text
    ["polling_unit"; "ward"; "lga"; "announced_pu_results"] = Ok tables ->
  assemble (tables_get "polling_unit" tables) (tables_get "ward" tables)
           (tables_get "lga" tables)
           (tables_get "announced_pu_results" tables)
           m (_load_state_mapping sql_text None None) = Ok df.
Proof.
  intros H Ht. destruct (build_inv _ _ _ H) as (tables' & Ht' & Ha).
  congruence.
Qed.

Lemma unmatched_loaded :
  load_tables_from_sql unmatched_dump
    ["polling_unit"; "ward"; "lga"; "announced_pu_results"]
  = Ok unmatched_tables.
Proof. vm_compute. reflexivity. Defined.

Lemma unmatched_built :
  build_polling_unit_results_df unmatched_dump
    (Some {[ 25 := VStr "Delta State" ]}) = Ok unmatched_table.
Proof. vm_compute. reflexivity. Defined.

(** X24.  The assembler returns a table only for a dump whose
    [polling_unit] table has rows and a column [uniqueid] (or
    [polling_unit_uniqueid]) and whose tally has rows and the three
    columns [polling_unit_uniqueid], [party_abbreviation] and
    [party_score]. *)
Theorem assembler_needs_its_columns (sql_text : string)
    (state_mapping : option (gmap Z Value)) (df : Frame.t) :
  build_polling_unit_results_df sql_text state_mapping = Ok df ->
  exists tables,
    load_tables_from_sql sql_text
      ["polling_unit"; "ward"; "lga"; "announced_pu_results"] = Ok tables /\
    let pu := tables_get "polling_unit" tables in
    let announced := tables_get "announced_pu_results" tables in
    Frame.empty pu = false /\ Frame.empty announced = false /\
    (Frame.has (VStr "uniqueid") pu = true
     \/ Frame.has (VStr "polling_unit_uniqueid") pu = true) /\
    Frame.has (VStr "polling_unit_uniqueid") announced = true /\
    Frame.has (VStr "party_abbreviation") announced = true /\
    Frame.has (VStr "party_score") announced = true.
Proof.
  intros H. destruct (build_inv _ _ _ H) as (tables & Ht & Ha).
  exists tables. split; [exact Ht|]. cbv zeta. eapply assemble_needs, Ha.
Qed.

Lemma assembler_needs_its_columns_witness :
  exists tables,
    load_tables_from_sql unmatched_dump
      ["polling_unit"; "ward"; "lga"; "announced_pu_results"] = Ok tables /\
    let pu := tables_get "polling_unit" tables in
    let announced := tables_get "announced_pu_results" tables in
    Frame.empty pu = false /\ Frame.empty announced = false /\
    (Frame.has (VStr "uniqueid") pu = true
     \/ Frame.has (VStr "polling_unit_uniqueid") pu = true) /\
    Frame.has (VStr "polling_unit_uniqueid") announced = true /\
    Frame.has (VStr "party_abbreviation") announced = true /\
    Frame.has (VStr "party_score") announced = true.
Proof.
  exact (assembler_needs_its_columns unmatched_dump
           (Some {[ 25 := VStr "Delta State" ]}) unmatched_table
           unmatched_built).
Defined.

(** X25.  The Assembled Table has at least one row for every row of the
    [polling_unit] table: the left joins never drop a polling unit. *)
Theorem assembler_keeps_every_unit (sql_text : string)
    (state_mapping : option (gmap Z Value)) (df : Frame.t)
    (tables : dict Frame.t) :
  build_polling_unit_results_df sql_text state_mapping = Ok df ->
  load_tables_from_sql sql_text
    ["polling_unit"; "ward"; "lga"; "announced_pu_results"] = Ok tables ->
  (length (Frame.rows (tables_get "polling_unit" tables))
   <= length (Frame.rows df))%nat.
Proof.
  intros H Ht. eapply assemble_keeps_units, build_assemble; eassumption.
Qed.

Lemma assembler_keeps_every_unit_witness :
  (length (Frame.rows (tables_get "polling_unit" unmatched_tables))
   <= length (Frame.rows unmatched_table))%nat.
Proof.
  exact (assembler_keeps_every_unit unmatched_dump
           (Some {[ 25 := VStr "Delta State" ]}) unmatched_table
           unmatched_tables unmatched_built unmatched_loaded).
Defined.

(** X26.  The layout of the Assembled Table: first the fixed labels that
    the table has, in their fixed order, then the party labels in
    ascending order, each a party abbreviation of the tally; the labels
    [polling_unit_uniqueid] and [state_name] are always there. *)
Theorem assembled_table_layout (sql_text : string)
    (state_mapping : option (gmap Z Value)) (df : Frame.t)
    (tables : dict Frame.t) :
  build_polling_unit_results_df sql_text state_mapping = Ok df ->
  load_tables_from_sql sql_text
    ["polling_unit"; "ward"; "lga"; "announced_pu_results"] = Ok tables ->
  exists parties,
    Frame.columns df
    = List.filter (fun c => Frame.has c df) (map VStr known) ++ parties /\
    StronglySorted name_le parties /\
    (forall c, In c parties ->
       exists cls,
         Frame.col (VStr "party_abbreviation")
                   (tables_get "announced_pu_results" tables) = Ok cls
         /\ In c cls) /\
    Frame.has (VStr "polling_unit_uniqueid") df = true /\
    Frame.has (VStr "state_name") df = true.
Proof.
  intros H Ht. eapply assemble_layout, build_assemble; eassumption.
Qed.

Lemma assembled_table_layout_witness :
  exists parties,
    Frame.columns unmatched_table
    = List.filter (fun c => Frame.has c unmatched_table) (map VStr known)
      ++ parties /\
    StronglySorted name_le parties /\
    (forall c, In c parties ->
       exists cls,
         Frame.col (VStr "party_abbreviation")
                   (tables_get "announced_pu_results" unmatched_tables)
         = Ok cls /\ In c cls) /\
    Frame.has (VStr "polling_unit_uniqueid") unmatched_table = true /\
    Frame.has (VStr "state_name") unmatched_table = true.
Proof.
  exact (assembled_table_layout unmatched_dump
           (Some {[ 25 := VStr "Delta State" ]}) unmatched_table
           unmatched_tables unmatched_built unmatched_loaded).
Defined.





(** X29.  Value coercion looks at the trimmed token only: a token and its
    trimmed form are coerced alike; the text [str(n)] of an integer is
    coerced back to [n]; and a value that coercion leaves as text is
    coerced to itself. *)
Theorem coercion_is_stable :
  (forall token,
     _convert_sql_value (Py.strip token) = _convert_sql_value token) /\
  (forall n, _convert_sql_value (Py.str_of_int n) = VInt n) /\
  (forall token s,
     _convert_sql_value token = VStr s -> _convert_sql_value s = VStr s).
Proof.
  split; [exact convert_strip|].
  split; [exact convert_str_of_int|exact convert_text_fixed].
Qed.
